(** * vercel-builder: the build pipeline of [src/build.ts]

    A shallow embedding of the [build] function of the Nuxt builder for
    Vercel, and the properties of its specification.  The pipeline is an
    orchestrator: it calls the package installer, the framework compiler
    and the globbing layer in a fixed order, and edits the workspace and
    the manifest in between.  It is modelled as a program in a small
    error-and-state monad over a [World] (file system, working directory,
    event trace, warnings); everything [build.ts] imports from outside the
    file is a field of [Collaborators].

    What the model leaves out: the [consola.log] lines (the warning of
    [consola.warn] is kept); directories and symbolic links of the file
    system, which holds files only, under their canonical paths.  File
    sets are finite maps; where the source lists the keys of one
    ([Object.keys]), the order is that of the collaborator [keyBefore],
    which stands for the order in which [glob] inserted them. *)

From Stdlib Require Import Ascii String NArith.
From stdpp Require Import gmap strings list fin_maps.

Local Open Scope string_scope.

(** ** Strings and JavaScript truthiness *)

Definition chars (s : string) : list ascii := list_ascii_of_string s.
Definition unchars (l : list ascii) : string := string_of_list_ascii l.

(** A JavaScript string is truthy unless it is empty. *)
Definition truthy (s : string) : bool :=
  match s with EmptyString => false | String _ _ => true end.

(** [x ? x : d] on a property that may be undefined. *)
Definition orElse (x : option string) (d : string) : string :=
  match x with
  | Some s => if truthy s then s else d
  | None => d
  end.

(** A template literal's ["${s}"]. *)
Definition quoted (s : string) : string :=
  String (ascii_of_nat 34) s ++ String (ascii_of_nat 34) EmptyString.

Definition isSlash (c : ascii) : bool := Ascii.eqb c "/".

Fixpoint skipWhile {A} (p : A -> bool) (l : list A) : list A :=
  match l with
  | [] => []
  | x :: r => if p x then skipWhile p r else l
  end.

Fixpoint keepWhile {A} (p : A -> bool) (l : list A) : list A :=
  match l with
  | [] => []
  | x :: r => if p x then x :: keepWhile p r else []
  end.

(** [s.split(sep)] for a one-character separator. *)
Fixpoint splitOn (sep : ascii) (s : string) : list string :=
  match s with
  | EmptyString => [EmptyString]
  | String c r =>
      if Ascii.eqb c sep then EmptyString :: splitOn sep r
      else match splitOn sep r with
           | seg :: rest => String c seg :: rest
           | [] => [String c EmptyString]
           end
  end.

(** Cuts [s] at the first occurrence of [sep], when there is one. *)
Fixpoint cutAt (sep : ascii) (s : string) : string * option string :=
  match s with
  | EmptyString => (EmptyString, None)
  | String c r =>
      if Ascii.eqb c sep then (EmptyString, Some r)
      else let '(a, b) := cutAt sep r in (String c a, b)
  end.

(** ** Node's [path] module (POSIX flavour)

    [build.ts] uses [path.dirname], [path.join], [path.resolve] and
    [path.relative].  They are modelled after Node's implementation:
    [dirname] on characters, the others on the list of segments between
    slashes, which is what [normalizeString] computes. *)

Module Path.

Definition split (s : string) : list string := splitOn "/" s.

Definition unsplit (segs : list string) : string := String.concat "/" segs.

Definition isAbsolute (s : string) : bool :=
  match s with String c _ => isSlash c | EmptyString => false end.

Definition endsWithSlash (s : string) : bool :=
  match rev (chars s) with c :: _ => isSlash c | [] => false end.

(** One step of [normalizeString]: the stack holds the segments kept so
    far, last one first. *)
Definition pushSeg (allowAboveRoot : bool) (stack : list string) (seg : string)
  : list string :=
  if bool_decide (seg = EmptyString ∨ seg = ".") then stack
  else if bool_decide (seg = "..") then
    match stack with
    | top :: rest =>
        if bool_decide (top = "..")
        then (if allowAboveRoot then ".." :: stack else stack)
        else rest
    | [] => if allowAboveRoot then [".."] else []
    end
  else seg :: stack.

Definition normSegs (allowAboveRoot : bool) (segs : list string) : list string :=
  rev (fold_left (pushSeg allowAboveRoot) segs []).

Definition normalize (p : string) : string :=
  if truthy p then
    let abs := isAbsolute p in
    let trailing := endsWithSlash p in
    let body := unsplit (normSegs (negb abs) (split p)) in
    if truthy body then
      (if abs then "/" else EmptyString) ++ body ++ (if trailing then "/" else EmptyString)
    else if abs then "/" else if trailing then "./" else "."
  else ".".

Definition join (args : list string) : string :=
  match filter (λ a, truthy a = true) args with
  | [] => "."
  | parts => normalize (unsplit parts)
  end.

Definition dirname (p : string) : string :=
  match chars p with
  | [] => "."
  | c0 :: tl =>
      let afterSlashes := skipWhile isSlash (rev tl) in
      let afterBase := skipWhile (λ c, negb (isSlash c)) afterSlashes in
      match afterBase with
      | [] => if isSlash c0 then "/" else "."
      | _ :: before =>
          match before with
          | [] => if isSlash c0 then "//" else unchars [c0]
          | _ => unchars (c0 :: rev before)
          end
      end
  end.

(** Canonical absolute paths: the segments below the root.  This is how
    the file system itself identifies a file, whatever string named it. *)
Definition canon (cwd : list string) (p : string) : list string :=
  if isAbsolute p then normSegs false (split p)
  else normSegs false (cwd ++ split p).

Definition ofCanon (segs : list string) : string := "/" ++ unsplit segs.

Definition resolveCanon (cwd : list string) (args : list string) : list string :=
  fold_left canon args cwd.

Definition resolve (cwd : list string) (args : list string) : string :=
  ofCanon (resolveCanon cwd args).

Fixpoint stripCommon (a b : list string) : list string * list string :=
  match a, b with
  | x :: a', y :: b' => if bool_decide (x = y) then stripCommon a' b' else (a, b)
  | _, _ => (a, b)
  end.

Definition relative (cwd : list string) (from to : string) : string :=
  let '(up, down) := stripCommon (canon cwd from) (canon cwd to) in
  unsplit (replicate (length up) ".." ++ down).

(** [basename(p)] without an extension to cut: the last component, the
    slashes that end the path left aside. *)
Definition basename (p : string) : string :=
  let afterSlashes := skipWhile isSlash (rev (chars p)) in
  unchars (rev (keepWhile (λ c, negb (isSlash c)) afterSlashes)).

End Path.

(** ** The [semver] package: [gte] and [gt]

    Strict parsing with the package's grammar
    [v?MAJOR.MINOR.PATCH(-PRERELEASE)?(+BUILD)?], and its precedence order.
    Prerelease identifiers made of digits only are numbers of any size
    here; the package keeps those above 2^53 as floating-point numbers. *)

Module SemVer.

Inductive ident : Type :=
| Num (n : N)
| Alpha (s : string).

Record t : Type := mk {
  major : N;
  minor : N;
  patch : N;
  prerelease : list ident;
  build : list string
}.

Definition MAX_LENGTH : nat := 256.
Definition MAX_SAFE_INTEGER : N := 9007199254740991.

Definition inRange (lo hi : N) (c : ascii) : bool :=
  let n := N_of_ascii c in ((lo <=? n) && (n <=? hi))%N.

Definition isDigit (c : ascii) : bool := inRange 48 57 c.
Definition isIdChar (c : ascii) : bool :=
  isDigit c || inRange 65 90 c || inRange 97 122 c || Ascii.eqb c "-".
Definition isSpace (c : ascii) : bool :=
  inRange 9 13 c || Ascii.eqb c " ".

Definition trim (s : string) : string :=
  unchars (rev (skipWhile isSpace (rev (skipWhile isSpace (chars s))))).

Definition digitsValue (l : list ascii) : N :=
  fold_left (λ acc c, acc * 10 + (N_of_ascii c - 48))%N l 0%N.

(** [0|[1-9]\d*] *)
Definition numericIdentifier (s : string) : option N :=
  match chars s with
  | [] => None
  | c :: r =>
      if forallb isDigit (c :: r)
         && (negb (Ascii.eqb c "0") || bool_decide (r = []))
      then Some (digitsValue (c :: r))
      else None
  end.

Definition prereleaseIdentifier (s : string) : option ident :=
  match chars s with
  | [] => None
  | l =>
      if forallb isDigit l then Num <$> numericIdentifier s
      else if forallb isIdChar l then Some (Alpha s)
      else None
  end.

Definition buildIdentifier (s : string) : option string :=
  match chars s with
  | [] => None
  | l => if forallb isIdChar l then Some s else None
  end.

Definition mainNumber (s : string) : option N :=
  n ← numericIdentifier s;
  if (n <=? MAX_SAFE_INTEGER)%N then Some n else None.

(** [new SemVer(version)]: [None] is the [TypeError] it throws. *)
Definition parse (raw : string) : option t :=
  if (MAX_LENGTH <? String.length raw)%nat then None
  else
    let v := trim raw in
    let v := match v with String "v" r => r | _ => v end in
    let '(mainpre, bld) := cutAt "+" v in
    let '(main, pre) := cutAt "-" mainpre in
    match splitOn "." main with
    | [a; b; c] =>
        ma ← mainNumber a;
        mi ← mainNumber b;
        pa ← mainNumber c;
        pre' ← match pre with
               | None => Some []
               | Some p => mapM prereleaseIdentifier (splitOn "." p)
               end;
        bld' ← match bld with
               | None => Some []
               | Some b => mapM buildIdentifier (splitOn "." b)
               end;
        Some (mk ma mi pa pre' bld')
    | _ => None
    end.

Definition thenCmp (c1 c2 : comparison) : comparison :=
  match c1 with Eq => c2 | _ => c1 end.

Definition compareIdentifiers (a b : ident) : comparison :=
  match a, b with
  | Num x, Num y => (x ?= y)%N
  | Num _, Alpha _ => Lt
  | Alpha _, Num _ => Gt
  | Alpha x, Alpha y => String.compare x y
  end.

Fixpoint compareIdents (a b : list ident) : comparison :=
  match a, b with
  | [], [] => Eq
  | _ :: _, [] => Gt
  | [], _ :: _ => Lt
  | x :: a', y :: b' => thenCmp (compareIdentifiers x y) (compareIdents a' b')
  end.

Definition compareMain (a b : t) : comparison :=
  thenCmp (major a ?= major b)%N
    (thenCmp (minor a ?= minor b)%N (patch a ?= patch b)%N).

Definition comparePre (a b : t) : comparison :=
  match prerelease a, prerelease b with
  | _ :: _, [] => Lt
  | [], _ :: _ => Gt
  | [], [] => Eq
  | pa, pb => compareIdents pa pb
  end.

Definition compare (a b : t) : comparison :=
  thenCmp (compareMain a b) (comparePre a b).

(** [gte(a, b)] and [gt(a, b)] on version strings; [None] when either
    string is not a version. *)
Definition gte (a b : string) : option bool :=
  x ← parse a; y ← parse b;
  Some (match compare x y with Lt => false | _ => true end).

Definition gt (a b : string) : option bool :=
  x ← parse a; y ← parse b;
  Some (match compare x y with Gt => true | _ => false end).

End SemVer.

(** ** Data model *)

(** The file system maps the canonical path of a file to its content.
    Directories are not recorded. *)
Abbreviation FS := (gmap (list string) string).

(** A file of a file set: a reference to a file on disk, which always
    holds an absolute normalised path in [build.ts] and is kept here as
    the canonical path, or inline content. *)
Inductive File : Type :=
| FileFsRef (fsPath : list string)
| FileBlob (data : string).

Abbreviation FileSet := (gmap string File).

Module Lambda.
Record t : Type := mk {
  zipBuffer : gmap string string;
  handler : string;
  runtime : string;
  environment : list (string * string);
  maxDuration : option N;
  memory : option N
}.
End Lambda.

Inductive OutputEntry : Type :=
| OutLambda (l : Lambda.t)
| OutFile (f : File).

(** A route object of [@vercel/routing-utils]; absent properties are
    [None] (or the empty header list). *)
Record Route : Type := mkRoute {
  src : option string;
  dest : option string;
  headers : list (string * string);
  handle : option string
}.

Record BuilderOutput : Type := mkBuilderOutput {
  output : gmap string OutputEntry;
  routes : list Route
}.

(** [includeFiles?: string[] | string]. *)
Inductive IncludeFiles : Type :=
| IncludeUndefined
| IncludeString (s : string)
| IncludeArray (l : list string).

Module NuxtBuilderConfig.
Record t : Type := mk {
  maxDuration : option N;
  memory : option N;
  tscOptions : option string;
  generateStaticRoutes : bool;
  includeFiles : IncludeFiles;
  serverFiles : option (list string);
  internalServer : option bool;
  app : option string;
  buildFiles : option (list string)
}.
End NuxtBuilderConfig.

Record Meta : Type := mkMeta { isDev : bool }.

Record BuildOptions : Type := mkBuildOptions {
  files : FileSet;
  entrypoint : string;
  workPath : string;
  config : NuxtBuilderConfig.t;
  meta : Meta
}.

(** [process.env] and [__dirname]. *)
Record Process : Type := mkProcess {
  env : gmap string string;
  dirname__ : string
}.

Record MutablePackageJson : Type := mkPackageJson {
  name : option string;
  scripts : option (gmap string string);
  dependencies : option (gmap string string);
  devDependencies : option (gmap string string)
}.

(** What [nuxt.config.js] exports, as far as [build.ts] reads it. *)
Module NuxtConfig.
Record t : Type := mk {
  dir_static : option string;
  build_publicPath : option string;
  buildDir : option string;
  srcDir : option string;
  lambdaName : option string;
  serverMiddleware : bool
}.
End NuxtConfig.

Record NuxtDep : Type := mkNuxtDep { suffix : string; version : string }.
Record NodeVersion : Type := mkNodeVersion { nodeRuntime : string }.
Record SpawnOptions : Type := mkSpawnOptions { spawnEnv : gmap string string }.

(** The two passes of the dependency installer; the tag repeats the
    [--production=] flag of the call. *)
Inductive InstallPass : Type := DevPass | ProdPass.

(** One event per effectful call of [build.ts], with the arguments as the
    source writes them. *)
Inductive Event : Type :=
| EvStartStep (step : string)
| EvEndStep
| EvDownload (dir : string)
| EvChdir (dir : string)
| EvCopyBuildFiles
| EvReadJSON (file : string)
| EvPrepareTypescript
| EvWriteFile (file : string) (data : string)
| EvCopyFile (from to : string)
| EvUnlink (file : string)
| EvMkdirp (dir : string)
| EvPrepareNodeModules (namespaceDir : string)
| EvInstallBegin (pass : InstallPass) (args : list string)
| EvInstallEnd (pass : InstallPass)
| EvRunScript (script : string)
| EvCompileTypescript
| EvExec (cmd : string) (args : list string)
| EvPrune
| EvGlob (pattern dir : string)
| EvReadFile (file : string)
| EvCreateLambda.

Inductive BuildError : Type :=
| InvalidEntrypoint (entry : string)
| ManifestNotFound (dir : string)
| UnsupportedFrameworkVersion (detected : string)
| InvalidVersion (detected : string)
| FrameworkNotResolvable (request : string)
| GlobBasePath (dir : string)
| NoSuchFile (op : string) (file : list string)
| CollaboratorFailure (who : string).

Record World : Type := mkWorld {
  fs : FS;
  cwd : list string;
  trace : list Event;
  warnings : list string
}.

Definition initialWorld (disk : FS) (dir : list string) : World :=
  mkWorld disk dir [] [].

Definition setFs (disk : FS) (w : World) : World :=
  mkWorld disk (cwd w) (trace w) (warnings w).
Definition setCwd (dir : list string) (w : World) : World :=
  mkWorld (fs w) dir (trace w) (warnings w).
Definition addEvent (e : Event) (w : World) : World :=
  mkWorld (fs w) (cwd w) (trace w ++ [e]) (warnings w).
Definition addWarning (msg : string) (w : World) : World :=
  mkWorld (fs w) (cwd w) (trace w) (warnings w ++ [msg]).

(** ** The monad of the pipeline: state and exceptions

    An [await]ed call either returns or throws; a throw aborts the
    pipeline and keeps the world as it was left. *)

Definition M (A : Type) : Type := World → World * (BuildError + A).

Definition ret {A} (a : A) : M A := λ w, (w, inr a).
Definition throw {A} (e : BuildError) : M A := λ w, (w, inl e).
Definition bind {A B} (m : M A) (k : A → M B) : M B :=
  λ w, match m w with
       | (w1, inr a) => k a w1
       | (w1, inl e) => (w1, inl e)
       end.

#[global] Instance M_ret : MRet M := @ret.
#[global] Instance M_bind : MBind M := λ A B k m, bind m k.

Definition gets {A} (f : World → A) : M A := λ w, (w, inr (f w)).
Definition modify (f : World → World) : M unit := λ w, (f w, inr tt).
Definition orThrow {A} (x : option A) (e : BuildError) : M A :=
  match x with Some a => ret a | None => throw e end.

Definition emit (e : Event) : M unit := modify (addEvent e).
Definition warn (msg : string) : M unit := modify (addWarning msg).

(** A call into a collaborator that may rewrite the workspace. *)
Definition call {A} (who : string) (f : list string → FS → option (A * FS)) : M A :=
  dir ← gets cwd;
  disk ← gets fs;
  '(a, disk') ← orThrow (f dir disk) (CollaboratorFailure who);
  _ ← modify (setFs disk');
  ret a.

Definition when (b : bool) (m : M unit) : M unit := if b then m else ret tt.

(** *** [process] and [fs-extra] *)

(** The canonical path a file name denotes in the current directory. *)
Definition locate (file : string) : M (list string) :=
  gets (λ w, Path.canon (cwd w) file).

Definition chdir (dir : string) : M unit :=
  _ ← emit (EvChdir dir);
  p ← locate dir;
  modify (setCwd p).

Definition existsSync (file : string) : M bool :=
  p ← locate file;
  disk ← gets fs;
  ret (bool_decide (is_Some (disk !! p))).

Definition readFile (file : string) : M string :=
  _ ← emit (EvReadFile file);
  p ← locate file;
  disk ← gets fs;
  orThrow (disk !! p) (NoSuchFile "readFile" p).

Definition writeFile (file data : string) : M unit :=
  _ ← emit (EvWriteFile file data);
  p ← locate file;
  disk ← gets fs;
  modify (setFs (<[p := data]> disk)).

Definition copyFile (from to : string) : M unit :=
  _ ← emit (EvCopyFile from to);
  p ← locate from;
  q ← locate to;
  disk ← gets fs;
  data ← orThrow (disk !! p) (NoSuchFile "copyFile" p);
  modify (setFs (<[q := data]> disk)).

Definition unlink (file : string) : M unit :=
  _ ← emit (EvUnlink file);
  p ← locate file;
  disk ← gets fs;
  _ ← orThrow (disk !! p) (NoSuchFile "unlink" p);
  modify (setFs (delete p disk)).

Definition mkdirp (dir : string) : M unit := emit (EvMkdirp dir).

Definition catch {A} (m : M A) (h : BuildError → M A) : M A :=
  λ w, match m w with
       | (w1, inl e) => h e w1
       | r => r
       end.

(** ** Collaborators

    Everything [build.ts] imports: [@vercel/build-utils], [resolve-from],
    and the helpers of [./utils] and [./typescript], whose sources are not
    part of the development.  A collaborator sees the working directory
    and the file system, may rewrite the file system, and may throw
    ([None]). *)

Record Collaborators : Type := mkCollaborators {
  validateEntrypoint : string → bool;
  download : FileSet → string → Meta → list string → FS → option FS;
  copyBuildFiles : list string → string → string → list string → FS → option FS;
  parseJSON : string → option MutablePackageJson;
  stringifyJSON : MutablePackageJson → string;
  getNodeVersion : string → Meta → list string → FS → option NodeVersion;
  getSpawnOptions : Meta → NodeVersion → SpawnOptions;
  getNuxtConfigName : string → list string → FS → option string;
  prepareTypescriptEnvironment :
    MutablePackageJson → SpawnOptions → string →
    list string → FS → option (MutablePackageJson * FS);
  prepareNodeModules : string → string → list string → FS → option FS;
  runNpmInstall :
    string → list string → SpawnOptions → Meta → list string → FS → option FS;
  runPackageJsonScript :
    string → string → SpawnOptions → list string → FS → option FS;
  compileTypescriptBuildFiles :
    string → string → string → SpawnOptions → option string →
    list string → FS → option (FileSet * FS);
  getNuxtConfig : string → string → list string → FS → option NuxtConfig.t;
  exec : string → list string → SpawnOptions → list string → FS → option FS;
  preparePkgForProd : MutablePackageJson → option (MutablePackageJson * NuxtDep);
  requireVersion : string → string → list string → FS → option string;
  globMatch : string → string → bool;
  keyBefore : string → string → bool;
  prependPrefix : string → string → string;
  renderLauncher : string → string → string → bool → string;
  nodeBridge : string
}.

(** A collaborator that only rewrites the file system. *)
Definition effect (f : list string → FS → option FS)
  : list string → FS → option (unit * FS) :=
  λ dir disk, pair tt <$> f dir disk.

(** A collaborator that only reads. *)
Definition query {A} (f : list string → FS → option A)
  : list string → FS → option (A * FS) :=
  λ dir disk, (λ a, (a, disk)) <$> f dir disk.

(** ** Pure pieces of [build] *)

Record Paths : Type := mkPaths {
  entrypointDir : string;
  entrypointPath : string;
  rootPath : string;
  modulesPath : string
}.

(** build.ts, lines 46-60. *)
Definition resolvePaths (workPath entrypoint : string) : Paths :=
  let entrypointDir := Path.dirname entrypoint in
  let entrypointPath := Path.join [workPath; entrypointDir] in
  let rootPath := workPath in
  let modulesPath := Path.join [entrypointPath; "node_modules"] in
  mkPaths entrypointDir entrypointPath rootPath modulesPath.

(** [Object.keys(o).includes(k)] guarded by [o &&]. *)
Definition hasKey (o : option (gmap string string)) (k : string) : bool :=
  match o with
  | Some m => bool_decide (is_Some (m !! k))
  | None => false
  end.

(** build.ts, line 90. *)
Definition usesTypescript (pkg : MutablePackageJson) : bool :=
  hasKey (devDependencies pkg) "@nuxt/typescript-build"
  || hasKey (dependencies pkg) "@nuxt/typescript".

(** [s.replace(/^\//, '')]. *)
Definition stripLeadingSlash (s : string) : string :=
  match s with
  | String c r => if isSlash c then r else s
  | EmptyString => s
  end.

Definition cacheControl : list (string * string) :=
  [("Cache-Control", "max-age=31557600")].

Definition cacheRule (pattern : string) : Route :=
  mkRoute (Some pattern) None cacheControl None.

Definition filesystemDirective : Route :=
  mkRoute None None [] (Some "filesystem").

Definition catchAllRule : Route :=
  mkRoute (Some "/(.*)") (Some "/index") [] None.

(** The keys of a finite map, each once, in the map's own order. *)
Definition keys {A} (m : gmap string A) : list string := (map_to_list m).*1.

Fixpoint insertKey (before : string → string → bool) (k : string)
    (l : list string) : list string :=
  match l with
  | [] => [k]
  | x :: r => if before k x then k :: l else x :: insertKey before k r
  end.

Definition sortKeys (before : string → string → bool) (l : list string)
  : list string :=
  foldr (insertKey before) [] l.

(** [Object.keys(o)] of a file set that [glob] built.  JavaScript lists
    the keys in the order they were inserted, and [glob] inserts its
    matches in the order its file walker sorted them: the keys of the
    map, put in the order of [keyBefore]. *)
Definition objectKeys (X : Collaborators) (o : FileSet) : list string :=
  sortKeys (keyBefore X) (keys o).

(** build.ts, lines 331-336. *)
Definition synthRoutes (X : Collaborators) (publicPath : string)
    (staticFiles : FileSet) : list Route :=
  [cacheRule ("/" ++ publicPath ++ ".+")]
  ++ map (λ file, cacheRule ("/" ++ file)) (objectKeys X staticFiles)
  ++ [filesystemDirective; catchAllRule].

(** build.ts, lines 296-300. *)
Definition serverFilesOf (config : NuxtBuilderConfig.t) : list string :=
  match NuxtBuilderConfig.includeFiles config with
  | IncludeArray l => l
  | IncludeString s => if truthy s then [s] else []
  | IncludeUndefined => []
  end
  ++ default [] (NuxtBuilderConfig.serverFiles config)
  ++ ["package.json"].

(** ** Globbing and packaging *)

Definition validSegment (s : string) : bool :=
  truthy s && forallb (λ c, negb (isSlash c)) (chars s).

Fixpoint stripPrefix (dir p : list string) : option (list string) :=
  match dir, p with
  | [], _ => Some p
  | d :: dir', x :: p' => if bool_decide (d = x) then stripPrefix dir' p' else None
  | _ :: _, [] => None
  end.

Section Pipeline.

Variable X : Collaborators.
Variable proc : Process.

(** The entry of a file for [glob(pattern, dir)]: its path relative to
    [dir], when the file lies below [dir] and the pattern matches. *)
Definition globEntry (pattern : string) (dir : list string)
    (file : list string * string) : option (string * File) :=
  rel ← stripPrefix dir file.1;
  if bool_decide (rel ≠ []) && forallb validSegment rel
     && globMatch X pattern (Path.unsplit rel)
  then Some (Path.unsplit rel, FileFsRef file.1)
  else None.

Definition globFiles (pattern : string) (dir : list string) (disk : FS) : FileSet :=
  list_to_map (omap (globEntry pattern dir) (map_to_list disk)).

(** [glob(pattern, dir)] of [@vercel/build-utils]: the base path must be
    absolute. *)
Definition glob (pattern dir : string) : M FileSet :=
  _ ← emit (EvGlob pattern dir);
  if Path.isAbsolute dir
  then disk ← gets fs; ret (globFiles pattern (Path.canon [] dir) disk)
  else throw (GlobBasePath dir).

Definition renameFiles (prefix : string) (found : FileSet) : FileSet :=
  list_to_map (map (λ kf, (prependPrefix X prefix kf.1, kf.2)) (map_to_list found)).

(** Modelled from the spec: [globAndPrefix] of [./utils], which globs
    [dir] for [pattern] and rewrites every matched logical path by
    prepending the prefix. *)
Definition globAndPrefix (pattern dir prefix : string) : M FileSet :=
  found ← glob pattern dir;
  ret (renameFiles prefix found).

Definition fileContent (disk : FS) (f : File) : option string :=
  match f with
  | FileFsRef p => disk !! p
  | FileBlob data => Some data
  end.

(** The archive of a file set: every file with its content at the time
    of packaging; a file that cannot be read fails the packaging. *)
Definition createZip (members : FileSet) (disk : FS) : option (gmap string string) :=
  if bool_decide (map_Forall (λ _ f, is_Some (fileContent disk f)) members)
  then Some (omap (fileContent disk) members)
  else None.

Definition createLambda (members : FileSet) (handler runtime : string)
    (environment : list (string * string)) (maxDuration memory : option N)
  : M Lambda.t :=
  _ ← emit EvCreateLambda;
  disk ← gets fs;
  zipBuffer ← orThrow (createZip members disk) (CollaboratorFailure "createLambda");
  ret (Lambda.mk zipBuffer handler runtime environment maxDuration memory).

(** Modelled from the spec: [readJSON] of [./utils], which fails when
    the file is absent or cannot be parsed. *)
Definition readJSON (file : string) : M MutablePackageJson :=
  _ ← emit (EvReadJSON file);
  p ← locate file;
  disk ← gets fs;
  data ← orThrow (disk !! p) (NoSuchFile "readJSON" p);
  orThrow (parseJSON X data) (CollaboratorFailure "JSON.parse").

Definition writeJSON (file : string) (pkg : MutablePackageJson) : M unit :=
  writeFile file (stringifyJSON X pkg).

Definition startStep (step : string) : M unit := emit (EvStartStep step).
Definition endStep : M unit := emit EvEndStep.

End Pipeline.

(** ** The stages of [build]

    [build] is one function in the source, cut by its own comments and
    [startStep] calls into stages; each stage below is the text of the
    source between two cuts, with the local constants it hands on. *)

Record Prepared : Type := mkPrepared {
  pkg : MutablePackageJson;
  nodeVersion : NodeVersion;
  spawnOpts : SpawnOptions;
  needsTypescriptBuild : bool;
  yarnCachePath : string
}.

Record NuxtBuild : Type := mkNuxtBuild {
  compiledTypescriptFiles : FileSet;
  nuxtConfigName : string;
  staticDir : string;
  publicPath : string;
  buildDir : string;
  srcDir : string;
  lambdaName : string;
  usesServerMiddleware : bool
}.

Definition withEnv (k v : string) (o : SpawnOptions) : SpawnOptions :=
  mkSpawnOptions (<[k := v]> (spawnEnv o)).

Section Build.

Variable X : Collaborators.
Variable proc : Process.

Definition NPM_AUTH_TOKEN : option string := env proc !! "NPM_AUTH_TOKEN".

(** [if (process.env.NPM_AUTH_TOKEN)]. *)
Definition hasToken : bool := truthy (default EmptyString NPM_AUTH_TOKEN).

(** The line written to [.npmrc] (build.ts, line 103). *)
Definition npmrcLine : string :=
  "//registry.npmjs.org/:_authToken=" ++ default EmptyString NPM_AUTH_TOKEN.

(** build.ts, lines 36-75: validate the entrypoint, download the input
    files and enter the entry directory. *)
Definition prepareWorkspace (opts : BuildOptions) (paths : Paths) : M unit :=
  _ ← startStep "Prepare build";
  _ ← (if validateEntrypoint X (entrypoint opts) then ret tt
       else throw (InvalidEntrypoint (entrypoint opts)));
  _ ← emit (EvDownload (workPath opts));
  _ ← call "download"
        (effect (download X (files opts) (workPath opts) (meta opts)));
  _ ← chdir (rootPath paths);
  _ ← match NuxtBuilderConfig.buildFiles (config opts) with
      | Some buildFiles =>
          _ ← emit EvCopyBuildFiles;
          call "copyBuildFiles"
            (effect (copyBuildFiles X buildFiles (rootPath paths) (entrypointPath paths)))
      | None => ret tt
      end;
  chdir (entrypointPath paths).

(** build.ts, lines 77-83. *)
Definition readManifest (paths : Paths) : M MutablePackageJson :=
  catch (readJSON X "package.json")
        (λ _, throw (ManifestNotFound (entrypointPath paths))).

(** build.ts, lines 85-116. *)
Definition prepareEnvironment (opts : BuildOptions) (paths : Paths)
    (pkg0 : MutablePackageJson) : M Prepared :=
  nodeVersion ← call "getNodeVersion"
                  (query (getNodeVersion X (entrypointPath paths) (meta opts)));
  let spawnOpts := getSpawnOptions X (meta opts) nodeVersion in
  configName ← call "getNuxtConfigName"
                 (query (λ dir disk, Some (getNuxtConfigName X (entrypointPath paths) dir disk)));
  let needsTypescriptBuild := bool_decide (configName = Some "nuxt.config.ts") in
  pkg ← (if usesTypescript pkg0
         then _ ← emit EvPrepareTypescript;
              call "prepareTypescriptEnvironment"
                (prepareTypescriptEnvironment X pkg0 spawnOpts (entrypointPath paths))
         else ret pkg0);
  _ ← when hasToken (writeFile ".npmrc" npmrcLine);
  yarnclean ← existsSync "../.yarnclean";
  _ ← when (negb yarnclean)
        (copyFile (Path.join [dirname__ proc; "../.yarnclean"]) ".yarnclean");
  cwd0 ← gets cwd;
  let cachePath := Path.resolve cwd0 [entrypointPath paths; ".vercel_cache"] in
  _ ← mkdirp cachePath;
  let yarnCachePath := Path.join [cachePath; "yarn"] in
  _ ← mkdirp yarnCachePath;
  ret (mkPrepared pkg nodeVersion spawnOpts needsTypescriptBuild yarnCachePath).

(** The installer, announced before it runs and after it has returned. *)
Definition install (pass : InstallPass) (dir : string) (args : list string)
    (o : SpawnOptions) (m : Meta) : M unit :=
  _ ← emit (EvInstallBegin pass args);
  _ ← call "runNpmInstall" (effect (runNpmInstall X dir args o m));
  emit (EvInstallEnd pass).

Definition namespaceModules (dir namespaceDir : string) : M unit :=
  _ ← emit (EvPrepareNodeModules namespaceDir);
  call "prepareNodeModules" (effect (prepareNodeModules X dir namespaceDir)).

(** build.ts, lines 118-132. *)
Definition installDevDependencies (opts : BuildOptions) (paths : Paths)
    (prep : Prepared) : M unit :=
  _ ← startStep "Install devDependencies";
  _ ← namespaceModules (entrypointPath paths) "node_modules_dev";
  install DevPass (entrypointPath paths)
    [ "--prefer-offline"; "--frozen-lockfile"; "--non-interactive";
      "--production=false";
      "--modules-folder=" ++ modulesPath paths;
      "--cache-folder=" ++ yarnCachePath prep ]
    (withEnv "NODE_ENV" "development" (spawnOpts prep)) (meta opts).

(** build.ts, lines 134-138. *)
Definition preBuild (paths : Paths) (prep : Prepared) : M unit :=
  when (hasKey (scripts (pkg prep)) "now-build")
    (_ ← startStep "Pre build";
     _ ← emit (EvRunScript "now-build");
     call "runPackageJsonScript"
       (effect (runPackageJsonScript X (entrypointPath paths) "now-build" (spawnOpts prep)))).

Definition nuxt (args : list string) (o : SpawnOptions) : M unit :=
  _ ← emit (EvExec "nuxt" args);
  call "exec" (effect (exec X "nuxt" args o)).

(** build.ts, lines 140-200. *)
Definition nuxtBuild (opts : BuildOptions) (paths : Paths) (prep : Prepared)
  : M NuxtBuild :=
  _ ← startStep "Nuxt build";
  compiledTypescriptFiles ←
    (if needsTypescriptBuild prep
     then _ ← emit EvCompileTypescript;
          call "compileTypescriptBuildFiles"
            (compileTypescriptBuildFiles X (rootPath paths) (entrypointPath paths)
               (entrypointDir paths) (spawnOpts prep)
               (NuxtBuilderConfig.tscOptions (config opts)))
     else ret ∅);
  let nuxtConfigName := "nuxt.config.js" in
  nuxtConfigFile ← call "getNuxtConfig"
                     (query (getNuxtConfig X (entrypointPath paths) nuxtConfigName));
  cwd0 ← gets cwd;
  let staticDir := orElse (NuxtConfig.dir_static nuxtConfigFile) "static" in
  let publicPath :=
    stripLeadingSlash (orElse (NuxtConfig.build_publicPath nuxtConfigFile) "/_nuxt/") in
  let buildDir :=
    match NuxtConfig.buildDir nuxtConfigFile with
    | Some d => if truthy d then Path.relative cwd0 (entrypointPath paths) d else ".nuxt"
    | None => ".nuxt"
    end in
  let srcDir :=
    match NuxtConfig.srcDir nuxtConfigFile with
    | Some d => if truthy d then Path.relative cwd0 (entrypointPath paths) d else "."
    | None => "."
    end in
  let lambdaName := orElse (NuxtConfig.lambdaName nuxtConfigFile) "index" in
  let usesServerMiddleware :=
    match NuxtBuilderConfig.internalServer (config opts) with
    | Some b => b
    | None => NuxtConfig.serverMiddleware nuxtConfigFile
    end in
  _ ← nuxt [ "build"; "--standalone"; "--no-lock";
             "--config-file " ++ quoted nuxtConfigName ] (spawnOpts prep);
  _ ← when (NuxtBuilderConfig.generateStaticRoutes (config opts))
        (nuxt [ "generate"; "--no-build"; "--no-lock";
                "--config-file " ++ quoted nuxtConfigName ] (spawnOpts prep));
  ret (mkNuxtBuild compiledTypescriptFiles nuxtConfigName staticDir publicPath
         buildDir srcDir lambdaName usesServerMiddleware).

(** build.ts, lines 229-236. *)
Definition validateNuxtVersion (detected : string) : M unit :=
  supported ← orThrow (SemVer.gte detected "2.4.0") (InvalidVersion detected);
  _ ← when (negb supported) (throw (UnsupportedFrameworkVersion detected));
  untested ← orThrow (SemVer.gt detected "3.0.0") (InvalidVersion detected);
  when untested (warn "WARNING: nuxt >= 3.0.0 is not tested against this builder!").

(** build.ts, lines 202-241. *)
Definition installDependencies (opts : BuildOptions) (paths : Paths)
    (prep : Prepared) : M NuxtDep :=
  _ ← startStep "Install dependencies";
  _ ← namespaceModules (entrypointPath paths) "node_modules_prod";
  _ ← emit EvPrune;
  '(pkg', nuxtDep) ← orThrow (preparePkgForProd X (pkg prep))
                       (CollaboratorFailure "preparePkgForProd");
  _ ← writeJSON X "package.json" pkg';
  _ ← install ProdPass (entrypointPath paths)
        [ "--prefer-offline"; "--pure-lockfile"; "--non-interactive";
          "--production=true";
          "--modules-folder=" ++ modulesPath paths;
          "--cache-folder=" ++ yarnCachePath prep ]
        (withEnv "NPM_ONLY_PRODUCTION" "true" (spawnOpts prep)) (meta opts);
  let request := "@nuxt/core" ++ suffix nuxtDep ++ "/package.json" in
  dir ← gets cwd;
  disk ← gets fs;
  detected ← orThrow (requireVersion X (entrypointPath paths) request dir disk)
               (FrameworkNotResolvable request);
  _ ← validateNuxtVersion detected;
  _ ← when hasToken (unlink ".npmrc");
  ret nuxtDep.

(** build.ts, lines 302-305: each pattern is globbed on its own and
    [Object.assign]ed over what is there. *)
Fixpoint mergeServerFiles (dir : string) (patterns : list string)
    (launcherFiles : FileSet) : M FileSet :=
  match patterns with
  | [] => ret launcherFiles
  | pattern :: rest =>
      found ← glob X pattern dir;
      mergeServerFiles dir rest (found ∪ launcherFiles)
  end.

(** build.ts, lines 275-318. *)
Definition packageLambda (opts : BuildOptions) (paths : Paths) (prep : Prepared)
    (nb : NuxtBuild) (nuxtDep : NuxtDep) (serverDistFiles nodeModules : FileSet)
  : M Lambda.t :=
  let launcherPath := Path.join [dirname__ proc; "launcher.js"] in
  template ← readFile launcherPath;
  let launcherSrc :=
    renderLauncher X template (suffix nuxtDep) ("./" ++ nuxtConfigName nb)
      (usesServerMiddleware nb) in
  cwd0 ← gets cwd;
  let launcherFiles : FileSet :=
    nodeModules ∪ (compiledTypescriptFiles nb ∪ (serverDistFiles ∪
      <[nuxtConfigName nb :=
          FileFsRef (Path.resolveCanon cwd0 [entrypointPath paths; nuxtConfigName nb])]>
        (<["vercel__bridge.js" := FileFsRef (Path.canon cwd0 (nodeBridge X))]>
           {["vercel__launcher.js" := FileBlob launcherSrc]}))) in
  merged ← mergeServerFiles (entrypointPath paths) (serverFilesOf (config opts))
             launcherFiles;
  createLambda merged "vercel__launcher.launcher" (nodeRuntime (nodeVersion prep))
    [("NODE_ENV", "production")]
    (NuxtBuilderConfig.maxDuration (config opts))
    (NuxtBuilderConfig.memory (config opts)).

(** The [output] object of the result: the spread of [lambdas], then of
    the client, static and generated files; a later spread wins. *)
Definition outputOf (lambdas : gmap string Lambda.t)
    (clientDistFiles staticFiles generatedPagesFiles : FileSet)
  : gmap string OutputEntry :=
  (OutFile <$> generatedPagesFiles) ∪ ((OutFile <$> staticFiles)
    ∪ ((OutFile <$> clientDistFiles) ∪ (OutLambda <$> lambdas))).

(** build.ts, lines 243-337. *)
Definition collectArtifacts (opts : BuildOptions) (paths : Paths) (prep : Prepared)
    (nb : NuxtBuild) (nuxtDep : NuxtDep) : M BuilderOutput :=
  _ ← startStep "Collect artifacts";
  staticFiles ← glob X "**" (Path.join [entrypointPath paths; srcDir nb; staticDir nb]);
  let clientDistDir := Path.join [entrypointPath paths; buildDir nb; "dist/client"] in
  clientDistFiles ← globAndPrefix X "**" clientDistDir (publicPath nb);
  let serverDistDir := Path.join [entrypointPath paths; buildDir nb; "dist/server"] in
  serverDistFiles ← globAndPrefix X "**" serverDistDir (Path.join [".nuxt"; "dist/server"]);
  let generatedDir := Path.join [entrypointPath paths; "dist"] in
  generatedPagesFiles ←
    (if NuxtBuilderConfig.generateStaticRoutes (config opts)
     then globAndPrefix X "**/*.*" generatedDir "./"
     else ret ∅);
  let nodeModulesDir := Path.join [entrypointPath paths; "node_modules_prod"] in
  nodeModules ← globAndPrefix X "**" nodeModulesDir "node_modules";
  lambda ← packageLambda opts paths prep nb nuxtDep serverDistFiles nodeModules;
  let lambdas : gmap string Lambda.t := {[ lambdaName nb := lambda ]} in
  _ ← endStep;
  ret (mkBuilderOutput
         (outputOf lambdas clientDistFiles staticFiles generatedPagesFiles)
         (synthRoutes X (publicPath nb) staticFiles)).

(** build.ts, lines 31-338. *)
Definition build (opts : BuildOptions) : M BuilderOutput :=
  let paths := resolvePaths (workPath opts) (entrypoint opts) in
  _ ← prepareWorkspace opts paths;
  pkg0 ← readManifest paths;
  prep ← prepareEnvironment opts paths pkg0;
  _ ← installDevDependencies opts paths prep;
  _ ← preBuild paths prep;
  nb ← nuxtBuild opts paths prep;
  nuxtDep ← installDependencies opts paths prep;
  collectArtifacts opts paths prep nb nuxtDep.

End Build.

(** ** The test harness: [test/utils/run-build-lambda.js]

    [runBuildLambda] empties a work directory, globs a fixture, reads the
    first build of its [vercel.test.json], and runs the builder that build
    names on it.  What it [require]s is a field of [Loader]. *)

(** One entry of [builds] in [vercel.test.json]. *)
Module BuildSpec.
Record t : Type := mk {
  src : string;
  use : string;
  config : NuxtBuilderConfig.t
}.
End BuildSpec.

Module NowJson.
Record t : Type := mk { builds : list BuildSpec.t }.
End NowJson.

(** A file of [inputFiles]; [digest] is the property the harness sets on
    the entrypoint. *)
Module InputFile.
Record t : Type := mk {
  file : File;
  digest : option string
}.
End InputFile.

Module AnalyzeContext.
Record t : Type := mk {
  files : gmap string InputFile.t;
  entrypoint : string;
  config : NuxtBuilderConfig.t
}.
End AnalyzeContext.

Module CacheOptions.
Record t : Type := mk {
  cachePath : string;
  workPath : string;
  entrypoint : string
}.
End CacheOptions.

(** What [require(build.use)] exports; [analyze] may be missing. *)
Module Wrapper.
Record t : Type := mk {
  analyze : option (AnalyzeContext.t → string);
  build : BuildOptions → M BuilderOutput;
  prepareCache : CacheOptions.t → M FileSet
}.
End Wrapper.

Module BuildLambdaResult.
Record t : Type := mk {
  analyzeResult : string;
  buildResult : BuilderOutput;
  cacheResult : FileSet
}.
End BuildLambdaResult.

Record Loader : Type := mkLoader {
  requireJSON : list string → FS → option NowJson.t;
  requireBuilder : string → option Wrapper.t
}.

(** What the harness throws: the [TypeError] of a property read or set
    on [undefined], a module that cannot be loaded, or what an awaited
    call threw. *)
Inductive HarnessError : Type :=
| TypeError (property : string)
| ModuleNotFound (request : string)
| Thrown (e : BuildError).

Definition HarnessM (A : Type) : Type := World → World * (HarnessError + A).

Definition hret {A} (a : A) : HarnessM A := λ w, (w, inr a).
Definition hbind {A B} (m : HarnessM A) (k : A → HarnessM B) : HarnessM B :=
  λ w, match m w with
       | (w1, inr a) => k a w1
       | (w1, inl e) => (w1, inl e)
       end.

(** An [await]ed call of the pipeline's monad. *)
Definition await {A} (m : M A) : HarnessM A :=
  λ w, match m w with
       | (w1, inr a) => (w1, inr a)
       | (w1, inl e) => (w1, inl (Thrown e))
       end.

Definition defined {A} (x : option A) (e : HarnessError) : HarnessM A :=
  match x with
  | Some a => hret a
  | None => λ w, (w, inl e)
  end.

(** [fs.remove(path)]: the file, or everything below the directory;
    nothing when there is no such path. *)
Definition removeTree (dir : list string) (disk : FS) : FS :=
  filter (λ kv, ¬ dir `prefix_of` kv.1) disk.

Definition remove (path : string) : M unit :=
  p ← locate path;
  disk ← gets fs;
  modify (setFs (removeTree p disk)).

(** run-build-lambda.js, lines 5-11. *)
Definition runAnalyze (wrapper : Wrapper.t) (context : AnalyzeContext.t) : string :=
  match Wrapper.analyze wrapper with
  | Some analyze => analyze context
  | None => "this-is-a-fake-analyze-result-from-default-analyze"
  end.

Definition testManifest : string := "apps/neu.app/vercel.test.json".

Definition fakeDigest : string := "this-is-a-fake-digest-for-non-default-analyze".

Section Harness.

Variable X : Collaborators.
Variable L : Loader.

(** [__dirname] of the harness. *)
Variable here : string.

#[local] Instance HarnessM_ret : MRet HarnessM := @hret.
#[local] Instance HarnessM_bind : MBind HarnessM := λ A B k m, hbind m k.

(** run-build-lambda.js, line 14. *)
Definition workPathOf (inputPath : string) : string :=
  Path.join [here; "../../.tmp"; Path.basename inputPath].

(** run-build-lambda.js, lines 13-59. *)
Definition runBuildLambda (inputPath : string) : HarnessM BuildLambdaResult.t :=
  let workPath := workPathOf inputPath in
  _ ← await (remove workPath);
  found ← await (glob X "**" inputPath);
  let inputFiles : gmap string InputFile.t := (λ f, InputFile.mk f None) <$> found in
  nowJsonRef ← defined (inputFiles !! testManifest) (TypeError "fsPath");
  disk ← await (gets fs);
  nowJson ← match InputFile.file nowJsonRef with
            | FileFsRef fsPath =>
                defined (requireJSON L fsPath disk) (ModuleNotFound (Path.ofCanon fsPath))
            | FileBlob _ => defined None (TypeError "id")
            end;
  build ← defined (NowJson.builds nowJson !! 0) (TypeError "src");
  let entrypoint := stripLeadingSlash (BuildSpec.src build) in
  target ← defined (inputFiles !! entrypoint) (TypeError "digest");
  let inputFiles :=
    <[entrypoint := InputFile.mk (InputFile.file target) (Some fakeDigest)]> inputFiles in
  wrapper ← defined (requireBuilder L (BuildSpec.use build))
              (ModuleNotFound (BuildSpec.use build));
  let analyzeResult :=
    runAnalyze wrapper
      (AnalyzeContext.mk inputFiles entrypoint (BuildSpec.config build)) in
  _ ← await (mkdirp workPath);
  buildResult ← await (Wrapper.build wrapper
                         (mkBuildOptions (InputFile.file <$> inputFiles) entrypoint
                            workPath (BuildSpec.config build) (mkMeta false)));
  cacheResult ← await (Wrapper.prepareCache wrapper
                         (CacheOptions.mk (Path.join [workPath; ".cache"]) workPath
                            entrypoint));
  mret (BuildLambdaResult.mk analyzeResult buildResult cacheResult).

End Harness.

(** ** The configuration of the TypeScript fixture

    [nuxt.config.ts] as far as [build.ts] reads what it exports:
    [buildDir] and [srcDir] are resolved from the directory of the file,
    and there is no [dir], [build.publicPath], [lambdaName] or
    [serverMiddleware]. *)
Definition typescriptNuxtConfig (cwd0 : list string) (dirname : string)
  : NuxtConfig.t :=
  NuxtConfig.mk None None
    (Some (Path.resolve cwd0 [dirname; ".nuxt"]))
    (Some dirname)
    None false.

(** ** A concrete project and concrete collaborators

    A small Nuxt project in [/work/apps/web] and collaborators that behave
    as the real ones do on it, to run the pipeline on. *)

Module Fixture.

Definition manifestText : string := "{web: nuxt, lodash; dev: eslint}".
Definition prunedText : string := "{web: nuxt}".

Definition manifest : MutablePackageJson :=
  mkPackageJson (Some "web") None
    (Some (<["nuxt" := "2.14.12"]> {["lodash" := "4.17.20"]}))
    (Some {["eslint" := "7.18.0"]}).

(** Modelled from the spec: [preparePkgForProd] of [./utils], the prune,
    which removes all dependencies except the core framework dependency
    and returns the variant suffix of the one that is declared. *)
Definition pruneManifest (p : MutablePackageJson)
  : option (MutablePackageJson * NuxtDep) :=
  let deps := default ∅ (dependencies p) in
  match deps !! "nuxt-edge", deps !! "nuxt" with
  | Some v, _ =>
      Some (mkPackageJson (name p) (scripts p) (Some {["nuxt-edge" := v]}) None,
            mkNuxtDep "-edge" v)
  | None, Some v =>
      Some (mkPackageJson (name p) (scripts p) (Some {["nuxt" := v]}) None,
            mkNuxtDep EmptyString v)
  | None, None => None
  end.

Definition pruned : MutablePackageJson :=
  mkPackageJson (Some "web") None (Some {["nuxt" := "2.14.12"]}) None.

Definition parse (s : string) : option MutablePackageJson :=
  if bool_decide (s = manifestText) then Some manifest
  else if bool_decide (s = prunedText) then Some pruned
  else None.

Definition stringify (p : MutablePackageJson) : string :=
  match dependencies p with
  | Some deps => if bool_decide (deps = {["nuxt" := "2.14.12"]}) then prunedText
                 else manifestText
  | None => manifestText
  end.

Definition basenameOk (e : string) : bool :=
  match last (Path.split e) with
  | Some b => bool_decide (b ∈ ["package.json"; "nuxt.config.js"; "nuxt.config.ts"])
  | None => false
  end.

Definition matches (pattern rel : string) : bool :=
  if negb (truthy pattern) then false
  else if bool_decide (pattern = "**") then true
  else if bool_decide (pattern = "**/*.*")
  then match last (Path.split rel) with
       | Some b => bool_decide ("."%char ∈ chars b)
       | None => false
       end
  else bool_decide (pattern = rel).

Definition installer (detected : string) (dir : string) (args : list string)
    (cwd0 : list string) (disk : FS) : option FS :=
  if bool_decide ("--production=true" ∈ args)
  then Some (<[(Path.canon cwd0 dir ++ ["node_modules_prod"; "@nuxt"; "core"; "package.json"])%list
               := detected]> disk)
  else Some (<[(Path.canon cwd0 dir ++ ["node_modules_dev"; "nuxt"; "package.json"])%list
               := detected]> disk).

Definition compiler (args : list string) (cwd0 : list string) (disk : FS) : option FS :=
  if bool_decide (args !! 0 = Some "generate")
  then Some (<[(cwd0 ++ ["dist"; "index.html"])%list := "<html>"]> disk)
  else Some (<[(cwd0 ++ [".nuxt"; "dist"; "client"; "app.js"])%list := "client"]>
               (<[(cwd0 ++ [".nuxt"; "dist"; "server"; "server.js"])%list := "server"]> disk)).

Definition collaborators (detected : string) (nuxtConfig : NuxtConfig.t)
  : Collaborators :=
  {| validateEntrypoint := basenameOk;
     download := λ _ _ _ _ disk, Some disk;
     copyBuildFiles := λ _ _ _ _ disk, Some disk;
     parseJSON := parse;
     stringifyJSON := stringify;
     getNodeVersion := λ _ _ _ _, Some (mkNodeVersion "nodejs12.x");
     getSpawnOptions := λ _ _, mkSpawnOptions ∅;
     getNuxtConfigName := λ _ _ _, Some "nuxt.config.js";
     prepareTypescriptEnvironment := λ p _ _ _ disk, Some (p, disk);
     prepareNodeModules := λ _ _ _ disk, Some disk;
     runNpmInstall := λ dir args _ _, installer detected dir args;
     runPackageJsonScript := λ _ _ _ _ disk, Some disk;
     compileTypescriptBuildFiles := λ _ _ _ _ _ _ disk, Some (∅, disk);
     getNuxtConfig := λ _ _ _ _, Some nuxtConfig;
     exec := λ _ args _, compiler args;
     preparePkgForProd := pruneManifest;
     requireVersion := λ dir request cwd0 disk,
       disk !! (Path.canon cwd0 dir ++ ["node_modules_prod"] ++ Path.split request)%list;
     globMatch := matches;
     keyBefore := String.leb;
     prependPrefix := λ prefix k, Path.join [prefix; k];
     renderLauncher := λ template sfx cfg internal,
       template ++ sfx ++ cfg ++ (if internal then "true" else "false");
     nodeBridge := "/builder/node_modules/@vercel/node-bridge/bridge.js" |}.

Definition defaultNuxtConfig : NuxtConfig.t :=
  NuxtConfig.mk None None None None None false.

Definition apiNuxtConfig : NuxtConfig.t :=
  NuxtConfig.mk None None None None (Some "api") false.

Definition disk : FS :=
  list_to_map
    [ (["builder"; "lib"; "launcher.js"], "launcher __NUXT_SUFFIX__");
      (["builder"; ".yarnclean"], "*.md");
      (["builder"; "node_modules"; "@vercel"; "node-bridge"; "bridge.js"], "bridge");
      (["work"; "apps"; "web"; "package.json"], manifestText);
      (["work"; "apps"; "web"; "nuxt.config.js"], "export default {}");
      (["work"; "apps"; "web"; "secrets.json"], "{}");
      (["work"; "apps"; "web"; "static"; "favicon.ico"], "icon") ].

Definition withToken (token : string) : Process :=
  mkProcess {["NPM_AUTH_TOKEN" := token]} "/builder/lib".

Definition noToken : Process := mkProcess ∅ "/builder/lib".

Definition defaultConfig : NuxtBuilderConfig.t :=
  NuxtBuilderConfig.mk None None None false IncludeUndefined None None None None.

Definition secretsConfig : NuxtBuilderConfig.t :=
  NuxtBuilderConfig.mk None None None false (IncludeArray ["secrets.json"; "missing.txt"])
    None None None None.

Definition options (cfg : NuxtBuilderConfig.t) : BuildOptions :=
  mkBuildOptions ∅ "apps/web/package.json" "/work" cfg (mkMeta false).

(** The default project, without a registry token. *)
Definition plainRun : World * (BuildError + BuilderOutput) :=
  build (collaborators "2.14.12" defaultNuxtConfig) noToken (options defaultConfig)
    (initialWorld disk []).

(** The same with a registry token in the environment. *)
Definition tokenRun : World * (BuildError + BuilderOutput) :=
  build (collaborators "2.14.12" defaultNuxtConfig) (withToken "s3cret")
    (options defaultConfig) (initialWorld disk []).

(** The token variable set to the empty string. *)
Definition emptyTokenRun : World * (BuildError + BuilderOutput) :=
  build (collaborators "2.14.12" defaultNuxtConfig) (withToken EmptyString)
    (options defaultConfig) (initialWorld disk []).

(** [lambdaName: "api"] in [nuxt.config.js]. *)
Definition apiRun : World * (BuildError + BuilderOutput) :=
  build (collaborators "2.14.12" apiNuxtConfig) noToken (options defaultConfig)
    (initialWorld disk []).

(** [includeFiles: ["secrets.json", "missing.txt"]]. *)
Definition secretsRun : World * (BuildError + BuilderOutput) :=
  build (collaborators "2.14.12" defaultNuxtConfig) noToken (options secretsConfig)
    (initialWorld disk []).

(** The installer resolves the framework at version 3.1.0. *)
Definition futureRun : World * (BuildError + BuilderOutput) :=
  build (collaborators "3.1.0" defaultNuxtConfig) noToken (options defaultConfig)
    (initialWorld disk []).

(** The installer resolves the framework at version 2.3.0. *)
Definition oldRun : World * (BuildError + BuilderOutput) :=
  build (collaborators "2.3.0" defaultNuxtConfig) (withToken "s3cret")
    (options defaultConfig) (initialWorld disk []).

(** The static directory holds a file named [index]. *)
Definition shadowDisk : FS :=
  <[["work"; "apps"; "web"; "static"; "index"] := "<html>"]> disk.

Definition shadowRun : World * (BuildError + BuilderOutput) :=
  build (collaborators "2.14.12" defaultNuxtConfig) noToken (options defaultConfig)
    (initialWorld shadowDisk []).

(** The project without its manifest. *)
Definition bareDisk : FS := delete ["work"; "apps"; "web"; "package.json"] disk.

Definition bareRun : World * (BuildError + BuilderOutput) :=
  build (collaborators "2.14.12" defaultNuxtConfig) noToken (options defaultConfig)
    (initialWorld bareDisk []).

End Fixture.

Local Open Scope list_scope.

(** ** Milestones of a run

    The events the ordering properties speak about: the registry-auth
    file being written and removed, the two installer passes starting
    and returning, and the manifest being rewritten. *)

Inductive Milestone : Type :=
| NpmrcWritten (data : string)
| DevInstallBegun
| DevInstallDone
| ManifestPruned
| ManifestRewritten
| ProdInstallBegun
| ProdInstallDone
| NpmrcRemoved.

#[global] Instance Milestone_eq_dec : EqDecision Milestone.
Proof. solve_decision. Defined.

Definition milestone (e : Event) : option Milestone :=
  match e with
  | EvWriteFile file data =>
      if bool_decide (file = ".npmrc") then Some (NpmrcWritten data)
      else if bool_decide (file = "package.json") then Some ManifestRewritten
      else None
  | EvUnlink file =>
      if bool_decide (file = ".npmrc") then Some NpmrcRemoved else None
  | EvPrune => Some ManifestPruned
  | EvInstallBegin DevPass _ => Some DevInstallBegun
  | EvInstallEnd DevPass => Some DevInstallDone
  | EvInstallBegin ProdPass _ => Some ProdInstallBegun
  | EvInstallEnd ProdPass => Some ProdInstallDone
  | _ => None
  end.

Definition milestones (tr : list Event) : list Milestone := omap milestone tr.

(** The milestones of a complete run, in order. *)
Definition expectedMilestones (token : bool) (line : string) : list Milestone :=
  ((if token then [NpmrcWritten line] else [])
   ++ [DevInstallBegun; DevInstallDone; ManifestPruned; ManifestRewritten;
       ProdInstallBegun; ProdInstallDone]
   ++ (if token then [NpmrcRemoved] else []))%list.

(** [m] passes the milestones [expected], in this order, when it returns,
    and some of them, in this order, when it throws. *)
Definition follows {A} (expected : list Milestone) (m : M A) : Prop :=
  ∀ w w' r, m w = (w', r) →
    ∃ ms, milestones (trace w') = (milestones (trace w) ++ ms)%list
          ∧ match r with
            | inr _ => ms = expected
            | inl _ => ms `prefix_of` expected
            end.

(** [m] leaves the component [f] of the world as it found it. *)
Definition preserves {A X} (f : World → X) (m : M A) : Prop :=
  ∀ w w' r, m w = (w', r) → f w' = f w.

(** In [tr], every event at milestone [q] comes after an event at
    milestone [p]. *)
Definition before (p q : Milestone) (tr : list Event) : Prop :=
  ∀ pre e post, tr = pre ++ e :: post → milestone e = Some q →
    ∃ e', e' ∈ pre ∧ milestone e' = Some p.

(** Some event of [tr] is at milestone [p]. *)
Definition reached (p : Milestone) (tr : list Event) : Prop :=
  ∃ e, e ∈ tr ∧ milestone e = Some p.

Definition slashFree (s : string) : bool :=
  forallb (λ c, negb (isSlash c)) (chars s).

(** A segment that [normalizeString] keeps as it is. *)
Definition plainSegment (s : string) : Prop :=
  s ≠ EmptyString ∧ s ≠ "." ∧ s ≠ "..".

(** The file set lines 302-305 leave behind: the globs of the patterns,
    each laid over what was there. *)
Definition mergedOver (X : Collaborators) (dir : list string) (disk : FS)
    (patterns : list string) (launcherFiles : FileSet) : FileSet :=
  fold_left (λ acc pattern, globFiles X pattern dir disk ∪ acc) patterns launcherFiles.

(** The patterns a configuration declares: [includeFiles], an array or
    one string, then [serverFiles]. *)
Definition declaredPatterns (config : NuxtBuilderConfig.t) : list string :=
  match NuxtBuilderConfig.includeFiles config with
  | IncludeArray l => l
  | IncludeString s => [s]
  | IncludeUndefined => []
  end
  ++ default [] (NuxtBuilderConfig.serverFiles config).

Definition isFunctionPackage (e : OutputEntry) : bool :=
  match e with OutLambda _ => true | OutFile _ => false end.

(** The logical paths of an output that hold a function package. *)
Definition functionPackages (o : gmap string OutputEntry) : list string :=
  keys (filter (λ ke, isFunctionPackage ke.2 = true) o).

(** Whether a run returned. *)
Definition isReturn {A} (r : BuildError + A) : bool :=
  match r with inr _ => true | inl _ => false end.

Definition minimumVersion : SemVer.t := SemVer.mk 2 4 0 [] [].
Definition testedCeiling : SemVer.t := SemVer.mk 3 0 0 [] [].

(** Below 2.4.0 in the order of semantic versioning, spelled out: a
    smaller triple, or the triple 2.4.0 itself with a prerelease tag. *)
Definition belowMinimum (v : SemVer.t) : Prop :=
  (SemVer.major v < 2)%N
  ∨ (SemVer.major v = 2 ∧ SemVer.minor v < 4)%N
  ∨ (SemVer.major v = 2%N ∧ SemVer.minor v = 4%N ∧ SemVer.patch v = 0%N
     ∧ SemVer.prerelease v ≠ []).

(** Above 3.0.0: a larger triple. *)
Definition aboveCeiling (v : SemVer.t) : Prop :=
  (3 < SemVer.major v)%N
  ∨ (SemVer.major v = 3 ∧ 0 < SemVer.minor v)%N
  ∨ (SemVer.major v = 3 ∧ SemVer.minor v = 0 ∧ 0 < SemVer.patch v)%N.

Definition untestedWarning : string :=
  "WARNING: nuxt >= 3.0.0 is not tested against this builder!".

(** Every error [m] throws satisfies [P]. *)
Definition raisesOnly {A} (P : BuildError → Prop) (m : M A) : Prop :=
  ∀ w w' e, m w = (w', inl e) → P e.

(** An [UnsupportedFrameworkVersion] error names a version below the
    minimum. *)
Definition honestVersionError (e : BuildError) : Prop :=
  ∀ detected, e = UnsupportedFrameworkVersion detected →
    ∃ v, SemVer.parse detected = Some v ∧ belowMinimum v.

(** ** The parent directory of an entrypoint, in the spec's words

    The entrypoint without its last component: the segments of the path,
    less the empty ones a trailing slash leaves, less the last one; [.]
    when nothing is left. *)

Fixpoint dropTrailingEmpty (segs : list string) : list string :=
  match segs with
  | [] => []
  | s :: rest =>
      match dropTrailingEmpty rest with
      | [] => if truthy s then [s] else []
      | kept => s :: kept
      end
  end.

Definition parentDirectory (e : string) : string :=
  match removelast (dropTrailingEmpty (Path.split e)) with
  | [] => "."
  | segs => Path.unsplit segs
  end.

(** Modelled from the spec: an entrypoint is malformed, and the path
    resolver signals [InvalidEntrypoint], when it is empty or absolute;
    [validateEntrypoint] of [./utils] is not part of the sources. *)
Definition wellFormedEntrypoint (e : string) : bool :=
  truthy e && negb (Path.isAbsolute e).

(** ** Observing a run

    The events of a run seen through a projection [proj]: [m] shows
    [expected], in this order, when it returns, and the beginning of it
    when it throws. *)

Definition observes {A T} (proj : Event → option T) (expected : list T)
    (m : M A) : Prop :=
  ∀ w w' r, m w = (w', r) →
    ∃ seen, omap proj (trace w') = omap proj (trace w) ++ seen
            ∧ match r with
              | inr _ => seen = expected
              | inl _ => seen `prefix_of` expected
              end.

(** The steps a run announces with [startStep], and its [endStep]. *)
Inductive Announcement : Type :=
| Announced (step : string)
| Ended.

Definition announcement (e : Event) : option Announcement :=
  match e with
  | EvStartStep step => Some (Announced step)
  | EvEndStep => Some Ended
  | _ => None
  end.

Definition expectedAnnouncements (preBuild : bool) : list Announcement :=
  [Announced "Prepare build"; Announced "Install devDependencies"]
  ++ (if preBuild then [Announced "Pre build"] else [])
  ++ [Announced "Nuxt build"; Announced "Install dependencies";
      Announced "Collect artifacts"; Ended].

(** The commands a run issues besides the two installs: the copy of the
    build files, the TypeScript preparation and compilation, the
    [now-build] script and the framework's command line. *)
Inductive Command : Type :=
| CopiedBuildFiles
| PreparedTypescript
| RanScript (script : string)
| CompiledTypescript
| Executed (cmd : string) (args : list string).

Definition command (e : Event) : option Command :=
  match e with
  | EvCopyBuildFiles => Some CopiedBuildFiles
  | EvPrepareTypescript => Some PreparedTypescript
  | EvRunScript script => Some (RanScript script)
  | EvCompileTypescript => Some CompiledTypescript
  | EvExec cmd args => Some (Executed cmd args)
  | _ => None
  end.

Definition configFileFlag : string := "--config-file " ++ quoted "nuxt.config.js".

Definition expectedCommands (copies prepares scripted compiles generates : bool)
  : list Command :=
  (if copies then [CopiedBuildFiles] else [])
  ++ (if prepares then [PreparedTypescript] else [])
  ++ (if scripted then [RanScript "now-build"] else [])
  ++ (if compiles then [CompiledTypescript] else [])
  ++ [Executed "nuxt" ["build"; "--standalone"; "--no-lock"; configFileFlag]]
  ++ (if generates
      then [Executed "nuxt" ["generate"; "--no-build"; "--no-lock"; configFileFlag]]
      else []).

(** ** The files a run writes *)

(** A collaborator leaves the file [p] as it finds it. *)
Definition keepsFile {A} (p : list string)
    (f : list string → FS → option (A * FS)) : Prop :=
  ∀ dir disk a disk', f dir disk = Some (a, disk') → disk' !! p = disk !! p.

(** Every collaborator that may rewrite the workspace leaves [p] as it
    finds it. *)
Definition collaboratorsKeep (X : Collaborators) (p : list string) : Prop :=
  (∀ files dir meta, keepsFile p (effect (download X files dir meta)))
  ∧ (∀ buildFiles root entry, keepsFile p (effect (copyBuildFiles X buildFiles root entry)))
  ∧ (∀ pkg o dir, keepsFile p (prepareTypescriptEnvironment X pkg o dir))
  ∧ (∀ dir namespaceDir, keepsFile p (effect (prepareNodeModules X dir namespaceDir)))
  ∧ (∀ dir args o meta, keepsFile p (effect (runNpmInstall X dir args o meta)))
  ∧ (∀ dir script o, keepsFile p (effect (runPackageJsonScript X dir script o)))
  ∧ (∀ root entry dir o tsc, keepsFile p (compileTypescriptBuildFiles X root entry dir o tsc))
  ∧ (∀ cmd args o, keepsFile p (effect (exec X cmd args o))).

(** The content of [p] in a world whose working directory is [entry]. *)
Definition seenFrom (entry p : list string) (w : World) : option (option string) :=
  if decide (cwd w = entry) then Some (fs w !! p) else None.

(** The files [build] writes itself, all in the entry directory. *)
Definition ownFiles (entry : list string) : list (list string) :=
  [Path.canon entry ".npmrc"; Path.canon entry ".yarnclean";
   Path.canon entry "package.json"].

(** The entries the launcher files start from (build.ts, lines 284-287). *)
Definition launcherEntries : list string :=
  ["vercel__launcher.js"; "vercel__bridge.js"; "nuxt.config.js"].

(** Whether a run of the harness returned. *)
Definition isResult {A} (r : HarnessError + A) : bool :=
  match r with inr _ => true | inl _ => false end.

(** ** More of the concrete project *)

Module FixtureMore.
(** The entry directory with a [.yarnclean] of the project's own. *)
Definition yarncleanWorld : World :=
  mkWorld (<[["work"; "apps"; "web"; ".yarnclean"] := "docs"]> Fixture.disk)
    ["work"; "apps"; "web"] [] [].

Definition yarncleanRun : World * (BuildError + Prepared) :=
  prepareEnvironment (Fixture.collaborators "2.14.12" Fixture.defaultNuxtConfig)
    Fixture.noToken (Fixture.options Fixture.defaultConfig)
    (resolvePaths "/work" "apps/web/package.json") Fixture.manifest yarncleanWorld.
End FixtureMore.

#[global] Instance Announcement_eq_dec : EqDecision Announcement.
Proof. solve_decision. Defined.

(** ** A concrete fixture for the harness

    A fixture in [/fixtures/web] with the test manifest and a Nuxt
    project in [apps/neu.app], a loader that knows this builder under
    its package name, and a [download] that writes the input files below
    the work path, as the one of [@vercel/build-utils] does. *)
Module HarnessFixture.

Definition downloadInto (files : FileSet) (workPath : string) (_ : Meta)
    (cwd0 : list string) (disk : FS) : option FS :=
  Some (map_fold
          (λ k f acc,
             match fileContent disk f with
             | Some data => <[(Path.canon cwd0 workPath ++ Path.split k)%list := data]> acc
             | None => acc
             end)
          disk files).

Definition collaborators : Collaborators :=
  let X := Fixture.collaborators "2.14.12" Fixture.defaultNuxtConfig in
  {| validateEntrypoint := validateEntrypoint X;
     download := downloadInto;
     copyBuildFiles := copyBuildFiles X;
     parseJSON := parseJSON X;
     stringifyJSON := stringifyJSON X;
     getNodeVersion := getNodeVersion X;
     getSpawnOptions := getSpawnOptions X;
     getNuxtConfigName := getNuxtConfigName X;
     prepareTypescriptEnvironment := prepareTypescriptEnvironment X;
     prepareNodeModules := prepareNodeModules X;
     runNpmInstall := runNpmInstall X;
     runPackageJsonScript := runPackageJsonScript X;
     compileTypescriptBuildFiles := compileTypescriptBuildFiles X;
     getNuxtConfig := getNuxtConfig X;
     exec := exec X;
     preparePkgForProd := preparePkgForProd X;
     requireVersion := requireVersion X;
     globMatch := globMatch X;
     keyBefore := keyBefore X;
     prependPrefix := prependPrefix X;
     renderLauncher := renderLauncher X;
     nodeBridge := nodeBridge X |}.

Definition builderName : string := "@nuxtjs/vercel-builder".

Definition wrapper : Wrapper.t :=
  Wrapper.mk None (build collaborators Fixture.noToken) (λ _, ret ∅).

Definition nowJson : NowJson.t :=
  NowJson.mk [BuildSpec.mk "/apps/neu.app/package.json" builderName
                Fixture.defaultConfig].

Definition loader : Loader :=
  mkLoader
    (λ path disk, if bool_decide (is_Some (disk !! path)) then Some nowJson else None)
    (λ request, if bool_decide (request = builderName) then Some wrapper else None).

Definition here : string := "/builder/test/utils".

Definition disk : FS :=
  list_to_map
    [ (["builder"; "lib"; "launcher.js"], "launcher __NUXT_SUFFIX__");
      (["builder"; ".yarnclean"], "*.md");
      (["builder"; "node_modules"; "@vercel"; "node-bridge"; "bridge.js"], "bridge");
      (["builder"; ".tmp"; "web"; "apps"; "neu.app"; "stale.js"], "stale");
      (["fixtures"; "web"; "apps"; "neu.app"; "vercel.test.json"], "{builds}");
      (["fixtures"; "web"; "apps"; "neu.app"; "package.json"], Fixture.manifestText);
      (["fixtures"; "web"; "apps"; "neu.app"; "nuxt.config.js"], "export default {}");
      (["fixtures"; "web"; "apps"; "neu.app"; "static"; "favicon.ico"], "icon") ].

(** The harness on the fixture. *)
Definition run : World * (HarnessError + BuildLambdaResult.t) :=
  runBuildLambda collaborators loader here "/fixtures/web" (initialWorld disk []).


(** The harness on its own work directory. *)
Definition ownDirectoryRun : World * (HarnessError + BuildLambdaResult.t) :=
  runBuildLambda collaborators loader here "/builder/.tmp/web" (initialWorld disk []).

End HarnessFixture.

(** ** The TypeScript fixture as a project

    The concrete project with its configuration in [nuxt.config.ts]:
    the configuration is the one of the fixture, with [__dirname] the
    entry path. *)
Module TypescriptFixture.

Definition collaborators : Collaborators :=
  let X := Fixture.collaborators "2.14.12" Fixture.defaultNuxtConfig in
  {| validateEntrypoint := validateEntrypoint X;
     download := download X;
     copyBuildFiles := copyBuildFiles X;
     parseJSON := parseJSON X;
     stringifyJSON := stringifyJSON X;
     getNodeVersion := getNodeVersion X;
     getSpawnOptions := getSpawnOptions X;
     getNuxtConfigName := λ _ _ _, Some "nuxt.config.ts";
     prepareTypescriptEnvironment := prepareTypescriptEnvironment X;
     prepareNodeModules := prepareNodeModules X;
     runNpmInstall := runNpmInstall X;
     runPackageJsonScript := runPackageJsonScript X;
     compileTypescriptBuildFiles := compileTypescriptBuildFiles X;
     getNuxtConfig := λ entrypointPath _ dir _,
       Some (typescriptNuxtConfig dir entrypointPath);
     exec := exec X;
     preparePkgForProd := preparePkgForProd X;
     requireVersion := requireVersion X;
     globMatch := globMatch X;
     keyBefore := keyBefore X;
     prependPrefix := prependPrefix X;
     renderLauncher := renderLauncher X;
     nodeBridge := nodeBridge X |}.

Definition run : World * (BuildError + BuilderOutput) :=
  build collaborators Fixture.noToken (Fixture.options Fixture.defaultConfig)
    (initialWorld Fixture.disk []).

End TypescriptFixture.

(** ** Before and after the version check *)

(** An error that is not about the framework version. *)
Definition notVersionError (e : BuildError) : Prop :=
  match e with
  | UnsupportedFrameworkVersion _ | InvalidVersion _ => False
  | _ => True
  end.

(** The two milestones that come after the production install has run:
    its return and the removal of [.npmrc]. *)
Definition lateMilestone (e : Event) : option Milestone :=
  match milestone e with
  | Some ProdInstallDone => Some ProdInstallDone
  | Some NpmrcRemoved => Some NpmrcRemoved
  | _ => None
  end.

(** What the stages before the version check leave alone: the warnings
    and the late milestones. *)
Definition quietState (w : World) : list string * list Milestone :=
  (warnings w, omap lateMilestone (trace w)).

(** The arguments of the production install (build.ts, lines 214-221). *)
Definition prodInstallArgs (paths : Paths) (prep : Prepared) : list string :=
  [ "--prefer-offline"; "--pure-lockfile"; "--non-interactive";
    "--production=true";
    ("--modules-folder=" ++ modulesPath paths)%string;
    ("--cache-folder=" ++ yarnCachePath prep)%string ].

(** What [build] does once the version check has passed: the cleanup
    of [.npmrc] and the last stage (build.ts, lines 238-337). *)
Definition afterVersionCheck (X : Collaborators) (proc : Process)
    (opts : BuildOptions) (paths : Paths) (prep : Prepared) (nb : NuxtBuild)
    (nuxtDep : NuxtDep) : M BuilderOutput :=
  _ ← when (hasToken proc) (unlink ".npmrc");
  collectArtifacts X proc opts paths prep nb nuxtDep.

(** What [build] does once the production install has returned: it
    resolves the version of the framework and checks it
    (build.ts, lines 225-337). *)
Definition afterProdInstall (X : Collaborators) (proc : Process)
    (opts : BuildOptions) (paths : Paths) (prep : Prepared) (nb : NuxtBuild)
    (nuxtDep : NuxtDep) : M BuilderOutput :=
  let request := ("@nuxt/core" ++ suffix nuxtDep ++ "/package.json")%string in
  dir ← gets cwd;
  disk ← gets fs;
  detected ← orThrow (requireVersion X (entrypointPath paths) request dir disk)
               (FrameworkNotResolvable request);
  _ ← validateNuxtVersion detected;
  afterVersionCheck X proc opts paths prep nb nuxtDep.

(** ** The models of [path] and [semver] on examples *)

Example dirname_fixture :
  Path.dirname "apps/neu.app/package.json" = "apps/neu.app".
Proof. reflexivity. Qed.

Example dirname_top : Path.dirname "package.json" = ".".
Proof. reflexivity. Qed.

Example dirname_double : Path.dirname "a//b" = "a/".
Proof. reflexivity. Qed.

Example join_fixture :
  Path.join ["/vercel/workpath0"; "apps/neu.app"] = "/vercel/workpath0/apps/neu.app".
Proof. reflexivity. Qed.

Example join_dot : Path.join ["/vercel/workpath0"; "."] = "/vercel/workpath0".
Proof. reflexivity. Qed.

Example join_up : Path.join ["/a/b"; "../c/"] = "/a/c/".
Proof. reflexivity. Qed.

Example normalize_cases :
  map Path.normalize
    ["/foo/bar//baz/asdf/quux/.."; "./a"; "a/../.."; "/.."; "./"; "a/./b/../c"]
  = ["/foo/bar/baz/asdf"; "a"; ".."; "/"; "./"; "a/c"].
Proof. vm_compute. reflexivity. Qed.

Example dirname_cases :
  map Path.dirname ["/"; "/a"; "a/b/"; "a"; "//a"; "a///"]
  = ["/"; "/"; "a"; "."; "//"; "."].
Proof. vm_compute. reflexivity. Qed.

Example relative_fixture :
  Path.relative [] "/w/app" "/w/app/.nuxt" = ".nuxt"
  ∧ Path.relative [] "/w/app" "/w/lib" = "../lib"
  ∧ Path.relative [] "/w/app" "/w/app" = EmptyString.
Proof. repeat split; reflexivity. Qed.

Example semver_parse_plain :
  SemVer.parse "2.14.12" = Some (SemVer.mk 2 14 12 [] []).
Proof. vm_compute. reflexivity. Qed.

Example semver_parse_pre :
  SemVer.parse " v2.4.0-rc.1+build.7 "
  = Some (SemVer.mk 2 4 0 [SemVer.Alpha "rc"; SemVer.Num 1] ["build"; "7"]).
Proof. vm_compute. reflexivity. Qed.

Example semver_parse_bad :
  SemVer.parse "2.4" = None ∧ SemVer.parse "02.4.0" = None
  ∧ SemVer.parse "2.4.0-" = None ∧ SemVer.parse EmptyString = None.
Proof. vm_compute. repeat split; reflexivity. Qed.

Example semver_gte_examples :
  SemVer.gte "2.3.0" "2.4.0" = Some false
  ∧ SemVer.gte "2.4.0" "2.4.0" = Some true
  ∧ SemVer.gte "2.4.0-rc.1" "2.4.0" = Some false
  ∧ SemVer.gte "2.14.12" "2.4.0" = Some true
  ∧ SemVer.gt "3.0.0" "3.0.0" = Some false
  ∧ SemVer.gt "3.0.1" "3.0.0" = Some true.
Proof. vm_compute. repeat split; reflexivity. Qed.

(** ** Running the monad *)

Lemma run_bind {A B} (m : M A) (k : A → M B) (w : World) :
  (m ≫= k) w = match m w with
               | (w1, inr a) => k a w1
               | (w1, inl e) => (w1, inl e)
               end.
Proof. reflexivity. Qed.

Lemma bind_inr {A B} (m : M A) (k : A → M B) (w w' : World) (b : B) :
  (m ≫= k) w = (w', inr b) →
  ∃ w1 a, m w = (w1, inr a) ∧ k a w1 = (w', inr b).
Proof.
  rewrite run_bind. destruct (m w) as [w1 [e|a]]; [discriminate|].
  intros H. by exists w1, a.
Qed.

Lemma returned {A} (run : World * (BuildError + A)) :
  isReturn run.2 = true → ∃ a, run = (run.1, inr a).
Proof. destruct run as [w [e|a]]; [discriminate|]. intros _. by exists a. Qed.

Lemma bind_ok {A B} (m : M A) (k : A → M B) (w w1 : World) (a : A) :
  m w = (w1, inr a) → (m ≫= k) w = k a w1.
Proof. intros H. by rewrite run_bind, H. Qed.

Lemma bind_fail {A B} (m : M A) (k : A → M B) (w w1 : World) (e : BuildError) :
  m w = (w1, inl e) → (m ≫= k) w = (w1, inl e).
Proof. intros H. by rewrite run_bind, H. Qed.

(** ** The version check (build.ts, lines 229-236) *)

Lemma parse_minimum : SemVer.parse "2.4.0" = Some minimumVersion.
Proof. vm_compute. reflexivity. Qed.

Lemma parse_ceiling : SemVer.parse "3.0.0" = Some testedCeiling.
Proof. vm_compute. reflexivity. Qed.

Lemma thenCmp_Lt (c1 c2 : comparison) :
  SemVer.thenCmp c1 c2 = Lt ↔ c1 = Lt ∨ (c1 = Eq ∧ c2 = Lt).
Proof. destruct c1, c2; simpl; intuition congruence. Qed.

Lemma thenCmp_Gt (c1 c2 : comparison) :
  SemVer.thenCmp c1 c2 = Gt ↔ c1 = Gt ∨ (c1 = Eq ∧ c2 = Gt).
Proof. destruct c1, c2; simpl; intuition congruence. Qed.

Lemma thenCmp_Eq (c1 c2 : comparison) :
  SemVer.thenCmp c1 c2 = Eq ↔ c1 = Eq ∧ c2 = Eq.
Proof. destruct c1, c2; simpl; intuition congruence. Qed.

Lemma compare_minimum (v : SemVer.t) :
  SemVer.compare v minimumVersion = Lt ↔ belowMinimum v.
Proof.
  destruct v as [ma mi pa pre bld].
  unfold belowMinimum, SemVer.compare, SemVer.compareMain, SemVer.comparePre.
  cbn [SemVer.major SemVer.minor SemVer.patch SemVer.prerelease minimumVersion].
  rewrite !thenCmp_Lt, !thenCmp_Eq, !N.compare_lt_iff, !N.compare_eq_iff.
  destruct pre; intuition (lia || congruence).
Qed.

Lemma compare_ceiling (v : SemVer.t) :
  SemVer.compare v testedCeiling = Gt ↔ aboveCeiling v.
Proof.
  destruct v as [ma mi pa pre bld].
  unfold aboveCeiling, SemVer.compare, SemVer.compareMain, SemVer.comparePre.
  cbn [SemVer.major SemVer.minor SemVer.patch SemVer.prerelease testedCeiling].
  rewrite !thenCmp_Gt, !thenCmp_Eq, !N.compare_gt_iff, !N.compare_eq_iff.
  destruct pre; intuition (lia || congruence).
Qed.

Lemma below_not_above (v : SemVer.t) : belowMinimum v → ¬ aboveCeiling v.
Proof. unfold belowMinimum, aboveCeiling. lia. Qed.

Lemma validateNuxtVersion_run (detected : string) (v : SemVer.t) (w : World) :
  SemVer.parse detected = Some v →
  validateNuxtVersion detected w =
    match SemVer.compare v minimumVersion with
    | Lt => (w, inl (UnsupportedFrameworkVersion detected))
    | _ => match SemVer.compare v testedCeiling with
           | Gt => (addWarning untestedWarning w, inr tt)
           | _ => (w, inr tt)
           end
    end.
Proof.
  intros Hv. unfold validateNuxtVersion, SemVer.gte, SemVer.gt.
  rewrite Hv, parse_minimum, parse_ceiling. simpl.
  destruct (SemVer.compare v minimumVersion);
    destruct (SemVer.compare v testedCeiling); reflexivity.
Qed.

(** ** Rules for [follows] *)

Section FollowsRules.

Context {A B : Type}.

Lemma follows_quiet (m : M A) :
  (∀ w, trace (m w).1 = trace w) → follows [] m.
Proof.
  intros H w w' r E. exists []. specialize (H w). rewrite E in H. simpl in H.
  rewrite H, app_nil_r. split; [done|]. by destruct r.
Qed.

Lemma follows_ret (a : A) : follows [] (mret a : M A).
Proof. by apply follows_quiet. Qed.

Lemma follows_throw (e : BuildError) : follows [] (throw e : M A).
Proof. by apply follows_quiet. Qed.

Lemma follows_gets (f : World → A) : follows [] (gets f).
Proof. by apply follows_quiet. Qed.

Lemma follows_orThrow (x : option A) (e : BuildError) : follows [] (orThrow x e).
Proof. apply follows_quiet. by destruct x. Qed.

Lemma follows_bind (e1 e2 : list Milestone) (m : M A) (k : A → M B) :
  follows e1 m → (∀ a, follows e2 (k a)) → follows (e1 ++ e2) (m ≫= k).
Proof.
  intros Hm Hk w w' r. rewrite run_bind.
  destruct (m w) as [w1 [e|a]] eqn:E; destruct (Hm _ _ _ E) as (ms1 & T1 & P1).
  - intros [= <- <-]. exists ms1. split; [done|]. by apply prefix_app_r.
  - intros E2. destruct (Hk a _ _ _ E2) as (ms2 & T2 & P2). subst ms1.
    exists (e1 ++ ms2). rewrite T2, T1, app_assoc. split; [done|].
    destruct r; [by apply prefix_app|by subst].
Qed.

Lemma follows_eq (e1 e2 : list Milestone) (m : M A) :
  follows e2 m → e1 = e2 → follows e1 m.
Proof. by intros H ->. Qed.

End FollowsRules.

Lemma follows_modify (f : World → World) :
  (∀ w, trace (f w) = trace w) → follows [] (modify f).
Proof. intros H. by apply follows_quiet. Qed.

Lemma follows_emit (e : Event) : follows (milestones [e]) (emit e).
Proof.
  intros w w' r [= <- <-]. exists (milestones [e]). split; [|done].
  unfold milestones. simpl. by rewrite omap_app.
Qed.

Lemma follows_when (e : list Milestone) (b : bool) (m : M unit) :
  follows e m → follows (if b then e else []) (when b m).
Proof. destruct b; [done|]. intros _. apply follows_ret. Qed.

Lemma follows_when_quiet (b : bool) (m : M unit) :
  follows [] m → follows [] (when b m).
Proof. destruct b; [done|]. intros _. apply follows_ret. Qed.

Lemma follows_catch {A} (m : M A) (h : BuildError → M A) :
  follows [] m → (∀ e, follows [] (h e)) → follows [] (catch m h).
Proof.
  intros Hm Hh w w' r. unfold catch.
  destruct (m w) as [w1 [e|a]] eqn:E; destruct (Hm _ _ _ E) as (ms1 & T1 & P1).
  - intros E2. destruct (Hh e _ _ _ E2) as (ms2 & T2 & P2).
    apply prefix_nil_inv in P1. subst ms1. rewrite app_nil_r in T1.
    exists ms2. by rewrite T2, T1.
  - intros [= <- <-]. by exists ms1.
Qed.

Lemma follows_bind_quiet {A B} (m : M A) (k : A → M B) :
  follows [] m → (∀ a, follows [] (k a)) → follows [] (m ≫= k).
Proof. intros Hm Hk. by apply (follows_bind [] []). Qed.

Create HintDb follows discriminated.

(** Walks over the text of a computation, one rule per construct. *)
Ltac follows_auto :=
  lazymatch goal with
  | |- follows _ (mbind _ _) =>
      first [ eapply follows_bind | apply follows_bind_quiet ];
      [ follows_auto | intros ?; follows_auto ]
  | |- follows _ (mret _) => apply follows_ret
  | |- follows _ (ret _) => apply follows_ret
  | |- follows _ (throw _) => apply follows_throw
  | |- follows _ (gets _) => apply follows_gets
  | |- follows _ (orThrow _ _) => apply follows_orThrow
  | |- follows _ (emit _) => apply follows_emit
  | |- follows _ (modify _) => apply follows_modify; intros; reflexivity
  | |- follows _ (when _ _) =>
      first [ solve [ apply follows_when_quiet; follows_auto ]
            | apply follows_when; follows_auto ]
  | |- follows _ (catch _ _) =>
      apply follows_catch; [ follows_auto | intros ?; follows_auto ]
  | |- follows _ (match ?x with _ => _ end) =>
      destruct x; cbv beta iota; follows_auto
  | |- follows _ (let _ := _ in _) => cbv zeta; follows_auto
  | |- _ => solve [ eauto with follows ]
  end.

(** Decides a closed decidable proposition by evaluation. *)
Ltac by_compute := apply (bool_decide_unpack _); vm_compute; exact I.

Ltac follows_solve :=
  eapply follows_eq; [ follows_auto | try reflexivity ].

Lemma follows_call {A} (who : string) (f : list string → FS → option (A * FS)) :
  follows [] (call who f).
Proof. unfold call. follows_solve. Qed.

Lemma follows_locate (file : string) : follows [] (locate file).
Proof. apply follows_gets. Qed.

Lemma follows_warn (msg : string) : follows [] (warn msg).
Proof. by apply follows_modify. Qed.

#[global] Hint Resolve follows_call follows_locate follows_warn : follows.

Lemma follows_chdir (dir : string) : follows [] (chdir dir).
Proof. unfold chdir. follows_solve. Qed.

Lemma follows_existsSync (file : string) : follows [] (existsSync file).
Proof. unfold existsSync. follows_solve. Qed.

Lemma follows_readFile (file : string) : follows [] (readFile file).
Proof. unfold readFile. follows_solve. Qed.

Lemma follows_writeFile (file data : string) :
  follows (milestones [EvWriteFile file data]) (writeFile file data).
Proof. unfold writeFile. follows_solve. by rewrite app_nil_r. Qed.

(** The same for a file other than [.npmrc], whose milestone does not
    depend on what is written. *)
Lemma follows_writeFile_other (file data : string) :
  bool_decide (file = ".npmrc") = false →
  follows (milestones [EvWriteFile file EmptyString]) (writeFile file data).
Proof.
  intros H. eapply follows_eq; [apply follows_writeFile|].
  unfold milestones. simpl. by rewrite H.
Qed.

Lemma follows_copyFile (from to : string) : follows [] (copyFile from to).
Proof. unfold copyFile. follows_solve. Qed.

Lemma follows_unlink (file : string) : follows (milestones [EvUnlink file]) (unlink file).
Proof. unfold unlink. follows_solve. by rewrite app_nil_r. Qed.

Lemma follows_mkdirp (dir : string) : follows [] (mkdirp dir).
Proof. unfold mkdirp. follows_solve. Qed.

Lemma follows_startStep (step : string) : follows [] (startStep step).
Proof. unfold startStep. follows_solve. Qed.

Lemma follows_endStep : follows [] endStep.
Proof. unfold endStep. follows_solve. Qed.

#[global] Hint Extern 1 (follows _ (writeFile _ _)) =>
  first [ apply follows_writeFile_other; reflexivity | apply follows_writeFile ]
  : follows.

#[global] Hint Resolve follows_chdir follows_existsSync follows_readFile
  follows_copyFile follows_unlink follows_mkdirp
  follows_startStep follows_endStep : follows.

Section FollowsStages.

Variable X : Collaborators.
Variable proc : Process.

Lemma follows_glob (pattern dir : string) : follows [] (glob X pattern dir).
Proof. unfold glob. follows_solve. Qed.

Hint Resolve follows_glob : follows.

Lemma follows_globAndPrefix (pattern dir prefix : string) :
  follows [] (globAndPrefix X pattern dir prefix).
Proof. unfold globAndPrefix. follows_solve. Qed.

Lemma follows_createLambda (members : FileSet) (h r : string)
    (e : list (string * string)) (d mem : option N) :
  follows [] (createLambda members h r e d mem).
Proof. unfold createLambda. follows_solve. Qed.

Lemma follows_readJSON (file : string) : follows [] (readJSON X file).
Proof. unfold readJSON. follows_solve. Qed.

Hint Resolve follows_globAndPrefix follows_createLambda follows_readJSON : follows.

Lemma follows_install (pass : InstallPass) (dir : string) (args : list string)
    (o : SpawnOptions) (m : Meta) :
  follows (milestones [EvInstallBegin pass []; EvInstallEnd pass])
    (install X pass dir args o m).
Proof. unfold install. follows_solve. by destruct pass. Qed.

Lemma follows_namespaceModules (dir ns : string) : follows [] (namespaceModules X dir ns).
Proof. unfold namespaceModules. follows_solve. Qed.

Lemma follows_nuxt (args : list string) (o : SpawnOptions) : follows [] (nuxt X args o).
Proof. unfold nuxt. follows_solve. Qed.

Hint Resolve follows_install follows_namespaceModules follows_nuxt : follows.

Lemma follows_prepareWorkspace (opts : BuildOptions) (paths : Paths) :
  follows [] (prepareWorkspace X opts paths).
Proof. unfold prepareWorkspace. follows_solve. Qed.

Lemma follows_readManifest (paths : Paths) : follows [] (readManifest X paths).
Proof. unfold readManifest. follows_solve. Qed.

Lemma follows_prepareEnvironment (opts : BuildOptions) (paths : Paths)
    (pkg0 : MutablePackageJson) :
  follows (if hasToken proc then [NpmrcWritten (npmrcLine proc)] else [])
    (prepareEnvironment X proc opts paths pkg0).
Proof.
  unfold prepareEnvironment. follows_solve. by destruct (hasToken proc).
Qed.

Lemma follows_installDevDependencies (opts : BuildOptions) (paths : Paths)
    (prep : Prepared) :
  follows [DevInstallBegun; DevInstallDone]
    (installDevDependencies X opts paths prep).
Proof. unfold installDevDependencies. follows_solve. Qed.

Lemma follows_preBuild (paths : Paths) (prep : Prepared) : follows [] (preBuild X paths prep).
Proof. unfold preBuild. follows_solve. Qed.

Lemma follows_nuxtBuild (opts : BuildOptions) (paths : Paths) (prep : Prepared) :
  follows [] (nuxtBuild X opts paths prep).
Proof. unfold nuxtBuild. follows_solve. Qed.

Lemma follows_validateNuxtVersion (detected : string) :
  follows [] (validateNuxtVersion detected).
Proof. unfold validateNuxtVersion. follows_solve. Qed.

Hint Resolve follows_validateNuxtVersion : follows.

Lemma follows_installDependencies (opts : BuildOptions) (paths : Paths)
    (prep : Prepared) :
  follows ([ManifestPruned; ManifestRewritten; ProdInstallBegun; ProdInstallDone]
           ++ (if hasToken proc then [NpmrcRemoved] else []))
    (installDependencies X proc opts paths prep).
Proof.
  unfold installDependencies, writeJSON. follows_solve.
  by destruct (hasToken proc).
Qed.

Lemma follows_mergeServerFiles (dir : string) (patterns : list string)
    (launcherFiles : FileSet) :
  follows [] (mergeServerFiles X dir patterns launcherFiles).
Proof.
  revert launcherFiles. induction patterns as [|p ps IH]; intros lf; simpl.
  - apply follows_ret.
  - apply follows_bind_quiet; [apply follows_glob|]. intros found. apply IH.
Qed.

Hint Resolve follows_mergeServerFiles : follows.

Lemma follows_packageLambda (opts : BuildOptions) (paths : Paths) (prep : Prepared)
    (nb : NuxtBuild) (dep : NuxtDep) (sd nm : FileSet) :
  follows [] (packageLambda X proc opts paths prep nb dep sd nm).
Proof. unfold packageLambda. follows_solve. Qed.

Hint Resolve follows_packageLambda : follows.

Lemma follows_collectArtifacts (opts : BuildOptions) (paths : Paths)
    (prep : Prepared) (nb : NuxtBuild) (dep : NuxtDep) :
  follows [] (collectArtifacts X proc opts paths prep nb dep).
Proof. unfold collectArtifacts. follows_solve. Qed.

(** Every run of [build], whether it returns or throws, passes the
    milestones in the one order of [expectedMilestones]; a run that
    returns has passed them all. *)
Lemma follows_build (opts : BuildOptions) :
  follows (expectedMilestones (hasToken proc) (npmrcLine proc)) (build X proc opts).
Proof.
  unfold build. cbv zeta.
  eapply follows_eq.
  - eapply follows_bind; [apply follows_prepareWorkspace|intros _].
    eapply follows_bind; [apply follows_readManifest|intros pkg0].
    eapply follows_bind; [apply follows_prepareEnvironment|intros prep].
    eapply follows_bind; [apply follows_installDevDependencies|intros _].
    eapply follows_bind; [apply follows_preBuild|intros _].
    eapply follows_bind; [apply follows_nuxtBuild|intros nb].
    eapply follows_bind; [apply follows_installDependencies|intros dep].
    apply follows_collectArtifacts.
  - unfold expectedMilestones. by destruct (hasToken proc).
Qed.

End FollowsStages.

(** ** Rules for [preserves] *)

Section PreservesRules.

Context {A B Y : Type} (f : World → Y).

Lemma preserves_still (m : M A) :
  (∀ w, f (m w).1 = f w) → preserves f m.
Proof. intros H w w' r E. specialize (H w). by rewrite E in H. Qed.

Lemma preserves_ret (a : A) : preserves f (mret a : M A).
Proof. by apply preserves_still. Qed.

Lemma preserves_throw (e : BuildError) : preserves f (throw e : M A).
Proof. by apply preserves_still. Qed.

Lemma preserves_gets (g : World → A) : preserves f (gets g).
Proof. by apply preserves_still. Qed.

Lemma preserves_orThrow (x : option A) (e : BuildError) :
  preserves f (orThrow x e).
Proof. apply preserves_still. by destruct x. Qed.

Lemma preserves_bind (m : M A) (k : A → M B) :
  preserves f m → (∀ a, preserves f (k a)) → preserves f (m ≫= k).
Proof.
  intros Hm Hk w w' r. rewrite run_bind.
  destruct (m w) as [w1 [e|a]] eqn:E.
  - intros [= <- <-]. by eapply Hm.
  - intros E2. rewrite (Hk _ _ _ _ E2). by eapply Hm.
Qed.

Lemma preserves_catch (m : M A) (h : BuildError → M A) :
  preserves f m → (∀ e, preserves f (h e)) → preserves f (catch m h).
Proof.
  intros Hm Hh w w' r. unfold catch.
  destruct (m w) as [w1 [e|a]] eqn:E.
  - intros E2. rewrite (Hh _ _ _ _ E2). by eapply Hm.
  - intros [= <- <-]. by eapply Hm.
Qed.

End PreservesRules.

Lemma preserves_modify {Y} (f : World → Y) (g : World → World) :
  (∀ w, f (g w) = f w) → preserves f (modify g).
Proof. intros H. by apply preserves_still. Qed.

Lemma preserves_when {Y} (f : World → Y) (b : bool) (m : M unit) :
  preserves f m → preserves f (when b m).
Proof. destruct b; [done|]. intros _. apply preserves_ret. Qed.

Create HintDb preserves discriminated.

Ltac preserves_auto :=
  lazymatch goal with
  | |- preserves _ (mbind _ _) =>
      apply preserves_bind; [ preserves_auto | intros ?; preserves_auto ]
  | |- preserves _ (mret _) => apply preserves_ret
  | |- preserves _ (ret _) => apply preserves_ret
  | |- preserves _ (throw _) => apply preserves_throw
  | |- preserves _ (gets _) => apply preserves_gets
  | |- preserves _ (orThrow _ _) => apply preserves_orThrow
  | |- preserves _ (modify _) => apply preserves_modify; intros; reflexivity
  | |- preserves _ (when _ _) => apply preserves_when; preserves_auto
  | |- preserves _ (catch _ _) =>
      apply preserves_catch; [ preserves_auto | intros ?; preserves_auto ]
  | |- preserves _ (match ?x with _ => _ end) =>
      destruct x; cbv beta iota; preserves_auto
  | |- preserves _ (let _ := _ in _) => cbv zeta; preserves_auto
  | |- _ => solve [ eauto with preserves ]
  end.

Lemma cwd_emit (e : Event) : preserves cwd (emit e).
Proof. by apply preserves_modify. Qed.

Lemma fs_emit (e : Event) : preserves fs (emit e).
Proof. by apply preserves_modify. Qed.

Lemma cwd_warn (msg : string) : preserves cwd (warn msg).
Proof. by apply preserves_modify. Qed.

Lemma fs_warn (msg : string) : preserves fs (warn msg).
Proof. by apply preserves_modify. Qed.

Lemma cwd_locate (file : string) : preserves cwd (locate file).
Proof. apply preserves_gets. Qed.

Lemma fs_locate (file : string) : preserves fs (locate file).
Proof. apply preserves_gets. Qed.

#[global] Hint Resolve cwd_emit fs_emit cwd_warn fs_warn cwd_locate fs_locate
  : preserves.

Lemma cwd_call {A} (who : string) (f : list string → FS → option (A * FS)) :
  preserves cwd (call who f).
Proof. unfold call. preserves_auto. Qed.

Lemma cwd_existsSync (file : string) : preserves cwd (existsSync file).
Proof. unfold existsSync. preserves_auto. Qed.

Lemma cwd_readFile (file : string) : preserves cwd (readFile file).
Proof. unfold readFile. preserves_auto. Qed.

Lemma fs_readFile (file : string) : preserves fs (readFile file).
Proof. unfold readFile. preserves_auto. Qed.

Lemma cwd_writeFile (file data : string) : preserves cwd (writeFile file data).
Proof. unfold writeFile. preserves_auto. Qed.

Lemma cwd_copyFile (from to : string) : preserves cwd (copyFile from to).
Proof. unfold copyFile. preserves_auto. Qed.

Lemma cwd_unlink (file : string) : preserves cwd (unlink file).
Proof. unfold unlink. preserves_auto. Qed.

Lemma cwd_mkdirp (dir : string) : preserves cwd (mkdirp dir).
Proof. unfold mkdirp. preserves_auto. Qed.

Lemma cwd_startStep (step : string) : preserves cwd (startStep step).
Proof. unfold startStep. preserves_auto. Qed.

Lemma fs_startStep (step : string) : preserves fs (startStep step).
Proof. unfold startStep. preserves_auto. Qed.

Lemma cwd_endStep : preserves cwd endStep.
Proof. unfold endStep. preserves_auto. Qed.

Lemma fs_endStep : preserves fs endStep.
Proof. unfold endStep. preserves_auto. Qed.

#[global] Hint Resolve cwd_call cwd_existsSync cwd_readFile fs_readFile
  cwd_writeFile cwd_copyFile cwd_unlink cwd_mkdirp cwd_startStep fs_startStep
  cwd_endStep fs_endStep : preserves.

Section PreservesStages.

Variable X : Collaborators.
Variable proc : Process.

Lemma cwd_glob (pattern dir : string) : preserves cwd (glob X pattern dir).
Proof. unfold glob. preserves_auto. Qed.

Lemma fs_glob (pattern dir : string) : preserves fs (glob X pattern dir).
Proof. unfold glob. preserves_auto. Qed.

Hint Resolve cwd_glob fs_glob : preserves.

Lemma cwd_globAndPrefix (pattern dir prefix : string) :
  preserves cwd (globAndPrefix X pattern dir prefix).
Proof. unfold globAndPrefix. preserves_auto. Qed.

Lemma fs_globAndPrefix (pattern dir prefix : string) :
  preserves fs (globAndPrefix X pattern dir prefix).
Proof. unfold globAndPrefix. preserves_auto. Qed.

Lemma cwd_createLambda (members : FileSet) (h r : string)
    (e : list (string * string)) (d mem : option N) :
  preserves cwd (createLambda members h r e d mem).
Proof. unfold createLambda. preserves_auto. Qed.

Lemma fs_createLambda (members : FileSet) (h r : string)
    (e : list (string * string)) (d mem : option N) :
  preserves fs (createLambda members h r e d mem).
Proof. unfold createLambda. preserves_auto. Qed.

Lemma cwd_readJSON (file : string) : preserves cwd (readJSON X file).
Proof. unfold readJSON. preserves_auto. Qed.

Lemma fs_readJSON (file : string) : preserves fs (readJSON X file).
Proof. unfold readJSON. preserves_auto. Qed.

Hint Resolve cwd_globAndPrefix fs_globAndPrefix cwd_createLambda
  fs_createLambda cwd_readJSON fs_readJSON : preserves.

Lemma cwd_install (pass : InstallPass) (dir : string) (args : list string)
    (o : SpawnOptions) (m : Meta) :
  preserves cwd (install X pass dir args o m).
Proof. unfold install. preserves_auto. Qed.

Lemma cwd_namespaceModules (dir ns : string) :
  preserves cwd (namespaceModules X dir ns).
Proof. unfold namespaceModules. preserves_auto. Qed.

Lemma cwd_nuxt (args : list string) (o : SpawnOptions) :
  preserves cwd (nuxt X args o).
Proof. unfold nuxt. preserves_auto. Qed.

Lemma cwd_validateNuxtVersion (detected : string) :
  preserves cwd (validateNuxtVersion detected).
Proof. unfold validateNuxtVersion. preserves_auto. Qed.

Lemma fs_validateNuxtVersion (detected : string) :
  preserves fs (validateNuxtVersion detected).
Proof. unfold validateNuxtVersion. preserves_auto. Qed.

Hint Resolve cwd_install cwd_namespaceModules cwd_nuxt
  cwd_validateNuxtVersion fs_validateNuxtVersion : preserves.

Lemma cwd_readManifest (paths : Paths) : preserves cwd (readManifest X paths).
Proof. unfold readManifest. preserves_auto. Qed.

Lemma cwd_prepareEnvironment (opts : BuildOptions) (paths : Paths)
    (pkg0 : MutablePackageJson) :
  preserves cwd (prepareEnvironment X proc opts paths pkg0).
Proof. unfold prepareEnvironment. preserves_auto. Qed.

Lemma cwd_installDevDependencies (opts : BuildOptions) (paths : Paths)
    (prep : Prepared) :
  preserves cwd (installDevDependencies X opts paths prep).
Proof. unfold installDevDependencies. preserves_auto. Qed.

Lemma cwd_preBuild (paths : Paths) (prep : Prepared) :
  preserves cwd (preBuild X paths prep).
Proof. unfold preBuild. preserves_auto. Qed.

Lemma cwd_nuxtBuild (opts : BuildOptions) (paths : Paths) (prep : Prepared) :
  preserves cwd (nuxtBuild X opts paths prep).
Proof. unfold nuxtBuild. preserves_auto. Qed.

Lemma cwd_installDependencies (opts : BuildOptions) (paths : Paths)
    (prep : Prepared) :
  preserves cwd (installDependencies X proc opts paths prep).
Proof. unfold installDependencies, writeJSON. preserves_auto. Qed.

Lemma cwd_mergeServerFiles (dir : string) (patterns : list string)
    (launcherFiles : FileSet) :
  preserves cwd (mergeServerFiles X dir patterns launcherFiles).
Proof.
  revert launcherFiles. induction patterns as [|p ps IH]; intros lf; simpl.
  - apply preserves_ret.
  - apply preserves_bind; [apply cwd_glob|]. intros found. apply IH.
Qed.

Lemma fs_mergeServerFiles (dir : string) (patterns : list string)
    (launcherFiles : FileSet) :
  preserves fs (mergeServerFiles X dir patterns launcherFiles).
Proof.
  revert launcherFiles. induction patterns as [|p ps IH]; intros lf; simpl.
  - apply preserves_ret.
  - apply preserves_bind; [apply fs_glob|]. intros found. apply IH.
Qed.

Hint Resolve cwd_mergeServerFiles fs_mergeServerFiles : preserves.

Lemma cwd_packageLambda (opts : BuildOptions) (paths : Paths) (prep : Prepared)
    (nb : NuxtBuild) (dep : NuxtDep) (sd nm : FileSet) :
  preserves cwd (packageLambda X proc opts paths prep nb dep sd nm).
Proof. unfold packageLambda. preserves_auto. Qed.

Lemma fs_packageLambda (opts : BuildOptions) (paths : Paths) (prep : Prepared)
    (nb : NuxtBuild) (dep : NuxtDep) (sd nm : FileSet) :
  preserves fs (packageLambda X proc opts paths prep nb dep sd nm).
Proof. unfold packageLambda. preserves_auto. Qed.

Hint Resolve cwd_packageLambda fs_packageLambda : preserves.

Lemma cwd_collectArtifacts (opts : BuildOptions) (paths : Paths)
    (prep : Prepared) (nb : NuxtBuild) (dep : NuxtDep) :
  preserves cwd (collectArtifacts X proc opts paths prep nb dep).
Proof. unfold collectArtifacts. preserves_auto. Qed.

(** Collecting and packaging only read the workspace. *)
Lemma fs_collectArtifacts (opts : BuildOptions) (paths : Paths)
    (prep : Prepared) (nb : NuxtBuild) (dep : NuxtDep) :
  preserves fs (collectArtifacts X proc opts paths prep nb dep).
Proof. unfold collectArtifacts. preserves_auto. Qed.

End PreservesStages.

(** ** Order of the milestones in a run *)

Lemma milestones_app (a b : list Event) :
  milestones (a ++ b) = milestones a ++ milestones b.
Proof. apply omap_app. Qed.

Lemma split_unique {T} (q : T) (l1 l2 l1' l2' : list T) :
  NoDup (l1 ++ q :: l2) → l1 ++ q :: l2 = l1' ++ q :: l2' → l1 = l1'.
Proof.
  revert l1'. induction l1 as [|x l1 IH]; intros l1' Hnd Heq.
  - destruct l1' as [|y l1']; [done|]. simpl in *. injection Heq as -> Heq.
    apply NoDup_cons in Hnd as [Hq _]. exfalso. apply Hq. rewrite Heq.
    apply elem_of_app. right. by left.
  - destruct l1' as [|y l1']; simpl in *.
    + injection Heq as -> Heq. apply NoDup_cons in Hnd as [Hq _].
      exfalso. apply Hq. apply elem_of_app. right. by left.
    + injection Heq as -> Heq. f_equal. apply IH; [|done].
      by apply NoDup_cons in Hnd as [_ ?].
Qed.

Lemma before_prefix (E a b c : list Milestone) (p q : Milestone) (tr : list Event) :
  NoDup E → E = a ++ p :: b ++ q :: c →
  milestones tr `prefix_of` E → before p q tr.
Proof.
  intros Hnd HE [k Hk] pre e post -> Hq.
  rewrite milestones_app in Hk.
  change (milestones (e :: post)) with
    (match milestone e with Some y => y :: milestones post | None => milestones post end)
    in Hk.
  rewrite Hq, <- app_assoc in Hk. simpl in Hk.
  assert (milestones pre = a ++ p :: b) as Hpre.
  { apply (split_unique q _ (milestones post ++ k) _ c).
    - by rewrite <- Hk.
    - rewrite <- Hk, HE. by rewrite <- app_assoc. }
  assert (p ∈ milestones pre) as Hin.
  { rewrite Hpre. apply elem_of_app. right. by left. }
  apply list_elem_of_omap in Hin as (e' & ? & ?). by exists e'.
Qed.

Lemma reached_milestones (p : Milestone) (tr : list Event) :
  p ∈ milestones tr → reached p tr.
Proof. intros (e & ? & ?)%list_elem_of_omap. by exists e. Qed.

Lemma expectedMilestones_NoDup (token : bool) (line : string) :
  NoDup (expectedMilestones token line).
Proof.
  destruct token; unfold expectedMilestones; simpl;
    repeat (apply NoDup_cons; split;
            [ rewrite ?elem_of_cons, elem_of_nil; intuition discriminate | ]);
    apply NoDup_nil_2.
Qed.

Section RunOrder.

Variable X : Collaborators.
Variable proc : Process.

Lemma build_milestones (opts : BuildOptions) (disk : FS) (dir : list string)
    (w' : World) (r : BuildError + BuilderOutput) :
  build X proc opts (initialWorld disk dir) = (w', r) →
  milestones (trace w') `prefix_of` expectedMilestones (hasToken proc) (npmrcLine proc)
  ∧ (∀ out, r = inr out →
       milestones (trace w') = expectedMilestones (hasToken proc) (npmrcLine proc)).
Proof.
  intros E. destruct (follows_build X proc opts _ _ _ E) as (ms & T & P).
  simpl in T. rewrite T. split.
  - destruct r as [e|out]; [exact P|]. by rewrite P.
  - intros out ->. exact P.
Qed.

End RunOrder.

(** ** C7: the manifest is pruned and rewritten between the two installs *)

(** C7.  In every run of the pipeline, returning or throwing: the prune
    comes after the dev-dependency install has returned, the rewrite of
    [package.json] after the prune, and the production install starts
    only after the rewrite; no milestone is passed twice; and a run that
    returns has passed all of them. *)
Theorem prune_between_installs (X : Collaborators) (proc : Process)
    (opts : BuildOptions) (disk : FS) (dir : list string)
    (w' : World) (r : BuildError + BuilderOutput) :
  build X proc opts (initialWorld disk dir) = (w', r) →
  before DevInstallDone ManifestPruned (trace w')
  ∧ before ManifestPruned ManifestRewritten (trace w')
  ∧ before ManifestRewritten ProdInstallBegun (trace w')
  ∧ NoDup (milestones (trace w'))
  ∧ (∀ out, r = inr out →
       reached DevInstallDone (trace w') ∧ reached ManifestPruned (trace w')
       ∧ reached ManifestRewritten (trace w') ∧ reached ProdInstallBegun (trace w')).
Proof.
  intros E. destruct (build_milestones X proc opts disk dir w' r E) as [Hpre Hall].
  pose proof (expectedMilestones_NoDup (hasToken proc) (npmrcLine proc)) as Hnd.
  repeat split.
  - destruct (hasToken proc).
    + by apply (before_prefix _ [NpmrcWritten (npmrcLine proc); DevInstallBegun] []
                  [ManifestRewritten; ProdInstallBegun; ProdInstallDone; NpmrcRemoved]
                  _ _ _ Hnd).
    + by apply (before_prefix _ [DevInstallBegun] []
                  [ManifestRewritten; ProdInstallBegun; ProdInstallDone]
                  _ _ _ Hnd).
  - destruct (hasToken proc).
    + by apply (before_prefix _ [NpmrcWritten (npmrcLine proc); DevInstallBegun; DevInstallDone] []
                  [ProdInstallBegun; ProdInstallDone; NpmrcRemoved] _ _ _ Hnd).
    + by apply (before_prefix _ [DevInstallBegun; DevInstallDone] []
                  [ProdInstallBegun; ProdInstallDone] _ _ _ Hnd).
  - destruct (hasToken proc).
    + by apply (before_prefix _
                  [NpmrcWritten (npmrcLine proc); DevInstallBegun; DevInstallDone; ManifestPruned] []
                  [ProdInstallDone; NpmrcRemoved] _ _ _ Hnd).
    + by apply (before_prefix _ [DevInstallBegun; DevInstallDone; ManifestPruned] []
                  [ProdInstallDone] _ _ _ Hnd).
  - destruct Hpre as [k Hk]. rewrite Hk in Hnd. by apply NoDup_app in Hnd as [? _].
  - apply reached_milestones. rewrite (Hall out H).
    destruct (hasToken proc); set_solver.
  - apply reached_milestones. rewrite (Hall out H).
    destruct (hasToken proc); set_solver.
  - apply reached_milestones. rewrite (Hall out H).
    destruct (hasToken proc); set_solver.
  - apply reached_milestones. rewrite (Hall out H).
    destruct (hasToken proc); set_solver.
Qed.

Lemma prune_between_installs_witness :
  ∃ out, Fixture.tokenRun = (Fixture.tokenRun.1, inr out)
  ∧ before DevInstallDone ManifestPruned (trace Fixture.tokenRun.1)
  ∧ before ManifestPruned ManifestRewritten (trace Fixture.tokenRun.1)
  ∧ before ManifestRewritten ProdInstallBegun (trace Fixture.tokenRun.1)
  ∧ NoDup (milestones (trace Fixture.tokenRun.1))
  ∧ (∀ out', (inr out : BuildError + BuilderOutput) = inr out' →
       reached DevInstallDone (trace Fixture.tokenRun.1)
       ∧ reached ManifestPruned (trace Fixture.tokenRun.1)
       ∧ reached ManifestRewritten (trace Fixture.tokenRun.1)
       ∧ reached ProdInstallBegun (trace Fixture.tokenRun.1)).
Proof.
  destruct (returned Fixture.tokenRun) as [out E]; [vm_compute; reflexivity|].
  exists out. split; [exact E|].
  exact (prune_between_installs
           (Fixture.collaborators "2.14.12" Fixture.defaultNuxtConfig)
           (Fixture.withToken "s3cret") (Fixture.options Fixture.defaultConfig)
           Fixture.disk [] _ _ E).
Defined.

(** ** Segments and canonical paths *)

Lemma split_slashFree (s : string) : slashFree s = true → Path.split s = [s].
Proof.
  unfold Path.split, slashFree. induction s as [|c s IH]; simpl; [done|].
  intros [Hc Hs]%andb_true_iff. unfold isSlash in Hc.
  destruct (Ascii.eqb c "/"); [done|]. by rewrite (IH Hs).
Qed.

Lemma split_app_slash (a b : string) :
  slashFree a = true →
  Path.split (a ++ String "/" b)%string = a :: Path.split b.
Proof.
  unfold Path.split, slashFree. induction a as [|c a IH]; simpl; [done|].
  intros [Hc Hs]%andb_true_iff. unfold isSlash in Hc.
  destruct (Ascii.eqb c "/"); [done|]. by rewrite (IH Hs).
Qed.

Lemma validSegment_slashFree (s : string) :
  validSegment s = true → slashFree s = true.
Proof. unfold validSegment. by intros [_ ?]%andb_true_iff. Qed.

Lemma split_unsplit (rel : list string) :
  rel ≠ [] → forallb validSegment rel = true →
  Path.split (Path.unsplit rel) = rel.
Proof.
  unfold Path.unsplit. induction rel as [|x rel IH]; [done|]. intros _.
  simpl. intros [Hx Hrel]%andb_true_iff.
  apply validSegment_slashFree in Hx.
  destruct rel as [|y rel]; [by apply split_slashFree|].
  change (x ++ "/" ++ String.concat "/" (y :: rel))%string
    with (x ++ String "/" (String.concat "/" (y :: rel)))%string.
  rewrite (split_app_slash _ _ Hx). f_equal. by apply IH.
Qed.

Lemma unsplit_inj (rel rel' : list string) :
  rel ≠ [] → forallb validSegment rel = true →
  rel' ≠ [] → forallb validSegment rel' = true →
  Path.unsplit rel = Path.unsplit rel' → rel = rel'.
Proof.
  intros H1 H2 H3 H4 E.
  by rewrite <- (split_unsplit rel H1 H2), <- (split_unsplit rel' H3 H4), E.
Qed.

Lemma pushSeg_plain (stack : list string) (seg : string) :
  plainSegment seg → Path.pushSeg false stack seg = seg :: stack.
Proof.
  intros (H1 & H2 & H3). unfold Path.pushSeg.
  rewrite bool_decide_eq_false_2 by (intros [?|?]; done).
  by rewrite bool_decide_eq_false_2.
Qed.

Lemma pushSeg_keeps_plain (stack : list string) (seg : string) :
  Forall plainSegment stack → Forall plainSegment (Path.pushSeg false stack seg).
Proof.
  intros Hs. unfold Path.pushSeg.
  case_bool_decide as H1; [done|].
  case_bool_decide as H2.
  - destruct stack as [|top rest]; [done|].
    case_bool_decide; [done|]. by apply Forall_cons in Hs as [_ ?].
  - apply Forall_cons. split; [|done]. repeat split; naive_solver.
Qed.

Lemma fold_pushSeg_keeps_plain (segs stack : list string) :
  Forall plainSegment stack →
  Forall plainSegment (fold_left (Path.pushSeg false) segs stack).
Proof.
  revert stack. induction segs as [|s segs IH]; intros stack Hs; simpl; [done|].
  apply IH. by apply pushSeg_keeps_plain.
Qed.

Lemma fold_pushSeg_plain (segs stack : list string) :
  Forall plainSegment segs →
  fold_left (Path.pushSeg false) segs stack = rev segs ++ stack.
Proof.
  revert stack. induction segs as [|s segs IH]; intros stack Hs; simpl; [done|].
  apply Forall_cons in Hs as [Hs Hsegs].
  rewrite pushSeg_plain, IH by done. by rewrite <- app_assoc.
Qed.

Lemma normSegs_plain_out (segs : list string) :
  Forall plainSegment (Path.normSegs false segs).
Proof.
  unfold Path.normSegs. apply Forall_rev. by apply fold_pushSeg_keeps_plain.
Qed.

Lemma normSegs_plain (segs : list string) :
  Forall plainSegment segs → Path.normSegs false segs = segs.
Proof.
  intros H. unfold Path.normSegs.
  by rewrite fold_pushSeg_plain, app_nil_r, rev_involutive.
Qed.

Lemma canon_plain_out (dir : list string) (p : string) :
  Forall plainSegment (Path.canon dir p).
Proof. unfold Path.canon. destruct (Path.isAbsolute p); apply normSegs_plain_out. Qed.

Lemma canon_absolute (dir : list string) (p : string) :
  Path.isAbsolute p = true → Path.canon dir p = Path.canon [] p.
Proof. unfold Path.canon. by intros ->. Qed.

(** A plain file name denotes the file of that name in the current
    directory. *)
Lemma canon_file (dir : list string) (file : string) :
  Forall plainSegment dir → plainSegment file → slashFree file = true →
  Path.canon dir file = dir ++ [file].
Proof.
  intros Hd Hf Hs. unfold Path.canon.
  assert (Path.isAbsolute file = false) as ->.
  { destruct file as [|c file]; [done|]. simpl in *.
    unfold slashFree in Hs. simpl in Hs. apply andb_true_iff in Hs as [Hc _].
    by destruct (isSlash c). }
  rewrite (split_slashFree _ Hs). apply normSegs_plain.
  apply Forall_app. split; [done|]. by apply Forall_singleton.
Qed.

(** ** What a glob finds *)

Lemma stripPrefix_Some (dir p rel : list string) :
  stripPrefix dir p = Some rel ↔ p = dir ++ rel.
Proof.
  revert p. induction dir as [|d dir IH]; intros p; simpl.
  - split; [by intros [= ->]|by intros ->].
  - destruct p as [|x p]; [by split|].
    case_bool_decide as Hd.
    + subst x. rewrite IH. split; [by intros ->|by intros [= ->]].
    + split; [done|]. intros [= ? _]. by subst.
Qed.

Section GlobFacts.

Variable X : Collaborators.

Lemma globEntry_Some (pattern : string) (dir : list string)
    (file : list string * string) (k : string) (f : File) :
  globEntry X pattern dir file = Some (k, f) ↔
  ∃ rel, file.1 = dir ++ rel ∧ rel ≠ [] ∧ forallb validSegment rel = true
         ∧ globMatch X pattern (Path.unsplit rel) = true
         ∧ k = Path.unsplit rel ∧ f = FileFsRef file.1.
Proof.
  unfold globEntry. destruct (stripPrefix dir file.1) as [rel|] eqn:E; simpl.
  - apply stripPrefix_Some in E.
    destruct (bool_decide (rel ≠ [])) eqn:E1;
      destruct (forallb validSegment rel) eqn:E2;
      destruct (globMatch X pattern (Path.unsplit rel)) eqn:E3; simpl;
      try apply bool_decide_eq_true in E1; try apply bool_decide_eq_false in E1.
    1: { split.
         - intros [= <- <-]. by exists rel.
         - intros (rel' & E' & _ & _ & _ & -> & ->). rewrite E in E'.
           by apply app_inv_head in E' as <-. }
    all: split; [done|]; intros (rel' & E' & ? & ? & ? & _ & _);
      rewrite E in E'; apply app_inv_head in E' as <-;
      first [ congruence | contradiction ].
  - split; [done|]. intros (rel & E' & _).
    apply stripPrefix_Some in E'. congruence.
Qed.

Lemma globFiles_Some (pattern : string) (dir : list string) (disk : FS)
    (r : string) (f : File) :
  globFiles X pattern dir disk !! r = Some f →
  ∃ rel, r = Path.unsplit rel ∧ rel ≠ [] ∧ forallb validSegment rel = true
         ∧ globMatch X pattern r = true
         ∧ is_Some (disk !! (dir ++ rel)) ∧ f = FileFsRef (dir ++ rel).
Proof.
  unfold globFiles. intros H%elem_of_list_to_map_2.
  apply list_elem_of_omap in H as ([p data] & Hin & Hentry).
  apply elem_of_map_to_list in Hin.
  apply globEntry_Some in Hentry as (rel & E & ? & ? & ? & -> & ->).
  simpl in E. subst p. exists rel. by repeat split.
Qed.

Lemma globFiles_intro (pattern : string) (dir : list string) (disk : FS)
    (rel : list string) :
  rel ≠ [] → forallb validSegment rel = true →
  globMatch X pattern (Path.unsplit rel) = true →
  is_Some (disk !! (dir ++ rel)) →
  globFiles X pattern dir disk !! Path.unsplit rel = Some (FileFsRef (dir ++ rel)).
Proof.
  intros Hne Hv Hm [data Hd].
  destruct (globFiles X pattern dir disk !! Path.unsplit rel) as [f|] eqn:E.
  - apply globFiles_Some in E as (rel' & E' & ? & ? & _ & _ & ->).
    by rewrite (unsplit_inj rel rel').
  - exfalso. unfold globFiles in E. apply not_elem_of_list_to_map_2 in E.
    apply E. apply list_elem_of_fmap.
    exists (Path.unsplit rel, FileFsRef (dir ++ rel)). split; [done|].
    apply list_elem_of_omap. exists (dir ++ rel, data). split.
    + by apply elem_of_map_to_list.
    + apply globEntry_Some. by exists rel.
Qed.

(** What a key refers to does not depend on the pattern that found it. *)
Lemma globFiles_agree (p p' : string) (dir : list string) (disk : FS)
    (r : string) (f f' : File) :
  globFiles X p dir disk !! r = Some f →
  globFiles X p' dir disk !! r = Some f' → f = f'.
Proof.
  intros (rel & E & ? & ? & _ & _ & ->)%globFiles_Some
         (rel' & E' & ? & ? & _ & _ & ->)%globFiles_Some.
  subst r. by rewrite (unsplit_inj rel rel').
Qed.

Lemma globFiles_empty (pattern : string) (dir : list string) (disk : FS) :
  (∀ r, globMatch X pattern r = false) → globFiles X pattern dir disk = ∅.
Proof.
  intros H. apply map_eq. intros r. rewrite lookup_empty.
  destruct (globFiles X pattern dir disk !! r) as [f|] eqn:E; [|done].
  apply globFiles_Some in E as (rel & _ & _ & _ & Hm & _). by rewrite H in Hm.
Qed.

Lemma glob_run (pattern dir : string) (w : World) :
  Path.isAbsolute dir = true →
  glob X pattern dir w =
    (addEvent (EvGlob pattern dir) w,
     inr (globFiles X pattern (Path.canon [] dir) (fs w))).
Proof. intros H. unfold glob. rewrite H. reflexivity. Qed.

Lemma glob_inr (pattern dir : string) (w w' : World) (found : FileSet) :
  glob X pattern dir w = (w', inr found) →
  Path.isAbsolute dir = true
  ∧ w' = addEvent (EvGlob pattern dir) w
  ∧ found = globFiles X pattern (Path.canon [] dir) (fs w).
Proof.
  unfold glob. destruct (Path.isAbsolute dir) eqn:E.
  - by intros [= <- <-].
  - discriminate.
Qed.

End GlobFacts.

(** ** Runs that return *)

Ltac bind_inv H w x Hx :=
  apply bind_inr in H as (w & x & Hx & H); cbv beta in H.

Lemma ret_inr {A} (a b : A) (w w' : World) :
  (mret a : M A) w = (w', inr b) → w' = w ∧ b = a.
Proof. by intros [= <- <-]. Qed.

Lemma gets_inr {A} (f : World → A) (a : A) (w w' : World) :
  gets f w = (w', inr a) → w' = w ∧ a = f w.
Proof. by intros [= <- <-]. Qed.

Lemma orThrow_inr {A} (x : option A) (e : BuildError) (a : A) (w w' : World) :
  orThrow x e w = (w', inr a) → w' = w ∧ x = Some a.
Proof. destruct x; [by intros [= <- <-]|discriminate]. Qed.

Lemma modify_inr (f : World → World) (w w' : World) (u : unit) :
  modify f w = (w', inr u) → w' = f w.
Proof. by intros [= <-]. Qed.

Lemma emit_inr (e : Event) (w w' : World) (u : unit) :
  emit e w = (w', inr u) → w' = addEvent e w.
Proof. by intros [= <-]. Qed.

Section Returns.

Variable X : Collaborators.
Variable proc : Process.

Lemma mergedOver_keeps (dir : list string) (disk : FS) (patterns : list string)
    (launcherFiles : FileSet) (r : string) (f : File) :
  launcherFiles !! r = Some f →
  (∀ q f', q ∈ patterns → globFiles X q dir disk !! r = Some f' → f' = f) →
  mergedOver X dir disk patterns launcherFiles !! r = Some f.
Proof.
  unfold mergedOver. revert launcherFiles.
  induction patterns as [|q qs IH]; intros lf Hlf Hsame; simpl; [done|].
  apply IH.
  - destruct (globFiles X q dir disk !! r) as [f'|] eqn:E.
    + rewrite (lookup_union_Some_l _ _ _ _ E). f_equal.
      apply (Hsame q); [by left|done].
    + by rewrite lookup_union_r.
  - intros q' f' Hq'. apply Hsame. by right.
Qed.

(** The merged file set holds every file that any of the patterns finds. *)
Lemma mergedOver_contains (dir : list string) (disk : FS) (patterns : list string)
    (launcherFiles : FileSet) (p r : string) (f : File) :
  p ∈ patterns → globFiles X p dir disk !! r = Some f →
  mergedOver X dir disk patterns launcherFiles !! r = Some f.
Proof.
  unfold mergedOver. revert launcherFiles.
  induction patterns as [|q qs IH]; intros lf Hp Hf; [by apply elem_of_nil in Hp|].
  simpl. apply elem_of_cons in Hp as [->|Hp]; [|by apply IH].
  apply (mergedOver_keeps dir disk qs).
  - by apply lookup_union_Some_l.
  - intros q' f' _ Hf'. by apply (globFiles_agree X q' q dir disk r).
Qed.

Lemma mergeServerFiles_inr (dir : string) (patterns : list string)
    (launcherFiles merged : FileSet) (w w' : World) :
  mergeServerFiles X dir patterns launcherFiles w = (w', inr merged) →
  fs w' = fs w
  ∧ merged = mergedOver X (Path.canon [] dir) (fs w) patterns launcherFiles
  ∧ (patterns ≠ [] → Path.isAbsolute dir = true).
Proof.
  revert launcherFiles w. induction patterns as [|p ps IH]; intros lf w H; simpl in H.
  - apply ret_inr in H as [-> ->]. by repeat split.
  - bind_inv H w1 found Hg. apply glob_inr in Hg as (Habs & -> & ->).
    apply IH in H as (Hfs & -> & _). by repeat split.
Qed.

Lemma createZip_Some (members : FileSet) (disk : FS) (z : gmap string string)
    (r : string) (f : File) :
  createZip members disk = Some z → members !! r = Some f →
  z !! r = fileContent disk f ∧ is_Some (z !! r).
Proof.
  unfold createZip. case_bool_decide as Hall; [|done]. intros [= <-] Hf.
  rewrite lookup_omap, Hf. simpl. split; [done|]. by apply (Hall r f).
Qed.

Lemma createLambda_inr (members : FileSet) (h r : string)
    (e : list (string * string)) (d mem : option N) (lam : Lambda.t) (w w' : World) :
  createLambda members h r e d mem w = (w', inr lam) →
  fs w' = fs w ∧ createZip members (fs w) = Some (Lambda.zipBuffer lam).
Proof.
  unfold createLambda. intros H.
  bind_inv H w1 u1 H1. apply emit_inr in H1 as ->.
  bind_inv H w2 disk H2. apply gets_inr in H2 as [-> ->].
  bind_inv H w3 z H3. apply orThrow_inr in H3 as [-> Hz].
  apply ret_inr in H as [-> ->]. by split.
Qed.

(** What [packageLambda] returns: the archive of a file set that holds
    everything the patterns of [serverFilesOf] find below the entry path. *)
Lemma packageLambda_inr (opts : BuildOptions) (paths : Paths) (prep : Prepared)
    (nb : NuxtBuild) (dep : NuxtDep) (sd nm : FileSet) (lam : Lambda.t)
    (w w' : World) :
  packageLambda X proc opts paths prep nb dep sd nm w = (w', inr lam) →
  fs w' = fs w
  ∧ Path.isAbsolute (entrypointPath paths) = true
  ∧ ∃ merged,
      createZip merged (fs w) = Some (Lambda.zipBuffer lam)
      ∧ ∀ p r f, p ∈ serverFilesOf (config opts) →
          globFiles X p (Path.canon [] (entrypointPath paths)) (fs w) !! r = Some f →
          merged !! r = Some f.
Proof.
  unfold packageLambda. cbv zeta. intros H.
  bind_inv H w1 template H1. pose proof (fs_readFile _ _ _ _ H1) as F1.
  bind_inv H w2 cwd0 H2. apply gets_inr in H2 as [-> ->].
  bind_inv H w3 merged H3.
  apply mergeServerFiles_inr in H3 as (F3 & -> & Habs).
  apply createLambda_inr in H as (F4 & Hz).
  rewrite F4, F3, F1. split; [done|]. split.
  - apply Habs. unfold serverFilesOf. intros E. by apply app_eq_nil in E as [_ [_ ?]%app_eq_nil].
  - eexists. split; [rewrite <- F1, <- F3; exact Hz|].
    intros p r f Hp Hf. rewrite <- F1 in Hf. by apply (mergedOver_contains _ _ _ _ p).
Qed.

Lemma call_inr {A} (who : string) (f : list string → FS → option (A * FS))
    (a : A) (w w' : World) :
  call who f w = (w', inr a) →
  ∃ disk, f (cwd w) (fs w) = Some (a, disk) ∧ w' = setFs disk w.
Proof.
  unfold call. intros H.
  bind_inv H w1 dir H1. apply gets_inr in H1 as [-> ->].
  bind_inv H w2 disk H2. apply gets_inr in H2 as [-> ->].
  bind_inv H w3 x H3. apply orThrow_inr in H3 as [-> Hf]. destruct x as [a' disk'].
  bind_inv H w4 u H4. apply modify_inr in H4 as ->.
  apply ret_inr in H as [-> ->]. by exists disk'.
Qed.

Lemma query_Some {A} (f : list string → FS → option A) (dir : list string)
    (disk disk' : FS) (a : A) :
  query f dir disk = Some (a, disk') → f dir disk = Some a ∧ disk' = disk.
Proof. unfold query. destruct (f dir disk); simpl; [by intros [= <- <-]|done]. Qed.

Lemma effect_Some (f : list string → FS → option FS) (dir : list string)
    (disk disk' : FS) (u : unit) :
  effect f dir disk = Some (u, disk') → f dir disk = Some disk'.
Proof. unfold effect. destruct (f dir disk); simpl; [by intros [= _ <-]|done]. Qed.

Lemma chdir_inr (dir : string) (w w' : World) (u : unit) :
  chdir dir w = (w', inr u) → cwd w' = Path.canon (cwd w) dir ∧ fs w' = fs w.
Proof. unfold chdir. by intros [= <-]. Qed.

Lemma writeFile_inr (file data : string) (w w' : World) (u : unit) :
  writeFile file data w = (w', inr u) →
  fs w' = <[Path.canon (cwd w) file := data]> (fs w) ∧ cwd w' = cwd w.
Proof. unfold writeFile. by intros [= <-]. Qed.

Lemma unlink_inr (file : string) (w w' : World) (u : unit) :
  unlink file w = (w', inr u) →
  fs w' = delete (Path.canon (cwd w) file) (fs w) ∧ cwd w' = cwd w.
Proof.
  unfold unlink. intros H.
  bind_inv H w1 u1 H1. apply emit_inr in H1 as ->.
  bind_inv H w2 q H2. apply gets_inr in H2 as [-> ->].
  bind_inv H w3 disk H3. apply gets_inr in H3 as [-> ->].
  bind_inv H w4 x H4. apply orThrow_inr in H4 as [-> _].
  by injection H as <-.
Qed.

Lemma install_inr (pass : InstallPass) (dir : string) (args : list string)
    (o : SpawnOptions) (m : Meta) (w w' : World) (u : unit) :
  install X pass dir args o m w = (w', inr u) →
  cwd w' = cwd w
  ∧ runNpmInstall X dir args o m (cwd w) (fs w) = Some (fs w').
Proof.
  unfold install. intros H.
  bind_inv H w1 u1 H1. apply emit_inr in H1 as ->.
  bind_inv H w2 u2 H2. apply call_inr in H2 as (disk & Hf%effect_Some & ->).
  apply emit_inr in H as ->. by split.
Qed.

Lemma prepareWorkspace_inr (opts : BuildOptions) (paths : Paths)
    (w w' : World) (u : unit) :
  prepareWorkspace X opts paths w = (w', inr u) →
  validateEntrypoint X (entrypoint opts) = true
  ∧ cwd w' = Path.canon (Path.canon (cwd w) (rootPath paths)) (entrypointPath paths).
Proof.
  unfold prepareWorkspace. intros H.
  bind_inv H w1 u1 H1. pose proof (cwd_startStep _ _ _ _ H1) as C1.
  bind_inv H w2 u2 H2.
  destruct (validateEntrypoint X (entrypoint opts)); [|discriminate].
  apply ret_inr in H2 as [-> _].
  bind_inv H w3 u3 H3. pose proof (cwd_emit _ _ _ _ H3) as C3.
  bind_inv H w4 u4 H4. pose proof (cwd_call _ _ _ _ _ H4) as C4.
  bind_inv H w5 u5 H5. apply chdir_inr in H5 as [C5 _].
  bind_inv H w6 u6 H6.
  assert (cwd w6 = cwd w5) as C6.
  { destruct (NuxtBuilderConfig.buildFiles (config opts)).
    - bind_inv H6 w7 u7 H7. rewrite (cwd_call _ _ _ _ _ H6).
      apply (cwd_emit _ _ _ _ H7).
    - by apply ret_inr in H6 as [-> _]. }
  apply chdir_inr in H as [C7 _].
  split; [done|]. by rewrite C7, C6, C5, C4, C3, C1.
Qed.

Lemma nuxtBuild_inr (opts : BuildOptions) (paths : Paths) (prep : Prepared)
    (nb : NuxtBuild) (w w' : World) :
  nuxtBuild X opts paths prep w = (w', inr nb) →
  ∃ dir disk nuxtConfigFile,
    getNuxtConfig X (entrypointPath paths) "nuxt.config.js" dir disk
      = Some nuxtConfigFile
    ∧ lambdaName nb = orElse (NuxtConfig.lambdaName nuxtConfigFile) "index"
    ∧ publicPath nb
      = stripLeadingSlash (orElse (NuxtConfig.build_publicPath nuxtConfigFile) "/_nuxt/")
    ∧ staticDir nb = orElse (NuxtConfig.dir_static nuxtConfigFile) "static"
    ∧ nuxtConfigName nb = "nuxt.config.js".
Proof.
  unfold nuxtBuild. cbv zeta. intros H.
  bind_inv H w1 u1 H1.
  bind_inv H w2 compiled H2.
  bind_inv H w3 cfg H3. apply call_inr in H3 as (disk & [Hc _]%query_Some & _).
  bind_inv H w4 cwd0 H4.
  bind_inv H w5 u5 H5.
  bind_inv H w6 u6 H6.
  apply ret_inr in H as [_ ->]. simpl.
  exists (cwd w2), (fs w2), cfg. by repeat split.
Qed.

(** What the production install stage leaves behind. *)
Lemma installDependencies_inr (opts : BuildOptions) (paths : Paths)
    (prep : Prepared) (dep : NuxtDep) (w w' : World) :
  installDependencies X proc opts paths prep w = (w', inr dep) →
  cwd w' = cwd w
  ∧ ∃ pkg' args o disk0 disk2,
      preparePkgForProd X (pkg prep) = Some (pkg', dep)
      ∧ runNpmInstall X (entrypointPath paths) args o (meta opts) (cwd w)
          (<[Path.canon (cwd w) "package.json" := stringifyJSON X pkg']> disk0)
        = Some disk2
      ∧ fs w' = (if hasToken proc
                 then delete (Path.canon (cwd w) ".npmrc") disk2
                 else disk2).
Proof.
  intros H. pose proof (cwd_installDependencies X proc _ _ _ _ _ _ H) as C.
  split; [done|]. revert H. unfold installDependencies, writeJSON. intros H.
  bind_inv H w1 u1 H1. pose proof (cwd_startStep _ _ _ _ H1) as C1.
  bind_inv H w2 u2 H2. pose proof (cwd_namespaceModules X _ _ _ _ _ H2) as C2.
  bind_inv H w3 u3 H3. apply emit_inr in H3 as ->.
  bind_inv H w4 x H4. apply orThrow_inr in H4 as [-> Hprune].
  destruct x as [pkg' dep'].
  bind_inv H w5 u5 H5. apply writeFile_inr in H5 as [F5 C5].
  bind_inv H w6 u6 H6. apply install_inr in H6 as [C6 F6].
  cbv zeta in H.
  bind_inv H w7 dir H7. apply gets_inr in H7 as [-> ->].
  bind_inv H w8 disk H8. apply gets_inr in H8 as [-> ->].
  bind_inv H w9 detected H9. apply orThrow_inr in H9 as [-> _].
  bind_inv H w10 u10 H10.
  pose proof (fs_validateNuxtVersion _ _ _ _ H10) as F10.
  pose proof (cwd_validateNuxtVersion _ _ _ _ H10) as C10.
  bind_inv H w11 u11 H11.
  apply ret_inr in H as [-> ->].
  simpl in F5, C5. rewrite C2, C1 in F5. rewrite C5 in F6. simpl in F6.
  rewrite C2, C1, F5 in F6.
  eexists pkg', _, _, (fs w2), (fs w6). split; [done|]. split; [exact F6|].
  unfold when in H11. destruct (hasToken proc).
  - apply unlink_inr in H11 as [F11 _].
    by rewrite F11, F10, C10, C6, C5, C2, C1.
  - apply ret_inr in H11 as [-> _]. by rewrite F10.
Qed.

(** What the last stage returns: the routes of [synthRoutes], and an
    output that spreads the one function package and then the collected
    files. *)
Lemma collectArtifacts_inr (opts : BuildOptions) (paths : Paths) (prep : Prepared)
    (nb : NuxtBuild) (dep : NuxtDep) (out : BuilderOutput) (w w' : World) :
  collectArtifacts X proc opts paths prep nb dep w = (w', inr out) →
  fs w' = fs w
  ∧ Path.isAbsolute (entrypointPath paths) = true
  ∧ ∃ staticFiles clientDistFiles generatedPagesFiles lam merged,
      out = mkBuilderOutput
              (outputOf {[lambdaName nb := lam]} clientDistFiles staticFiles
                 generatedPagesFiles)
              (synthRoutes X (publicPath nb) staticFiles)
      ∧ staticFiles
        = globFiles X "**"
            (Path.canon [] (Path.join [entrypointPath paths; srcDir nb; staticDir nb]))
            (fs w)
      ∧ createZip merged (fs w) = Some (Lambda.zipBuffer lam)
      ∧ ∀ p r f, p ∈ serverFilesOf (config opts) →
          globFiles X p (Path.canon [] (entrypointPath paths)) (fs w) !! r = Some f →
          merged !! r = Some f.
Proof.
  intros H. pose proof (fs_collectArtifacts X proc _ _ _ _ _ _ _ _ H) as F.
  split; [done|]. revert H. unfold collectArtifacts. cbv zeta. intros H.
  bind_inv H w1 u1 H1. pose proof (fs_startStep _ _ _ _ H1) as F1.
  bind_inv H w2 staticFiles H2. pose proof (fs_glob X _ _ _ _ _ H2) as F2.
  apply glob_inr in H2 as (_ & _ & Hs).
  bind_inv H w3 clientDistFiles H3.
  pose proof (fs_globAndPrefix X _ _ _ _ _ _ H3) as F3.
  bind_inv H w4 serverDistFiles H4.
  pose proof (fs_globAndPrefix X _ _ _ _ _ _ H4) as F4.
  bind_inv H w5 generatedPagesFiles H5.
  assert (fs w5 = fs w4) as F5.
  { destruct (NuxtBuilderConfig.generateStaticRoutes (config opts)).
    - apply (fs_globAndPrefix X _ _ _ _ _ _ H5).
    - by apply ret_inr in H5 as [-> _]. }
  bind_inv H w6 nodeModules H6.
  pose proof (fs_globAndPrefix X _ _ _ _ _ _ H6) as F6.
  bind_inv H w7 lam H7.
  apply packageLambda_inr in H7 as (F7 & Habs & merged & Hz & Hm).
  bind_inv H w8 u8 H8.
  apply ret_inr in H as [-> ->].
  assert (fs w6 = fs w) as F' by (by rewrite F6, F5, F4, F3, F2, F1).
  split; [done|].
  exists staticFiles, clientDistFiles, generatedPagesFiles, lam, merged.
  rewrite F' in Hz, Hm. rewrite F1 in Hs. by repeat split.
Qed.

(** The stages of a run that returns. *)
Lemma build_inr (opts : BuildOptions) (out : BuilderOutput) (w w' : World) :
  build X proc opts w = (w', inr out) →
  let paths := resolvePaths (workPath opts) (entrypoint opts) in
  ∃ pkg0 prep nb dep w1 w2 w3 w4 w5 w6 w7,
    prepareWorkspace X opts paths w = (w1, inr tt)
    ∧ readManifest X paths w1 = (w2, inr pkg0)
    ∧ prepareEnvironment X proc opts paths pkg0 w2 = (w3, inr prep)
    ∧ installDevDependencies X opts paths prep w3 = (w4, inr tt)
    ∧ preBuild X paths prep w4 = (w5, inr tt)
    ∧ nuxtBuild X opts paths prep w5 = (w6, inr nb)
    ∧ installDependencies X proc opts paths prep w6 = (w7, inr dep)
    ∧ collectArtifacts X proc opts paths prep nb dep w7 = (w', inr out).
Proof.
  unfold build. cbv zeta. intros H.
  bind_inv H w1 u1 H1. bind_inv H w2 pkg0 H2. bind_inv H w3 prep H3.
  bind_inv H w4 u4 H4. bind_inv H w5 u5 H5. bind_inv H w6 nb H6.
  bind_inv H w7 dep H7. destruct u1, u4, u5.
  by exists pkg0, prep, nb, dep, w1, w2, w3, w4, w5, w6, w7.
Qed.

End Returns.

(** ** C2: the shape of the route table *)

Lemma keys_NoDup {A} (m : gmap string A) : NoDup (keys m).
Proof. apply NoDup_fst_map_to_list. Qed.

Lemma elem_of_keys {A} (m : gmap string A) (k : string) :
  k ∈ keys m ↔ is_Some (m !! k).
Proof.
  unfold keys. rewrite list_elem_of_fmap. split.
  - intros ([k' a] & -> & Hin). apply elem_of_map_to_list in Hin. by exists a.
  - intros [a Ha]. exists (k, a). split; [done|]. by apply elem_of_map_to_list.
Qed.

Lemma insertKey_Permutation (before : string → string → bool) (k : string)
    (l : list string) :
  insertKey before k l ≡ₚ k :: l.
Proof.
  induction l as [|x l IH]; simpl; [done|].
  destruct (before k x); [done|]. rewrite IH. apply Permutation_swap.
Qed.

Lemma sortKeys_Permutation (before : string → string → bool) (l : list string) :
  sortKeys before l ≡ₚ l.
Proof.
  induction l as [|x l IH]; simpl; [done|].
  by rewrite insertKey_Permutation, IH.
Qed.

(** [Object.keys] lists each key of the file set once. *)
Lemma objectKeys_Permutation (X : Collaborators) (o : FileSet) :
  objectKeys X o ≡ₚ keys o.
Proof. apply sortKeys_Permutation. Qed.

Lemma objectKeys_NoDup (X : Collaborators) (o : FileSet) : NoDup (objectKeys X o).
Proof. rewrite objectKeys_Permutation. apply keys_NoDup. Qed.

Lemma elem_of_objectKeys (X : Collaborators) (o : FileSet) (k : string) :
  k ∈ objectKeys X o ↔ is_Some (o !! k).
Proof. rewrite objectKeys_Permutation. apply elem_of_keys. Qed.

Lemma synthRoutes_positions (X : Collaborators) (publicPath : string)
    (staticFiles : FileSet) :
  let rs := synthRoutes X publicPath staticFiles in
  let n := length (objectKeys X staticFiles) in
  length rs = 3 + n
  ∧ rs !! 0 = Some (cacheRule ("/" ++ publicPath ++ ".+")%string)
  ∧ (∀ i file, objectKeys X staticFiles !! i = Some file →
       rs !! (S i) = Some (cacheRule ("/" ++ file)%string))
  ∧ rs !! (S n) = Some filesystemDirective
  ∧ rs !! (S (S n)) = Some catchAllRule
  ∧ (∀ i, rs !! i = Some filesystemDirective → i = S n)
  ∧ (∀ j, rs !! j = Some catchAllRule → j = S (S n)).
Proof.
  intros rs n. subst rs n. unfold synthRoutes.
  set (ks := objectKeys X staticFiles).
  set (f := λ file, cacheRule ("/" ++ file)%string).
  assert (∀ i r, map f ks !! i = Some r → r ≠ filesystemDirective ∧ r ≠ catchAllRule)
    as Hmid.
  { intros i r Hr. change (map f ks) with (f <$> ks) in Hr.
    apply list_lookup_fmap_Some in Hr as (file & -> & _). by split. }
  assert (length (map f ks) = length ks) as Hlen by apply length_map.
  repeat split.
  - simpl. rewrite length_app, Hlen. simpl. lia.
  - intros i file Hi. simpl. rewrite lookup_app_l.
    + change (map f ks) with (f <$> ks). by rewrite list_lookup_fmap, Hi.
    + rewrite Hlen. by apply lookup_lt_Some in Hi.
  - simpl. rewrite lookup_app_r by lia. by rewrite Hlen, Nat.sub_diag.
  - simpl. rewrite lookup_app_r by lia. rewrite Hlen.
    by replace (S (length ks) - length ks) with 1 by lia.
  - intros [|i]; [done|]. simpl. intros Hi.
    destruct (decide (i < length ks)) as [Hlt|Hge].
    + rewrite lookup_app_l in Hi by lia. by apply Hmid in Hi as [? _].
    + rewrite lookup_app_r in Hi by lia. rewrite Hlen in Hi.
      destruct (i - length ks) as [|[|k]] eqn:E; simpl in Hi; [lia|done|done].
  - intros [|j]; [done|]. simpl. intros Hj.
    destruct (decide (j < length ks)) as [Hlt|Hge].
    + rewrite lookup_app_l in Hj by lia. by apply Hmid in Hj as [_ ?].
    + rewrite lookup_app_r in Hj by lia. rewrite Hlen in Hj.
      destruct (j - length ks) as [|[|k]] eqn:E; simpl in Hj; [done|lia|done].
Qed.

(** What a returning [nuxtBuild] hands on, in terms of the configuration
    [getNuxtConfig] returned. *)
Lemma nuxtBuild_config (X : Collaborators) (opts : BuildOptions) (paths : Paths)
    (prep : Prepared) (nb : NuxtBuild) (w w' : World) :
  nuxtBuild X opts paths prep w = (w', inr nb) →
  ∃ disk cfg,
    getNuxtConfig X (entrypointPath paths) "nuxt.config.js" (cwd w) disk = Some cfg
    ∧ publicPath nb
      = stripLeadingSlash (orElse (NuxtConfig.build_publicPath cfg) "/_nuxt/")
    ∧ staticDir nb = orElse (NuxtConfig.dir_static cfg) "static"
    ∧ srcDir nb
      = match NuxtConfig.srcDir cfg with
        | Some d => if truthy d then Path.relative (cwd w) (entrypointPath paths) d
                    else "."
        | None => "."
        end
    ∧ buildDir nb
      = match NuxtConfig.buildDir cfg with
        | Some d => if truthy d then Path.relative (cwd w) (entrypointPath paths) d
                    else ".nuxt"
        | None => ".nuxt"
        end.
Proof.
  unfold nuxtBuild. cbv zeta. intros H.
  bind_inv H w1 u1 H1. pose proof (cwd_startStep _ _ _ _ H1) as C1.
  bind_inv H w2 compiled H2.
  assert (cwd w2 = cwd w1) as C2.
  { destruct (needsTypescriptBuild prep).
    - bind_inv H2 w2' u2 H2a. rewrite (cwd_call _ _ _ _ _ H2).
      apply (cwd_emit _ _ _ _ H2a).
    - by apply ret_inr in H2 as [-> _]. }
  bind_inv H w3 cfg H3. apply call_inr in H3 as (disk & [Hc _]%query_Some & ->).
  bind_inv H w4 cwd0 H4. apply gets_inr in H4 as [-> ->].
  bind_inv H w5 u5 H5. bind_inv H w6 u6 H6.
  apply ret_inr in H as [_ ->]. simpl.
  rewrite C2, C1 in Hc. exists (fs w2), cfg. split; [done|].
  rewrite C2, C1. by repeat split.
Qed.

(** C2.  The route table of every build that returns is, in this order:
    the cache rule for the public-asset prefix, which is [build.publicPath]
    of the configuration [getNuxtConfig] returned for [nuxt.config.js] of
    the entry directory, called in the working directory of the run
    ([/_nuxt/] when it has none) less its leading slash; one cache rule for each file [glob]
    finds below the static directory of that configuration, in the order
    of [Object.keys], each file once and no other path; the filesystem
    directive; and the catch-all rule.  The filesystem directive occurs at
    one index only, the catch-all rule at the next, so the first index is
    strictly below the second. *)
Theorem route_table_shape (X : Collaborators) (proc : Process)
    (opts : BuildOptions) (w w' : World) (out : BuilderOutput) :
  build X proc opts w = (w', inr out) →
  let paths := resolvePaths (workPath opts) (entrypoint opts) in
  ∃ disk cfg,
    getNuxtConfig X (entrypointPath paths) "nuxt.config.js" (cwd w') disk
    = Some cfg
    ∧ let publicPath :=
        stripLeadingSlash (orElse (NuxtConfig.build_publicPath cfg) "/_nuxt/") in
      let srcDir :=
        match NuxtConfig.srcDir cfg with
        | Some d => if truthy d
                    then Path.relative (cwd w') (entrypointPath paths) d
                    else "."
        | None => "."
        end in
      let staticDir := orElse (NuxtConfig.dir_static cfg) "static" in
      let staticRoot :=
        Path.canon [] (Path.join [entrypointPath paths; srcDir; staticDir]) in
      let staticFiles := globFiles X "**" staticRoot (fs w') in
      routes out =
        [cacheRule ("/" ++ publicPath ++ ".+")%string]
        ++ map (λ file, cacheRule ("/" ++ file)%string) (objectKeys X staticFiles)
        ++ [filesystemDirective; catchAllRule]
      ∧ NoDup (objectKeys X staticFiles)
      ∧ (∀ file,
           file ∈ objectKeys X staticFiles ↔
           ∃ rel, file = Path.unsplit rel ∧ rel ≠ []
                  ∧ forallb validSegment rel = true
                  ∧ globMatch X "**" file = true
                  ∧ is_Some (fs w' !! (staticRoot ++ rel)))
      ∧ ∀ i j, routes out !! i = Some filesystemDirective →
               routes out !! j = Some catchAllRule →
               i = S (length (objectKeys X staticFiles)) ∧ j = S i ∧ i < j.
Proof.
  intros H paths. apply build_inr in H as (pkg0 & prep & nb & dep & w1 & w2 & w3
    & w4 & w5 & w6 & w7 & _ & _ & _ & _ & _ & H6 & H7 & H8).
  fold paths in H6, H7, H8.
  pose proof (cwd_nuxtBuild X _ _ _ _ _ _ H6) as C6.
  pose proof (cwd_installDependencies X proc _ _ _ _ _ _ H7) as C7.
  pose proof (cwd_collectArtifacts X proc _ _ _ _ _ _ _ _ H8) as C8.
  apply nuxtBuild_config in H6 as (disk & cfg & Hc & Hp & Hst & Hsrc & _).
  apply collectArtifacts_inr in H8
    as (F & _ & staticFiles & client & generated & lam & merged & -> & Hs & _).
  exists disk, cfg. split; [by rewrite C8, C7, C6|]. cbv zeta.
  rewrite C8, C7, C6, <- Hp, <- Hsrc, <- Hst, F, <- Hs.
  split; [done|]. split; [apply objectKeys_NoDup|]. split.
  - intros file. rewrite elem_of_objectKeys. split.
    + intros [f Hf]. rewrite Hs in Hf.
      apply globFiles_Some in Hf as (rel & -> & ? & ? & ? & ? & _).
      by exists rel.
    + intros (rel & -> & Hne & Hv & Hm & Hfile). rewrite Hs. eexists.
      by apply globFiles_intro.
  - simpl. intros i j Hi Hj.
    destruct (synthRoutes_positions X (publicPath nb) staticFiles)
      as (_ & _ & _ & _ & _ & Hfs & Hca).
    apply Hfs in Hi. apply Hca in Hj. lia.
Qed.

Lemma route_table_shape_witness :
  ∃ out, Fixture.plainRun = (Fixture.plainRun.1, inr out)
    ∧ let X := Fixture.collaborators "2.14.12" Fixture.defaultNuxtConfig in
      let w' := Fixture.plainRun.1 in
      let paths := resolvePaths "/work" "apps/web/package.json" in
      ∃ disk cfg,
        getNuxtConfig X (entrypointPath paths) "nuxt.config.js" (cwd w') disk
        = Some cfg
        ∧ let publicPath :=
            stripLeadingSlash (orElse (NuxtConfig.build_publicPath cfg) "/_nuxt/") in
          let srcDir :=
            match NuxtConfig.srcDir cfg with
            | Some d => if truthy d
                        then Path.relative (cwd w') (entrypointPath paths) d
                        else "."
            | None => "."
            end in
          let staticDir := orElse (NuxtConfig.dir_static cfg) "static" in
          let staticRoot :=
            Path.canon [] (Path.join [entrypointPath paths; srcDir; staticDir]) in
          let staticFiles := globFiles X "**" staticRoot (fs w') in
          routes out =
            [cacheRule ("/" ++ publicPath ++ ".+")%string]
            ++ map (λ file, cacheRule ("/" ++ file)%string) (objectKeys X staticFiles)
            ++ [filesystemDirective; catchAllRule]
          ∧ NoDup (objectKeys X staticFiles)
          ∧ (∀ file,
               file ∈ objectKeys X staticFiles ↔
               ∃ rel, file = Path.unsplit rel ∧ rel ≠ []
                      ∧ forallb validSegment rel = true
                      ∧ globMatch X "**" file = true
                      ∧ is_Some (fs w' !! (staticRoot ++ rel)))
          ∧ ∀ i j, routes out !! i = Some filesystemDirective →
                   routes out !! j = Some catchAllRule →
                   i = S (length (objectKeys X staticFiles)) ∧ j = S i ∧ i < j.
Proof.
  destruct (returned Fixture.plainRun) as [out E]; [vm_compute; reflexivity|].
  exists out. split; [exact E|].
  exact (route_table_shape
           (Fixture.collaborators "2.14.12" Fixture.defaultNuxtConfig)
           Fixture.noToken (Fixture.options Fixture.defaultConfig)
           (initialWorld Fixture.disk []) _ _ E).
Defined.

(** The route table of the project with two static files, [index] and
    [favicon.ico]: the public prefix, the files in the order of
    [Object.keys], the filesystem directive, the catch-all rule. *)
Example routes_of_shadowRun :
  match Fixture.shadowRun.2 with
  | inr out =>
      routes out
      = [cacheRule "/_nuxt/.+"; cacheRule "/favicon.ico"; cacheRule "/index";
         filesystemDirective; catchAllRule]
  | inl _ => False
  end.
Proof. vm_compute. reflexivity. Qed.

(** ** C9 and C1: the function package and the catch-all rule *)




Section OutputFacts.

Variable X : Collaborators.
Variable proc : Process.

Lemma outputOf_collected (lambdas : gmap string Lambda.t)
    (clientDistFiles staticFiles generatedPagesFiles : FileSet) :
  outputOf lambdas clientDistFiles staticFiles generatedPagesFiles
  = (OutFile <$> (generatedPagesFiles ∪ (staticFiles ∪ clientDistFiles)))
    ∪ (OutLambda <$> lambdas).
Proof.
  unfold outputOf. by rewrite !map_fmap_union, <- !(assoc_L (∪)).
Qed.

Lemma overlay_lookup (collected : FileSet) (name k : string) (lam : Lambda.t) :
  ((OutFile <$> collected) ∪ (OutLambda <$> {[name := lam]})
     : gmap string OutputEntry) !! k
  = match collected !! k with
    | Some f => Some (OutFile f)
    | None => if decide (name = k) then Some (OutLambda lam) else None
    end.
Proof.
  rewrite lookup_union, lookup_fmap, lookup_fmap.
  destruct (collected !! k) as [f|]; simpl.
  - by destruct (OutLambda <$> ({[name := lam]} : gmap string Lambda.t) !! k).
  - rewrite lookup_singleton. by destruct (decide (name = k)).
Qed.


End OutputFacts.




(** C1 at [lambdaName: "api"]: the one function package is named [api],
    and the catch-all rule, the last route, still sends to [/index]. *)
Theorem api_catch_all_routes_to_index :
  match Fixture.apiRun.2 with
  | inr out =>
      functionPackages (output out) = ["api"]
      ∧ last (routes out) = Some catchAllRule
      ∧ dest catchAllRule = Some "/index"
      ∧ output out !! "index" = None
  | inl _ => False
  end.
Proof. vm_compute. repeat split; reflexivity. Qed.

(** The catch-all rule does not depend on the lambda name. *)
Lemma catch_all_is_last (X : Collaborators) (proc : Process)
    (opts : BuildOptions) (w w' : World) (out : BuilderOutput) :
  build X proc opts w = (w', inr out) → last (routes out) = Some catchAllRule.
Proof.
  intros H. apply build_inr in H as (pkg0 & prep & nb & dep & w1 & w2 & w3 & w4
    & w5 & w6 & w7 & _ & _ & _ & _ & _ & _ & _ & H).
  apply collectArtifacts_inr in H
    as (_ & _ & staticFiles & client & generated & lam & merged & -> & _).
  simpl. unfold synthRoutes.
  change [filesystemDirective; catchAllRule]
    with ([filesystemDirective] ++ [catchAllRule]).
  by rewrite !app_assoc, last_snoc.
Qed.

(** ** C6: the extra files of the function package *)

Lemma declared_in_serverFilesOf (config : NuxtBuilderConfig.t) (p : string) :
  p ∈ declaredPatterns config ++ ["package.json"] → p ≠ EmptyString →
  p ∈ serverFilesOf config.
Proof.
  unfold declaredPatterns, serverFilesOf. intros Hp Hne.
  rewrite <- app_assoc in Hp.
  destruct (NuxtBuilderConfig.includeFiles config) as [|s|l]; [done| |done].
  destruct s as [|c s]; [|done]. simpl in *.
  apply elem_of_cons in Hp as [->|Hp]; done.
Qed.

Lemma manifest_pattern_always (config : NuxtBuilderConfig.t) :
  "package.json" ∈ serverFilesOf config.
Proof. unfold serverFilesOf. rewrite !elem_of_app. right. right. by left. Qed.

(** The function package made by a build that returns, with what it holds
    of the workspace. *)
Lemma build_package (X : Collaborators) (proc : Process)
    (opts : BuildOptions) (w w' : World) (out : BuilderOutput) :
  build X proc opts w = (w', inr out) →
  let entry :=
    Path.canon [] (entrypointPath (resolvePaths (workPath opts) (entrypoint opts))) in
  ∃ lam,
    (∀ k l, output out !! k = Some (OutLambda l) → l = lam)
    ∧ ∀ pattern rel,
        pattern ∈ serverFilesOf (config opts) →
        rel ≠ [] → forallb validSegment rel = true →
        globMatch X pattern (Path.unsplit rel) = true →
        is_Some (fs w' !! (entry ++ rel)) →
        Lambda.zipBuffer lam !! Path.unsplit rel = fs w' !! (entry ++ rel).
Proof.
  intros H entry. apply build_inr in H as (pkg0 & prep & nb & dep & w1 & w2 & w3
    & w4 & w5 & w6 & w7 & _ & _ & _ & _ & _ & _ & _ & H).
  apply collectArtifacts_inr in H
    as (F & _ & staticFiles & client & generated & lam & merged & -> & _ & Hz & Hm).
  exists lam. split.
  - simpl. intros k l. rewrite outputOf_collected, overlay_lookup.
    destruct (_ !! k); [done|]. destruct (decide _); [|done]. by intros [= ->].
  - intros pattern rel Hp Hne Hv Hg Hf. rewrite F in Hf |- *.
    pose proof (globFiles_intro X pattern entry (fs w7) rel Hne Hv Hg Hf) as Hfound.
    apply (Hm pattern) in Hfound; [|done].
    by destruct (createZip_Some _ _ _ _ _ Hz Hfound) as [-> _].
Qed.

Lemma mergeServerFiles_skip (X : Collaborators) (dir pattern : string)
    (patterns : list string) (launcherFiles : FileSet) (v : World) :
  Path.isAbsolute dir = true →
  globFiles X pattern (Path.canon [] dir) (fs v) = ∅ →
  mergeServerFiles X dir (pattern :: patterns) launcherFiles v
  = mergeServerFiles X dir patterns launcherFiles (addEvent (EvGlob pattern dir) v).
Proof.
  intros Habs Hnone. simpl.
  rewrite (bind_ok _ _ _ _ _ (glob_run X pattern dir v Habs)).
  by rewrite Hnone, (left_id_L ∅ (∪)).
Qed.

(** C6.  In a build that returns, the archive of the function package
    holds, under its path relative to the entry path and with its content
    in the workspace, every file below the entry path that a pattern of
    [includeFiles] or [serverFiles], or the pattern [package.json],
    matches; each pattern is globbed on its own, and a pattern whose glob
    is empty leaves the merged set as it was and does not throw; the
    pattern [package.json] is in the list for every configuration.  (The
    empty pattern matches nothing, as in [glob].) *)
Theorem extra_files_bundled (X : Collaborators) (proc : Process)
    (opts : BuildOptions) (w w' : World) (out : BuilderOutput) :
  (∀ r, globMatch X EmptyString r = false) →
  build X proc opts w = (w', inr out) →
  let entry :=
    Path.canon [] (entrypointPath (resolvePaths (workPath opts) (entrypoint opts))) in
  (∃ lam,
     (∀ k l, output out !! k = Some (OutLambda l) → l = lam)
     ∧ ∀ pattern rel,
         pattern ∈ declaredPatterns (config opts) ++ ["package.json"] →
         rel ≠ [] → forallb validSegment rel = true →
         globMatch X pattern (Path.unsplit rel) = true →
         is_Some (fs w' !! (entry ++ rel)) →
         Lambda.zipBuffer lam !! Path.unsplit rel = fs w' !! (entry ++ rel))
  ∧ (∀ dir pattern patterns launcherFiles v,
       Path.isAbsolute dir = true →
       globFiles X pattern (Path.canon [] dir) (fs v) = ∅ →
       mergeServerFiles X dir (pattern :: patterns) launcherFiles v
       = mergeServerFiles X dir patterns launcherFiles
           (addEvent (EvGlob pattern dir) v))
  ∧ (∀ config, "package.json" ∈ serverFilesOf config).
Proof.
  intros Hempty H entry. split; [|split].
  - destruct (build_package X proc opts w w' out H) as (lam & Honly & Hfiles).
    exists lam. split; [done|]. intros pattern rel Hp Hne Hv Hg Hf.
    apply (Hfiles pattern rel); try done.
    apply declared_in_serverFilesOf; [done|].
    intros ->. by rewrite Hempty in Hg.
  - intros dir pattern patterns lf v. apply mergeServerFiles_skip.
  - apply manifest_pattern_always.
Qed.

Lemma extra_files_bundled_witness :
  let X := Fixture.collaborators "2.14.12" Fixture.defaultNuxtConfig in
  let entry := Path.canon [] (entrypointPath (resolvePaths "/work" "apps/web/package.json")) in
  (∀ r, globMatch X EmptyString r = false)
  ∧ ∃ out, Fixture.secretsRun = (Fixture.secretsRun.1, inr out)
    ∧ (∃ lam,
         (∀ k l, output out !! k = Some (OutLambda l) → l = lam)
         ∧ ∀ pattern rel,
             pattern ∈ declaredPatterns Fixture.secretsConfig ++ ["package.json"] →
             rel ≠ [] → forallb validSegment rel = true →
             globMatch X pattern (Path.unsplit rel) = true →
             is_Some (fs Fixture.secretsRun.1 !! (entry ++ rel)) →
             Lambda.zipBuffer lam !! Path.unsplit rel
             = fs Fixture.secretsRun.1 !! (entry ++ rel))
    ∧ (∀ dir pattern patterns launcherFiles v,
         Path.isAbsolute dir = true →
         globFiles X pattern (Path.canon [] dir) (fs v) = ∅ →
         mergeServerFiles X dir (pattern :: patterns) launcherFiles v
         = mergeServerFiles X dir patterns launcherFiles
             (addEvent (EvGlob pattern dir) v))
    ∧ (∀ config, "package.json" ∈ serverFilesOf config).
Proof.
  intros X entry.
  assert (∀ r, globMatch X EmptyString r = false) as Hempty by (intros r; reflexivity).
  split; [exact Hempty|].
  destruct (returned Fixture.secretsRun) as [out E]; [vm_compute; reflexivity|].
  exists out. split; [exact E|].
  exact (extra_files_bundled X Fixture.noToken (Fixture.options Fixture.secretsConfig)
           (initialWorld Fixture.disk []) _ _ Hempty E).
Defined.

(** Scenario C on the concrete project: [secrets.json] is in the archive
    under its own path, the pattern without a match adds nothing, and the
    manifest is there. *)
Example secrets_bundled :
  match Fixture.secretsRun.2 with
  | inr out =>
      match output out !! "index" with
      | Some (OutLambda lam) =>
          Lambda.zipBuffer lam !! "secrets.json" = Some "{}"
          ∧ Lambda.zipBuffer lam !! "missing.txt" = None
          ∧ Lambda.zipBuffer lam !! "package.json" = Some Fixture.prunedText
      | _ => False
      end
  | inl _ => False
  end.
Proof. vm_compute. repeat split; reflexivity. Qed.

(** ** C10: the manifest in the function package *)

Lemma plain_package_json : plainSegment "package.json".
Proof. by repeat split. Qed.

Lemma plain_npmrc : plainSegment ".npmrc".
Proof. by repeat split. Qed.

(** The working directory from the second [chdir] to the end of a run
    that returns is the canonical entry path. *)
Lemma build_cwd (X : Collaborators) (proc : Process)
    (opts : BuildOptions) (w w' : World) (out : BuilderOutput) :
  build X proc opts w = (w', inr out) →
  let paths := resolvePaths (workPath opts) (entrypoint opts) in
  let entry := Path.canon [] (entrypointPath paths) in
  ∃ prep nb dep w6 w7,
    installDependencies X proc opts paths prep w6 = (w7, inr dep)
    ∧ collectArtifacts X proc opts paths prep nb dep w7 = (w', inr out)
    ∧ cwd w6 = entry ∧ cwd w' = entry.
Proof.
  intros H paths entry.
  apply build_inr in H as (pkg0 & prep & nb & dep & w1 & w2 & w3 & w4 & w5 & w6
    & w7 & H1 & H2 & H3 & H4 & H5 & H6 & H7 & H8).
  exists prep, nb, dep, w6, w7. split; [done|]. split; [done|].
  apply prepareWorkspace_inr in H1 as [_ C1].
  pose proof (collectArtifacts_inr X proc _ _ _ _ _ _ _ _ H8) as (_ & Habs & _).
  rewrite (canon_absolute _ _ Habs) in C1.
  assert (cwd w6 = entry) as C6.
  { rewrite (cwd_nuxtBuild X _ _ _ _ _ _ H6), (cwd_preBuild X _ _ _ _ _ H5),
      (cwd_installDevDependencies X _ _ _ _ _ _ H4),
      (cwd_prepareEnvironment X proc _ _ _ _ _ _ H3),
      (cwd_readManifest X _ _ _ _ H2). exact C1. }
  split; [done|].
  by rewrite (cwd_collectArtifacts X proc _ _ _ _ _ _ _ _ H8),
    (cwd_installDependencies X proc _ _ _ _ _ _ H7).
Qed.

(** C10.  In a build that returns, where the production install leaves
    the manifest of the entry directory as it finds it and the literal
    pattern [package.json] matches the file of that name: the manifest in
    the archive of the function package is the serialisation of the
    manifest the prune returned, which is also what the workspace holds
    at the end; it is not read from the manifest as it was before the
    prune. *)
Theorem pruned_manifest_bundled (X : Collaborators) (proc : Process)
    (opts : BuildOptions) (w w' : World) (out : BuilderOutput) :
  let paths := resolvePaths (workPath opts) (entrypoint opts) in
  let entry := Path.canon [] (entrypointPath paths) in
  (∀ args o m disk disk',
     runNpmInstall X (entrypointPath paths) args o m entry disk = Some disk' →
     disk' !! (entry ++ ["package.json"]) = disk !! (entry ++ ["package.json"])) →
  globMatch X "package.json" "package.json" = true →
  build X proc opts w = (w', inr out) →
  ∃ prep pruned dep lam,
    preparePkgForProd X (pkg prep) = Some (pruned, dep)
    ∧ fs w' !! (entry ++ ["package.json"]) = Some (stringifyJSON X pruned)
    ∧ Lambda.zipBuffer lam !! "package.json" = Some (stringifyJSON X pruned)
    ∧ (∀ k l, output out !! k = Some (OutLambda l) → l = lam).
Proof.
  cbv zeta. intros Hframe Hlit H.
  destruct (build_package X proc opts w w' out H) as (lam & Honly & Hfiles).
  destruct (build_cwd X proc opts w w' out H)
    as (prep & nb & dep & w6 & w7 & H7 & H8 & C6 & C').
  apply installDependencies_inr in H7
    as (_ & pruned & args & o & disk0 & disk2 & Hprune & Hinstall & F7).
  apply collectArtifacts_inr in H8 as (F8 & _).
  cbv zeta in Hfiles.
  set (entry := Path.canon [] (entrypointPath (resolvePaths (workPath opts)
                                                 (entrypoint opts)))) in *.
  rewrite C6 in Hinstall, F7.
  assert (Forall plainSegment entry) as Hentry by apply canon_plain_out.
  rewrite (canon_file entry "package.json" Hentry plain_package_json eq_refl)
    in Hinstall.
  rewrite (canon_file entry ".npmrc" Hentry plain_npmrc eq_refl) in F7.
  assert (fs w' !! (entry ++ ["package.json"]) = Some (stringifyJSON X pruned))
    as Hdisk.
  { rewrite F8, F7.
    assert (disk2 !! (entry ++ ["package.json"]) = Some (stringifyJSON X pruned))
      as Hd2.
    { rewrite (Hframe _ _ _ _ _ Hinstall). apply lookup_insert_eq. }
    destruct (hasToken proc); [|done].
    rewrite lookup_delete_ne; [done|]. by intros [=]%app_inv_head. }
  exists prep, pruned, dep, lam. split; [done|]. split; [done|]. split; [|done].
  rewrite <- Hdisk.
  apply (Hfiles "package.json" ["package.json"]); try done.
  apply manifest_pattern_always.
Qed.

Lemma fixture_entry :
  Path.canon [] (entrypointPath (resolvePaths "/work" "apps/web/package.json"))
  = ["work"; "apps"; "web"].
Proof. vm_compute. reflexivity. Qed.

Lemma fixture_installer_frame (detected : string) (args : list string)
    (disk disk' : FS) :
  Fixture.installer detected "/work/apps/web" args ["work"; "apps"; "web"] disk
  = Some disk' →
  disk' !! ["work"; "apps"; "web"; "package.json"]
  = disk !! ["work"; "apps"; "web"; "package.json"].
Proof.
  unfold Fixture.installer. destruct (bool_decide _); intros [= <-];
    by apply lookup_insert_ne.
Qed.

Lemma pruned_manifest_bundled_witness :
  let X := Fixture.collaborators "2.14.12" Fixture.defaultNuxtConfig in
  let paths := resolvePaths "/work" "apps/web/package.json" in
  let entry := Path.canon [] (entrypointPath paths) in
  (∀ args o m disk disk',
     runNpmInstall X (entrypointPath paths) args o m entry disk = Some disk' →
     disk' !! (entry ++ ["package.json"]) = disk !! (entry ++ ["package.json"]))
  ∧ globMatch X "package.json" "package.json" = true
  ∧ ∃ out, Fixture.tokenRun = (Fixture.tokenRun.1, inr out)
    ∧ ∃ prep pruned dep lam,
        preparePkgForProd X (pkg prep) = Some (pruned, dep)
        ∧ fs Fixture.tokenRun.1 !! (entry ++ ["package.json"])
          = Some (stringifyJSON X pruned)
        ∧ Lambda.zipBuffer lam !! "package.json" = Some (stringifyJSON X pruned)
        ∧ (∀ k l, output out !! k = Some (OutLambda l) → l = lam).
Proof.
  intros X paths entry.
  assert (∀ args o m disk disk',
     runNpmInstall X (entrypointPath paths) args o m entry disk = Some disk' →
     disk' !! (entry ++ ["package.json"]) = disk !! (entry ++ ["package.json"]))
    as Hframe.
  { intros args o m disk disk'. subst entry paths. rewrite fixture_entry.
    apply fixture_installer_frame. }
  split; [exact Hframe|]. split; [reflexivity|].
  destruct (returned Fixture.tokenRun) as [out E]; [vm_compute; reflexivity|].
  exists out. split; [exact E|].
  exact (pruned_manifest_bundled X (Fixture.withToken "s3cret")
           (Fixture.options Fixture.defaultConfig)
           (initialWorld Fixture.disk []) _ _ Hframe eq_refl E).
Defined.

(** On the concrete project the archive holds the pruned manifest, not the
    manifest the run started with. *)
Example pruned_manifest_in_archive :
  Fixture.disk !! ["work"; "apps"; "web"; "package.json"] = Some Fixture.manifestText
  ∧ match Fixture.tokenRun.2 with
    | inr out =>
        match output out !! "index" with
        | Some (OutLambda lam) =>
            Lambda.zipBuffer lam !! "package.json" = Some Fixture.prunedText
        | _ => False
        end
    | inl _ => False
    end.
Proof. vm_compute. split; reflexivity. Qed.

(** ** Rules for [raisesOnly] *)

Section RaisesRules.

Context {A B : Type} (P : BuildError → Prop).

Lemma raises_total (m : M A) :
  (∀ w, isReturn (m w).2 = true) → raisesOnly P m.
Proof. intros H w w' e E. specialize (H w). by rewrite E in H. Qed.

Lemma raises_ret (a : A) : raisesOnly P (mret a : M A).
Proof. by apply raises_total. Qed.

Lemma raises_gets (g : World → A) : raisesOnly P (gets g).
Proof. by apply raises_total. Qed.

Lemma raises_throw (e : BuildError) : P e → raisesOnly P (throw e : M A).
Proof. intros H w w' e' [= _ <-]. exact H. Qed.

Lemma raises_orThrow (x : option A) (e : BuildError) :
  P e → raisesOnly P (orThrow x e).
Proof. intros H. destruct x; [apply raises_ret|by apply raises_throw]. Qed.

Lemma raises_bind (m : M A) (k : A → M B) :
  raisesOnly P m → (∀ a, raisesOnly P (k a)) → raisesOnly P (m ≫= k).
Proof.
  intros Hm Hk w w' e. rewrite run_bind.
  destruct (m w) as [w1 [e1|a]] eqn:E.
  - intros [= <- <-]. by eapply Hm.
  - intros E2. by eapply Hk.
Qed.

Lemma raises_catch (m : M A) (h : BuildError → M A) :
  (∀ e, raisesOnly P (h e)) → raisesOnly P (catch m h).
Proof.
  intros Hh w w' e. unfold catch.
  destruct (m w) as [w1 [e1|a]] eqn:E; [|discriminate].
  intros E2. by eapply Hh.
Qed.

End RaisesRules.

Lemma raises_modify (P : BuildError → Prop) (g : World → World) :
  raisesOnly P (modify g).
Proof. by apply raises_total. Qed.

Lemma raises_when (P : BuildError → Prop) (b : bool) (m : M unit) :
  raisesOnly P m → raisesOnly P (when b m).
Proof. destruct b; [done|]. intros _. apply raises_ret. Qed.

Create HintDb raises discriminated.

Ltac raises_auto :=
  lazymatch goal with
  | |- raisesOnly _ (mbind _ _) =>
      apply raises_bind; [ raises_auto | intros ?; raises_auto ]
  | |- raisesOnly _ (mret _) => apply raises_ret
  | |- raisesOnly _ (ret _) => apply raises_ret
  | |- raisesOnly _ (throw _) =>
      apply raises_throw; first [ exact I | intros ? [=] ]
  | |- raisesOnly _ (gets _) => apply raises_gets
  | |- raisesOnly _ (locate _) => apply raises_gets
  | |- raisesOnly _ (orThrow _ _) =>
      apply raises_orThrow; first [ exact I | intros ? [=] ]
  | |- raisesOnly _ (modify _) => apply raises_modify
  | |- raisesOnly _ (emit _) => apply raises_modify
  | |- raisesOnly _ (warn _) => apply raises_modify
  | |- raisesOnly _ (when _ _) => apply raises_when; raises_auto
  | |- raisesOnly _ (catch _ _) => apply raises_catch; intros ?; raises_auto
  | |- raisesOnly _ (match ?x with _ => _ end) =>
      destruct x; cbv beta iota; raises_auto
  | |- raisesOnly _ (let _ := _ in _) => cbv zeta; raises_auto
  | |- _ => solve [ eauto with raises ]
  end.

(** ** Every run, stage by stage *)

Lemma bind_cases {A B} (m : M A) (k : A → M B) (w w' : World)
    (r : BuildError + B) :
  (m ≫= k) w = (w', r) →
  (∃ e, m w = (w', inl e) ∧ r = inl e)
  ∨ (∃ w1 a, m w = (w1, inr a) ∧ k a w1 = (w', r)).
Proof.
  rewrite run_bind. destruct (m w) as [w1 [e|a]].
  - intros [= <- <-]. left. by exists e.
  - intros E. right. by exists w1, a.
Qed.

Ltac unfold_calls :=
  unfold globAndPrefix, writeJSON, install, namespaceModules, nuxt;
  unfold startStep, endStep, chdir, existsSync, readFile, writeFile, copyFile,
    unlink, mkdirp, call, readJSON, glob, createLambda, locate.

Section Calm.

Variable X : Collaborators.
Variable proc : Process.

Lemma calm_mergeServerFiles (dir : string) (patterns : list string)
    (launcherFiles : FileSet) :
  raisesOnly notVersionError (mergeServerFiles X dir patterns launcherFiles).
Proof.
  revert launcherFiles. induction patterns as [|p ps IH]; intros lf; simpl.
  - apply raises_ret.
  - apply raises_bind; [unfold_calls; raises_auto|]. intros found. apply IH.
Qed.

#[local] Hint Resolve calm_mergeServerFiles : raises.

Lemma calm_prepareWorkspace (opts : BuildOptions) (paths : Paths) :
  raisesOnly notVersionError (prepareWorkspace X opts paths).
Proof. unfold prepareWorkspace. unfold_calls. raises_auto. Qed.

Lemma calm_readManifest (paths : Paths) :
  raisesOnly notVersionError (readManifest X paths).
Proof. unfold readManifest. unfold_calls. raises_auto. Qed.

Lemma calm_prepareEnvironment (opts : BuildOptions) (paths : Paths)
    (pkg0 : MutablePackageJson) :
  raisesOnly notVersionError (prepareEnvironment X proc opts paths pkg0).
Proof. unfold prepareEnvironment. unfold_calls. raises_auto. Qed.

Lemma calm_installDevDependencies (opts : BuildOptions) (paths : Paths)
    (prep : Prepared) :
  raisesOnly notVersionError (installDevDependencies X opts paths prep).
Proof. unfold installDevDependencies. unfold_calls. raises_auto. Qed.

Lemma calm_preBuild (paths : Paths) (prep : Prepared) :
  raisesOnly notVersionError (preBuild X paths prep).
Proof. unfold preBuild. unfold_calls. raises_auto. Qed.

Lemma calm_nuxtBuild (opts : BuildOptions) (paths : Paths) (prep : Prepared) :
  raisesOnly notVersionError (nuxtBuild X opts paths prep).
Proof. unfold nuxtBuild. unfold_calls. raises_auto. Qed.

Lemma calm_collectArtifacts (opts : BuildOptions) (paths : Paths)
    (prep : Prepared) (nb : NuxtBuild) (dep : NuxtDep) :
  raisesOnly notVersionError (collectArtifacts X proc opts paths prep nb dep).
Proof. unfold collectArtifacts, packageLambda. unfold_calls. raises_auto. Qed.

End Calm.

(** ** The stages before the version check *)

(** Unfolds the monad down to the worlds. *)
Ltac run_monad :=
  cbv [mbind M_bind bind mret M_ret ret throw gets modify emit warn locate
       call chdir existsSync readFile writeFile copyFile unlink mkdirp].

Lemma quietState_addEvent (e : Event) (w : World) :
  quietState (addEvent e w)
  = (warnings w,
     omap lateMilestone (trace w) ++ option_list (lateMilestone e)).
Proof.
  unfold quietState. simpl. rewrite omap_app. simpl.
  by destruct (lateMilestone e).
Qed.

(** Closes an equation between quiet states from a chain of them. *)
Ltac quiet_chain :=
  rewrite ?quietState_addEvent; unfold quietState in *; simpl in *;
  repeat match goal with
         | Q : (_, _) = (_, _) |- _ => injection Q as ? ?
         end;
  rewrite ?omap_app, ?app_nil_r; simpl; rewrite ?app_nil_r; congruence.

Lemma quiet_emit (e : Event) :
  lateMilestone e = None → preserves quietState (emit e).
Proof.
  intros H. apply preserves_modify. intros w.
  rewrite quietState_addEvent, H. simpl. by rewrite app_nil_r.
Qed.

#[global] Hint Extern 1 (preserves quietState (emit _)) =>
  apply quiet_emit; reflexivity : preserves.

Lemma quiet_step {A B} (m : M A) (k : A → M B) (w w' : World)
    (r : BuildError + B) :
  preserves quietState m → raisesOnly notVersionError m →
  (m ≫= k) w = (w', r) →
  (∃ e, r = inl e ∧ notVersionError e ∧ quietState w' = quietState w)
  ∨ (∃ w1 a, k a w1 = (w', r) ∧ quietState w1 = quietState w).
Proof.
  intros Hq Hc [(e & E & ->)|(w1 & a & E & Hk)]%bind_cases.
  - left. exists e. split; [done|]. split; [by eapply Hc|by eapply Hq].
  - right. exists w1, a. split; [done|]. by eapply Hq.
Qed.

Section Quiet.

Variable X : Collaborators.
Variable proc : Process.

Lemma quiet_mergeServerFiles (dir : string) (patterns : list string)
    (launcherFiles : FileSet) :
  preserves quietState (mergeServerFiles X dir patterns launcherFiles).
Proof.
  revert launcherFiles. induction patterns as [|p ps IH]; intros lf; simpl.
  - apply preserves_ret.
  - apply preserves_bind; [unfold_calls; preserves_auto|]. intros found. apply IH.
Qed.

#[local] Hint Resolve quiet_mergeServerFiles : preserves.

Lemma quiet_prepareWorkspace (opts : BuildOptions) (paths : Paths) :
  preserves quietState (prepareWorkspace X opts paths).
Proof. unfold prepareWorkspace. unfold_calls. preserves_auto. Qed.

Lemma quiet_readManifest (paths : Paths) :
  preserves quietState (readManifest X paths).
Proof. unfold readManifest. unfold_calls. preserves_auto. Qed.

Lemma quiet_prepareEnvironment (opts : BuildOptions) (paths : Paths)
    (pkg0 : MutablePackageJson) :
  preserves quietState (prepareEnvironment X proc opts paths pkg0).
Proof. unfold prepareEnvironment. unfold_calls. preserves_auto. Qed.

Lemma quiet_installDevDependencies (opts : BuildOptions) (paths : Paths)
    (prep : Prepared) :
  preserves quietState (installDevDependencies X opts paths prep).
Proof. unfold installDevDependencies. unfold_calls. preserves_auto. Qed.

Lemma quiet_preBuild (paths : Paths) (prep : Prepared) :
  preserves quietState (preBuild X paths prep).
Proof. unfold preBuild. unfold_calls. preserves_auto. Qed.

Lemma quiet_nuxtBuild (opts : BuildOptions) (paths : Paths) (prep : Prepared) :
  preserves quietState (nuxtBuild X opts paths prep).
Proof. unfold nuxtBuild. unfold_calls. preserves_auto. Qed.

(** Collecting adds no warning and no late milestone. *)
Lemma quiet_collectArtifacts (opts : BuildOptions) (paths : Paths)
    (prep : Prepared) (nb : NuxtBuild) (dep : NuxtDep) :
  preserves quietState (collectArtifacts X proc opts paths prep nb dep).
Proof. unfold collectArtifacts, packageLambda. unfold_calls. preserves_auto. Qed.

Lemma install_run (pass : InstallPass) (dir : string) (args : list string)
    (o : SpawnOptions) (m : Meta) (w : World) :
  install X pass dir args o m w
  = match runNpmInstall X dir args o m (cwd w) (fs w) with
    | Some disk1 =>
        (addEvent (EvInstallEnd pass)
           (setFs disk1 (addEvent (EvInstallBegin pass args) w)), inr tt)
    | None =>
        (addEvent (EvInstallBegin pass args) w,
         inl (CollaboratorFailure "runNpmInstall"))
    end.
Proof.
  unfold install, effect. run_monad. simpl.
  by destruct (runNpmInstall X dir args o m (cwd w) (fs w)).
Qed.

Lemma writeFile_run (file data : string) (w : World) :
  writeFile file data w
  = (setFs (<[Path.canon (cwd w) file := data]> (fs w))
       (addEvent (EvWriteFile file data) w), inr tt).
Proof. reflexivity. Qed.

Lemma unlink_run (file : string) (w : World) :
  unlink file w
  = match fs w !! Path.canon (cwd w) file with
    | Some _ =>
        (setFs (delete (Path.canon (cwd w) file) (fs w))
           (addEvent (EvUnlink file) w), inr tt)
    | None =>
        (addEvent (EvUnlink file) w,
         inl (NoSuchFile "unlink" (Path.canon (cwd w) file)))
    end.
Proof.
  unfold unlink. run_monad. simpl.
  by destruct (fs w !! Path.canon (cwd w) file).
Qed.

Lemma bind_assoc_run {A B C} (m : M A) (f : A → M B) (k : B → M C) (w : World) :
  ((m ≫= f) ≫= k) w = (m ≫= (λ a, f a ≫= k)) w.
Proof. rewrite !run_bind. by destruct (m w) as [w1 [e|a]]. Qed.

Lemma afterProdInstall_run (opts : BuildOptions) (paths : Paths)
    (prep : Prepared) (nb : NuxtBuild) (dep : NuxtDep) (u : World) :
  ((let request := ("@nuxt/core" ++ suffix dep ++ "/package.json")%string in
    dir ← gets cwd;
    disk ← gets fs;
    detected ← orThrow (requireVersion X (entrypointPath paths) request dir disk)
                 (FrameworkNotResolvable request);
    _ ← validateNuxtVersion detected;
    _ ← when (hasToken proc) (unlink ".npmrc");
    ret dep)
   ≫= collectArtifacts X proc opts paths prep nb) u
  = afterProdInstall X proc opts paths prep nb dep u.
Proof.
  unfold afterProdInstall, afterVersionCheck. cbv zeta.
  repeat (rewrite run_bind; simpl).
  destruct (requireVersion _ _ _ _ _) as [detected|]; simpl; [|done].
  repeat (rewrite run_bind; simpl).
  destruct (validateNuxtVersion detected u) as [wv [e|[]]]; [done|].
  repeat (rewrite run_bind; simpl).
  by destruct (when _ _ wv) as [wu [e|[]]].
Qed.

(** The production install stage and what follows it: the run ends
    before the installer has returned, with an error that is not about
    the version and without a warning; or the installer returns, on the
    manifest the prune gave, into a world [v], and the run is
    [afterProdInstall] from there. *)
Lemma installDependencies_cases (opts : BuildOptions) (paths : Paths)
    (prep : Prepared) (nb : NuxtBuild) (w w' : World)
    (r : BuildError + BuilderOutput) :
  (installDependencies X proc opts paths prep
   ≫= collectArtifacts X proc opts paths prep nb) w = (w', r) →
  (∃ e, r = inl e ∧ notVersionError e ∧ quietState w' = quietState w)
  ∨ (∃ pruned dep disk0 v,
       preparePkgForProd X (pkg prep) = Some (pruned, dep)
       ∧ runNpmInstall X (entrypointPath paths) (prodInstallArgs paths prep)
           (withEnv "NPM_ONLY_PRODUCTION" "true" (spawnOpts prep)) (meta opts)
           (cwd v)
           (<[Path.canon (cwd v) "package.json" := stringifyJSON X pruned]> disk0)
         = Some (fs v)
       ∧ quietState v
         = (warnings w, omap lateMilestone (trace w) ++ [ProdInstallDone])
       ∧ afterProdInstall X proc opts paths prep nb dep v = (w', r)).
Proof.
  unfold installDependencies. intros H.
  rewrite bind_assoc_run in H.
  apply quiet_step in H as [(e & -> & ? & Q)|(w1 & u1 & H & Q1)];
    [left; by exists e| |unfold_calls; preserves_auto|unfold_calls; raises_auto].
  cbv beta in H. rewrite bind_assoc_run in H.
  apply quiet_step in H as [(e & -> & ? & Q)|(w2 & u2 & H & Q2)];
    [left; exists e; by rewrite Q, Q1| |
     unfold_calls; preserves_auto|unfold_calls; raises_auto].
  cbv beta in H. rewrite bind_assoc_run in H.
  apply quiet_step in H as [(e & -> & ? & Q)|(w3 & u3 & H & Q3)];
    [left; exists e; by rewrite Q, Q2, Q1| |preserves_auto|raises_auto].
  cbv beta in H. rewrite bind_assoc_run in H.
  apply bind_cases in H as [(e & H & ->)|(w4 & [pruned dep] & H4 & H)].
  { left. exists e. destruct (preparePkgForProd X (pkg prep)); [done|].
    injection H as <- <-. split; [done|]. split; [exact I|]. by rewrite Q3, Q2, Q1. }
  apply orThrow_inr in H4 as [-> Hprune].
  cbv beta iota in H. rewrite bind_assoc_run in H.
  apply bind_cases in H as [(e & H & ->)|(w5 & [] & H5 & H)];
    [unfold writeJSON in H; by rewrite writeFile_run in H|].
  unfold writeJSON in H5. rewrite writeFile_run in H5. injection H5 as <-.
  cbv beta in H. rewrite bind_assoc_run in H.
  apply bind_cases in H as [(e & H & ->)|(v & [] & Hi & H)].
  - left. exists e. rewrite install_run in H.
    destruct (runNpmInstall _ _ _ _ _ _ _); [done|].
    injection H as <- <-. split; [done|]. split; [exact I|]. quiet_chain.
  - right. rewrite install_run in Hi.
    destruct (runNpmInstall _ _ _ _ _ _ _) as [disk1|] eqn:Hrun; [|done].
    injection Hi as <-.
    exists pruned, dep, (fs w3),
      (addEvent (EvInstallEnd ProdPass)
         (setFs disk1
            (addEvent (EvInstallBegin ProdPass (prodInstallArgs paths prep))
               (setFs
                  (<[Path.canon (cwd w3) "package.json" := stringifyJSON X pruned]>
                     (fs w3))
                  (addEvent (EvWriteFile "package.json" (stringifyJSON X pruned))
                     w3))))).
    split; [done|]. split; [exact Hrun|]. split; [quiet_chain|].
    rewrite <- afterProdInstall_run. exact H.
Qed.

(** Every run of [build]: it ends before the production install has
    returned, with an error that is not about the version and without a
    warning; or it is [afterProdInstall] from the world the installer
    returned into. *)
Lemma build_cases (opts : BuildOptions) (w w' : World)
    (r : BuildError + BuilderOutput) :
  build X proc opts w = (w', r) →
  let paths := resolvePaths (workPath opts) (entrypoint opts) in
  (∃ e, r = inl e ∧ notVersionError e ∧ quietState w' = quietState w)
  ∨ (∃ prep nb pruned dep disk0 v,
       preparePkgForProd X (pkg prep) = Some (pruned, dep)
       ∧ runNpmInstall X (entrypointPath paths) (prodInstallArgs paths prep)
           (withEnv "NPM_ONLY_PRODUCTION" "true" (spawnOpts prep)) (meta opts)
           (cwd v)
           (<[Path.canon (cwd v) "package.json" := stringifyJSON X pruned]> disk0)
         = Some (fs v)
       ∧ quietState v
         = (warnings w, omap lateMilestone (trace w) ++ [ProdInstallDone])
       ∧ afterProdInstall X proc opts paths prep nb dep v = (w', r)).
Proof.
  unfold build. cbv zeta. intros H.
  apply quiet_step in H as [(e & -> & ? & Q)|(w1 & u1 & H & Q1)];
    [left; by exists e| |apply quiet_prepareWorkspace|apply calm_prepareWorkspace].
  apply quiet_step in H as [(e & -> & ? & Q)|(w2 & pkg0 & H & Q2)];
    [left; exists e; by rewrite Q, Q1| |apply quiet_readManifest|apply calm_readManifest].
  apply quiet_step in H as [(e & -> & ? & Q)|(w3 & prep & H & Q3)];
    [left; exists e; by rewrite Q, Q2, Q1| |
     apply quiet_prepareEnvironment|apply calm_prepareEnvironment].
  apply quiet_step in H as [(e & -> & ? & Q)|(w4 & u4 & H & Q4)];
    [left; exists e; by rewrite Q, Q3, Q2, Q1| |
     apply quiet_installDevDependencies|apply calm_installDevDependencies].
  apply quiet_step in H as [(e & -> & ? & Q)|(w5 & u5 & H & Q5)];
    [left; exists e; by rewrite Q, Q4, Q3, Q2, Q1| |
     apply quiet_preBuild|apply calm_preBuild].
  apply quiet_step in H as [(e & -> & ? & Q)|(w6 & nb & H & Q6)];
    [left; exists e; by rewrite Q, Q5, Q4, Q3, Q2, Q1| |
     apply quiet_nuxtBuild|apply calm_nuxtBuild].
  assert (quietState w6 = quietState w) as Q' by (by rewrite Q6, Q5, Q4, Q3, Q2, Q1).
  apply installDependencies_cases
    in H as [(e & -> & ? & Q)|(pruned & dep & disk0 & v & Hp & Hi & Q & H)].
  - left. exists e. by rewrite Q.
  - right. exists prep, nb, pruned, dep, disk0, v.
    split; [done|]. split; [done|]. split; [|done].
    rewrite Q. injection Q' as -> ->. done.
Qed.

End Quiet.

(** ** After the production install *)

Lemma late_reached (m : Milestone) (tr : list Event) :
  m ∈ omap lateMilestone tr → reached m tr.
Proof.
  intros (e & He & Hm)%list_elem_of_omap. exists e. split; [done|].
  unfold lateMilestone in Hm. by destruct (milestone e) as [[]|]; simplify_eq.
Qed.

Lemma reached_late (m : Milestone) (tr : list Event) :
  m = ProdInstallDone ∨ m = NpmrcRemoved →
  reached m tr → m ∈ omap lateMilestone tr.
Proof.
  intros Hm (e & He & Hme). apply list_elem_of_omap. exists e. split; [done|].
  unfold lateMilestone. rewrite Hme. by destruct Hm as [-> | ->].
Qed.

Section Late.

Variable X : Collaborators.
Variable proc : Process.

(** The cleanup and the last stage: an error they raise is not about
    the version, they add no warning, and they leave the workspace as it
    is but for [.npmrc]. *)
Lemma afterVersionCheck_facts (opts : BuildOptions) (paths : Paths)
    (prep : Prepared) (nb : NuxtBuild) (dep : NuxtDep) (u w' : World)
    (r : BuildError + BuilderOutput) :
  afterVersionCheck X proc opts paths prep nb dep u = (w', r) →
  cwd w' = cwd u
  ∧ warnings w' = warnings u
  ∧ (∀ e, r = inl e → notVersionError e)
  ∧ (∀ p, p ≠ Path.canon (cwd u) ".npmrc" → fs w' !! p = fs u !! p)
  ∧ omap lateMilestone (trace w')
    = (omap lateMilestone (trace u)
       ++ (if hasToken proc then [NpmrcRemoved] else []))%list.
Proof.
  unfold afterVersionCheck. intros H.
  apply bind_cases in H as [(e & H & ->)|(w1 & [] & H1 & H)].
  - unfold when in H. destruct (hasToken proc); [|done].
    rewrite unlink_run in H.
    destruct (fs u !! Path.canon (cwd u) ".npmrc"); [done|].
    injection H as <- <-. repeat split; try done.
    + by intros e [= <-].
    + simpl. by rewrite omap_app.
  - pose proof (cwd_collectArtifacts X proc _ _ _ _ _ _ _ _ H) as C.
    pose proof (fs_collectArtifacts X proc _ _ _ _ _ _ _ _ H) as F.
    pose proof (quiet_collectArtifacts X proc _ _ _ _ _ _ _ _ H) as Q.
    injection Q as W T.
    assert (∀ e, r = inl e → notVersionError e) as Hcalm.
    { intros e ->. by apply (calm_collectArtifacts X proc _ _ _ _ _ _ _ _ H). }
    rewrite C, W, F, T. clear C W F T H.
    unfold when in H1. destruct (hasToken proc).
    + rewrite unlink_run in H1.
      destruct (fs u !! Path.canon (cwd u) ".npmrc"); [|done].
      injection H1 as <-. repeat split; try done.
      * intros p Hp. simpl. by rewrite lookup_delete_ne.
      * simpl. by rewrite omap_app.
    + injection H1 as <-. repeat split; try done. by rewrite app_nil_r.
Qed.

(** The version check and what follows it, by the version resolved in
    the world the installer returned into. *)
Lemma afterProdInstall_cases (opts : BuildOptions) (paths : Paths)
    (prep : Prepared) (nb : NuxtBuild) (dep : NuxtDep) (v w' : World)
    (r : BuildError + BuilderOutput) :
  afterProdInstall X proc opts paths prep nb dep v = (w', r) →
  let request := ("@nuxt/core" ++ suffix dep ++ "/package.json")%string in
  match requireVersion X (entrypointPath paths) request (cwd v) (fs v) with
  | None => w' = v ∧ r = inl (FrameworkNotResolvable request)
  | Some detected =>
      match SemVer.parse detected with
      | None => w' = v ∧ r = inl (InvalidVersion detected)
      | Some ver =>
          (belowMinimum ver ∧ w' = v
           ∧ r = inl (UnsupportedFrameworkVersion detected))
          ∨ (¬ belowMinimum ver ∧ aboveCeiling ver
             ∧ afterVersionCheck X proc opts paths prep nb dep
                 (addWarning untestedWarning v) = (w', r))
          ∨ (¬ belowMinimum ver ∧ ¬ aboveCeiling ver
             ∧ afterVersionCheck X proc opts paths prep nb dep v = (w', r))
      end
  end.
Proof.
  unfold afterProdInstall. cbv zeta. intros H.
  apply bind_cases in H as [(e & [=] & _)|(w1 & dir0 & [= <- <-] & H)].
  apply bind_cases in H as [(e & [=] & _)|(w2 & disk0 & [= <- <-] & H)].
  destruct (requireVersion _ _ _ _ _) as [detected|];
    [|by injection H as <- <-].
  apply bind_cases in H as [(e & [=] & _)|(w3 & d & [= <- <-] & H)].
  rewrite run_bind in H.
  destruct (SemVer.parse detected) as [ver|] eqn:Hv.
  - rewrite (validateNuxtVersion_run detected ver v Hv) in H.
    pose proof (compare_minimum ver) as Hmin.
    pose proof (compare_ceiling ver) as Hceil.
    destruct (SemVer.compare ver minimumVersion) eqn:Hc.
    + assert (¬ belowMinimum ver) as Hnb by (intros Hb%Hmin; discriminate).
      destruct (SemVer.compare ver testedCeiling) eqn:Hd.
      * right. right. split; [done|]. split; [|done]. intros Ha%Hceil. discriminate.
      * right. right. split; [done|]. split; [|done]. intros Ha%Hceil. discriminate.
      * right. left. split; [done|]. split; [|done]. by apply Hceil.
    + left. split; [by apply Hmin|]. by injection H as <- <-.
    + assert (¬ belowMinimum ver) as Hnb by (intros Hb%Hmin; discriminate).
      destruct (SemVer.compare ver testedCeiling) eqn:Hd.
      * right. right. split; [done|]. split; [|done]. intros Ha%Hceil. discriminate.
      * right. right. split; [done|]. split; [|done]. intros Ha%Hceil. discriminate.
      * right. left. split; [done|]. split; [|done]. by apply Hceil.
  - unfold validateNuxtVersion, SemVer.gte in H. rewrite Hv in H. simpl in H.
    by injection H as <- <-.
Qed.

End Late.

Section LateFacts.

Variable X : Collaborators.
Variable proc : Process.

(** Whatever the version, the rest of the run keeps the working
    directory and every file but [.npmrc], and adds at most the removal
    of [.npmrc] to the late milestones. *)
Lemma afterProdInstall_facts (opts : BuildOptions) (paths : Paths)
    (prep : Prepared) (nb : NuxtBuild) (dep : NuxtDep) (v w' : World)
    (r : BuildError + BuilderOutput) :
  afterProdInstall X proc opts paths prep nb dep v = (w', r) →
  cwd w' = cwd v
  ∧ (∀ p, p ≠ Path.canon (cwd v) ".npmrc" → fs w' !! p = fs v !! p)
  ∧ (omap lateMilestone (trace w') = omap lateMilestone (trace v)
     ∨ omap lateMilestone (trace w')
       = (omap lateMilestone (trace v) ++ [NpmrcRemoved])%list).
Proof.
  intros H. apply afterProdInstall_cases in H. cbv zeta in H.
  destruct (requireVersion _ _ _ _ _) as [detected|]; [|destruct H as [-> _]; auto].
  destruct (SemVer.parse detected) as [ver|]; [|destruct H as [-> _]; auto].
  destruct H as [(_ & -> & _)|[(_ & _ & H)|(_ & _ & H)]]; [auto| |];
    apply afterVersionCheck_facts in H as (C & _ & _ & F & T); simpl in *;
    (split; [done|]; split; [done|]);
    rewrite T; destruct (hasToken proc); rewrite ?app_nil_r; auto.
Qed.

End LateFacts.

(** ** C8: the registry-auth file *)

Lemma hasToken_set (proc : Process) (token : string) :
  env proc !! "NPM_AUTH_TOKEN" = Some token → token ≠ EmptyString →
  hasToken proc = true
  ∧ npmrcLine proc = ("//registry.npmjs.org/:_authToken=" ++ token)%string.
Proof.
  intros H Hne. unfold hasToken, npmrcLine, NPM_AUTH_TOKEN. rewrite H. simpl.
  split; [|done]. by destruct token.
Qed.

Lemma hasToken_unset (proc : Process) :
  env proc !! "NPM_AUTH_TOKEN" = None
  ∨ env proc !! "NPM_AUTH_TOKEN" = Some EmptyString →
  hasToken proc = false.
Proof. unfold hasToken, NPM_AUTH_TOKEN. by intros [->| ->]. Qed.

Lemma milestone_of_event (tr : list Event) (e : Event) (m : Milestone) :
  e ∈ tr → milestone e = Some m → m ∈ milestones tr.
Proof. intros He Hm. apply list_elem_of_omap. by exists e. Qed.

(** C8, as the code has it.  When the token variable is set to a
    non-empty value: in every run the line with the token is written to
    [.npmrc] before the dev install starts, and [.npmrc] is removed only
    after the production install has returned; a run that returns has
    done both and ends without [.npmrc] in the entry directory.  When the
    variable is unset or empty, no run writes or removes [.npmrc].  And
    in every run that comes to remove [.npmrc], the production install
    has returned into a world in which the framework's [package.json]
    resolves to a semantic version that is not below 2.4.0: the removal
    comes after the version check has passed. *)
Theorem registry_auth_file_lifetime (X : Collaborators) (proc : Process)
    (opts : BuildOptions) (disk : FS) (dir : list string)
    (w' : World) (r : BuildError + BuilderOutput) :
  build X proc opts (initialWorld disk dir) = (w', r) →
  (∀ token, env proc !! "NPM_AUTH_TOKEN" = Some token → token ≠ EmptyString →
     let line := ("//registry.npmjs.org/:_authToken=" ++ token)%string in
     before (NpmrcWritten line) DevInstallBegun (trace w')
     ∧ before ProdInstallDone NpmrcRemoved (trace w')
     ∧ (∀ out, r = inr out →
          reached (NpmrcWritten line) (trace w')
          ∧ reached NpmrcRemoved (trace w')
          ∧ fs w' !! Path.canon (cwd w') ".npmrc" = None))
  ∧ (env proc !! "NPM_AUTH_TOKEN" = None
     ∨ env proc !! "NPM_AUTH_TOKEN" = Some EmptyString →
     ∀ e, e ∈ trace w' →
       (∀ data, e ≠ EvWriteFile ".npmrc" data) ∧ e ≠ EvUnlink ".npmrc")
  ∧ (reached NpmrcRemoved (trace w') →
     let paths := resolvePaths (workPath opts) (entrypoint opts) in
     ∃ prep pruned dep disk0 v detected ver,
       preparePkgForProd X (pkg prep) = Some (pruned, dep)
       ∧ runNpmInstall X (entrypointPath paths) (prodInstallArgs paths prep)
           (withEnv "NPM_ONLY_PRODUCTION" "true" (spawnOpts prep)) (meta opts)
           (cwd v)
           (<[Path.canon (cwd v) "package.json" := stringifyJSON X pruned]> disk0)
         = Some (fs v)
       ∧ cwd v = cwd w'
       ∧ (∀ p, p ≠ Path.canon (cwd v) ".npmrc" → fs v !! p = fs w' !! p)
       ∧ requireVersion X (entrypointPath paths)
           ("@nuxt/core" ++ suffix dep ++ "/package.json")%string
           (cwd v) (fs v) = Some detected
       ∧ SemVer.parse detected = Some ver
       ∧ ¬ belowMinimum ver).
Proof.
  intros E. destruct (build_milestones X proc opts disk dir w' r E) as [Hpre Hall].
  split; [|split].
  - intros token Ht Hne line. destruct (hasToken_set proc token Ht Hne) as [Hh Hl].
    fold line in Hl. rewrite Hh, Hl in Hpre, Hall.
    pose proof (expectedMilestones_NoDup true line) as Hnd.
    split; [|split].
    + by apply (before_prefix _ [] []
                  [DevInstallDone; ManifestPruned; ManifestRewritten;
                   ProdInstallBegun; ProdInstallDone; NpmrcRemoved] _ _ _ Hnd).
    + by apply (before_prefix _
                  [NpmrcWritten line; DevInstallBegun; DevInstallDone;
                   ManifestPruned; ManifestRewritten; ProdInstallBegun] [] []
                  _ _ _ Hnd).
    + intros out ->. rewrite <- (Hall out eq_refl) in Hnd.
      split; [|split].
      * apply reached_milestones. rewrite (Hall out eq_refl). by left.
      * apply reached_milestones. rewrite (Hall out eq_refl).
        unfold expectedMilestones. simpl. rewrite !elem_of_cons. tauto.
      * destruct (build_cwd X proc opts _ _ _ E)
          as (prep & nb & dep & w6 & w7 & H7 & H8 & C6 & C').
        pose proof (cwd_collectArtifacts X proc _ _ _ _ _ _ _ _ H8) as C8.
        apply collectArtifacts_inr in H8 as (F8 & _).
        apply installDependencies_inr in H7
          as (C7 & pruned & args & o & disk0 & disk2 & _ & _ & F7).
        rewrite Hh in F7. rewrite F8, F7, C8, C7. apply lookup_delete_eq.
  - intros Hunset e He. rewrite (hasToken_unset proc Hunset) in Hpre.
    destruct Hpre as [k Hk].
    assert (∀ m, milestone e = Some m → m ∈ expectedMilestones false (npmrcLine proc))
      as Hin.
    { intros m Hm. rewrite Hk. apply elem_of_app. left.
      by apply (milestone_of_event _ e). }
    split.
    + intros data ->. specialize (Hin (NpmrcWritten data) eq_refl).
      unfold expectedMilestones in Hin. simpl in Hin.
      rewrite !elem_of_cons, elem_of_nil in Hin. intuition discriminate.
    + intros ->. specialize (Hin NpmrcRemoved eq_refl).
      unfold expectedMilestones in Hin. simpl in Hin.
      rewrite !elem_of_cons, elem_of_nil in Hin. intuition discriminate.
  - intros Hreach%reached_late paths; [|by right].
    destruct (build_cases X proc opts _ _ _ E)
      as [(e & -> & Hne & Q)
         |(prep & nb & pruned & dep & disk0 & v & Hp & Hi & Q & H)].
    { injection Q as _ T. simpl in T. rewrite T in Hreach.
      by apply elem_of_nil in Hreach. }
    injection Q as _ T. simpl in T. fold paths in Hi, H.
    destruct (afterProdInstall_facts X proc _ _ _ _ _ _ _ _ H) as (C & F & _).
    assert (w' = v → False) as Hstop.
    { intros ->. rewrite T in Hreach.
      apply list_elem_of_singleton in Hreach. discriminate. }
    apply afterProdInstall_cases in H. cbv zeta in H.
    destruct (requireVersion _ _ _ _ _) as [detected|] eqn:Hreq;
      [|destruct H as [H _]; destruct (Hstop H)].
    destruct (SemVer.parse detected) as [ver|] eqn:Hver;
      [|destruct H as [H _]; destruct (Hstop H)].
    exists prep, pruned, dep, disk0, v, detected, ver.
    split; [done|]. split; [done|]. split; [done|].
    split; [intros p Hp'; symmetry; by apply F|].
    split; [done|]. split; [done|].
    destruct H as [(_ & H & _)|[(Hnb & _)|(Hnb & _)]]; [destruct (Hstop H)|done|done].
Qed.

Lemma registry_auth_file_lifetime_witness :
  ∃ out, Fixture.tokenRun = (Fixture.tokenRun.1, inr out)
  ∧ (∀ token, env (Fixture.withToken "s3cret") !! "NPM_AUTH_TOKEN" = Some token →
       token ≠ EmptyString →
       let line := ("//registry.npmjs.org/:_authToken=" ++ token)%string in
       before (NpmrcWritten line) DevInstallBegun (trace Fixture.tokenRun.1)
       ∧ before ProdInstallDone NpmrcRemoved (trace Fixture.tokenRun.1)
       ∧ (∀ out', (inr out : BuildError + BuilderOutput) = inr out' →
            reached (NpmrcWritten line) (trace Fixture.tokenRun.1)
            ∧ reached NpmrcRemoved (trace Fixture.tokenRun.1)
            ∧ fs Fixture.tokenRun.1 !! Path.canon (cwd Fixture.tokenRun.1) ".npmrc"
              = None))
  ∧ (env (Fixture.withToken "s3cret") !! "NPM_AUTH_TOKEN" = None
     ∨ env (Fixture.withToken "s3cret") !! "NPM_AUTH_TOKEN" = Some EmptyString →
     ∀ e, e ∈ trace Fixture.tokenRun.1 →
       (∀ data, e ≠ EvWriteFile ".npmrc" data) ∧ e ≠ EvUnlink ".npmrc")
  ∧ (reached NpmrcRemoved (trace Fixture.tokenRun.1) →
     let X := Fixture.collaborators "2.14.12" Fixture.defaultNuxtConfig in
     let opts := Fixture.options Fixture.defaultConfig in
     let paths := resolvePaths (workPath opts) (entrypoint opts) in
     ∃ prep pruned dep disk0 v detected ver,
       preparePkgForProd X (pkg prep) = Some (pruned, dep)
       ∧ runNpmInstall X (entrypointPath paths) (prodInstallArgs paths prep)
           (withEnv "NPM_ONLY_PRODUCTION" "true" (spawnOpts prep)) (meta opts)
           (cwd v)
           (<[Path.canon (cwd v) "package.json" := stringifyJSON X pruned]> disk0)
         = Some (fs v)
       ∧ cwd v = cwd Fixture.tokenRun.1
       ∧ (∀ p, p ≠ Path.canon (cwd v) ".npmrc" →
            fs v !! p = fs Fixture.tokenRun.1 !! p)
       ∧ requireVersion X (entrypointPath paths)
           ("@nuxt/core" ++ suffix dep ++ "/package.json")%string
           (cwd v) (fs v) = Some detected
       ∧ SemVer.parse detected = Some ver
       ∧ ¬ belowMinimum ver).
Proof.
  destruct (returned Fixture.tokenRun) as [out E]; [vm_compute; reflexivity|].
  exists out. split; [exact E|].
  exact (registry_auth_file_lifetime
           (Fixture.collaborators "2.14.12" Fixture.defaultNuxtConfig)
           (Fixture.withToken "s3cret") (Fixture.options Fixture.defaultConfig)
           Fixture.disk [] _ _ E).
Defined.

(** C8 as stated fails in two ways.  With the token variable set to the
    empty string the build returns and no [.npmrc] is written: the
    milestones are those of a run without a token.  And with a token and
    the framework at version 2.3.0, the production install returns, the
    version check throws, and the run ends with [.npmrc], token inside,
    still in the entry directory: nothing has removed it. *)
Lemma npmrc_not_written_or_not_removed :
  (env (Fixture.withToken EmptyString) !! "NPM_AUTH_TOKEN" = Some EmptyString
   ∧ isReturn Fixture.emptyTokenRun.2 = true
   ∧ milestones (trace Fixture.emptyTokenRun.1)
     = [DevInstallBegun; DevInstallDone; ManifestPruned; ManifestRewritten;
        ProdInstallBegun; ProdInstallDone]
   ∧ fs Fixture.emptyTokenRun.1 !! ["work"; "apps"; "web"; ".npmrc"] = None)
  ∧ (env (Fixture.withToken "s3cret") !! "NPM_AUTH_TOKEN" = Some "s3cret"
     ∧ Fixture.oldRun.2 = inl (UnsupportedFrameworkVersion "2.3.0")
     ∧ milestones (trace Fixture.oldRun.1)
       = [NpmrcWritten "//registry.npmjs.org/:_authToken=s3cret";
          DevInstallBegun; DevInstallDone; ManifestPruned; ManifestRewritten;
          ProdInstallBegun; ProdInstallDone]
     ∧ cwd Fixture.oldRun.1 = ["work"; "apps"; "web"]
     ∧ fs Fixture.oldRun.1 !! ["work"; "apps"; "web"; ".npmrc"]
       = Some "//registry.npmjs.org/:_authToken=s3cret").
Proof. vm_compute. repeat split; reflexivity. Qed.

(** ** C5: a missing manifest *)

Lemma readManifest_fails (X : Collaborators) (paths : Paths) (w : World) :
  fs w !! Path.canon (cwd w) "package.json" = None
  ∨ (∃ data, fs w !! Path.canon (cwd w) "package.json" = Some data
             ∧ parseJSON X data = None) →
  readManifest X paths w
  = (addEvent (EvReadJSON "package.json") w,
     inl (ManifestNotFound (entrypointPath paths))).
Proof.
  intros H. unfold readManifest, catch, readJSON.
  rewrite run_bind. simpl. rewrite run_bind. simpl. rewrite run_bind. simpl.
  rewrite run_bind. simpl.
  destruct H as [-> | (data & -> & Hp)]; simpl; [done|].
  by rewrite Hp.
Qed.

(** C5.  When the workspace has been prepared and the entry directory
    holds no [package.json], or one that does not parse, the build throws
    [ManifestNotFound] for the entry path, right after the attempt to
    read it: the trace of the run holds no milestone, so neither install
    pass has started, and the workspace is as the preparation left it. *)
Theorem missing_manifest_aborts (X : Collaborators) (proc : Process)
    (opts : BuildOptions) (disk : FS) (dir : list string) (w1 : World) :
  let paths := resolvePaths (workPath opts) (entrypoint opts) in
  prepareWorkspace X opts paths (initialWorld disk dir) = (w1, inr tt) →
  fs w1 !! Path.canon (cwd w1) "package.json" = None
  ∨ (∃ data, fs w1 !! Path.canon (cwd w1) "package.json" = Some data
             ∧ parseJSON X data = None) →
  cwd w1 = Path.canon (Path.canon dir (workPath opts)) (entrypointPath paths)
  ∧ ∃ w', build X proc opts (initialWorld disk dir)
          = (w', inl (ManifestNotFound (entrypointPath paths)))
    ∧ trace w' = trace w1 ++ [EvReadJSON "package.json"]
    ∧ fs w' = fs w1
    ∧ (∀ e, e ∈ trace w' → milestone e = None)
    ∧ (∀ e pass args, e ∈ trace w' →
         e ≠ EvInstallBegin pass args ∧ e ≠ EvInstallEnd pass).
Proof.
  intros paths H1 Hbad.
  pose proof (prepareWorkspace_inr X _ _ _ _ _ H1) as [_ C1]. simpl in C1.
  split; [exact C1|].
  exists (addEvent (EvReadJSON "package.json") w1).
  assert (build X proc opts (initialWorld disk dir)
          = (addEvent (EvReadJSON "package.json") w1,
             inl (ManifestNotFound (entrypointPath paths)))) as Hrun.
  { unfold build. cbv zeta. fold paths.
    rewrite (bind_ok _ _ _ _ _ H1).
    by rewrite (bind_fail _ _ _ _ _ (readManifest_fails X paths w1 Hbad)). }
  split; [exact Hrun|]. split; [done|]. split; [done|].
  assert (∀ e, e ∈ trace (addEvent (EvReadJSON "package.json") w1) →
               milestone e = None) as Hnone.
  { destruct (build_milestones X proc opts disk dir _ _ Hrun) as [_ _].
    destruct (follows_prepareWorkspace X opts paths _ _ _ H1) as (ms & T & P).
    simpl in T, P. rewrite P in T. clear P. intros e He. simpl in He.
    apply elem_of_app in He as [He|He].
    - destruct (milestone e) as [m|] eqn:Hm; [|done].
      pose proof (milestone_of_event _ _ m He Hm) as Hin.
      rewrite T in Hin. by apply elem_of_nil in Hin.
    - apply list_elem_of_singleton in He. by subst e. }
  split; [exact Hnone|].
  intros e pass args He. apply Hnone in He.
  split; intros ->; by destruct pass.
Qed.

(** The concrete project without its manifest. *)
Example bare_project_aborts :
  Fixture.bareRun.2 = inl (ManifestNotFound "/work/apps/web")
  ∧ milestones (trace Fixture.bareRun.1) = []
  ∧ last (trace Fixture.bareRun.1) = Some (EvReadJSON "package.json").
Proof. vm_compute. repeat split; reflexivity. Qed.

Lemma missing_manifest_aborts_witness :
  let X := Fixture.collaborators "2.14.12" Fixture.defaultNuxtConfig in
  let opts := Fixture.options Fixture.defaultConfig in
  let paths := resolvePaths (workPath opts) (entrypoint opts) in
  let w1 := (prepareWorkspace X opts paths (initialWorld Fixture.bareDisk [])).1 in
  prepareWorkspace X opts paths (initialWorld Fixture.bareDisk []) = (w1, inr tt)
  ∧ (fs w1 !! Path.canon (cwd w1) "package.json" = None
     ∨ (∃ data, fs w1 !! Path.canon (cwd w1) "package.json" = Some data
                ∧ parseJSON X data = None))
  ∧ cwd w1 = Path.canon (Path.canon [] (workPath opts)) (entrypointPath paths)
  ∧ ∃ w', build X Fixture.noToken opts (initialWorld Fixture.bareDisk [])
          = (w', inl (ManifestNotFound (entrypointPath paths)))
    ∧ trace w' = trace w1 ++ [EvReadJSON "package.json"]
    ∧ fs w' = fs w1
    ∧ (∀ e, e ∈ trace w' → milestone e = None)
    ∧ (∀ e pass args, e ∈ trace w' →
         e ≠ EvInstallBegin pass args ∧ e ≠ EvInstallEnd pass).
Proof.
  intros X opts paths w1.
  assert (prepareWorkspace X opts paths (initialWorld Fixture.bareDisk [])
          = (w1, inr tt)) as H1.
  { destruct (returned (prepareWorkspace X opts paths (initialWorld Fixture.bareDisk [])))
      as [[] E]; [vm_compute; reflexivity|exact E]. }
  assert (fs w1 !! Path.canon (cwd w1) "package.json" = None
     ∨ (∃ data, fs w1 !! Path.canon (cwd w1) "package.json" = Some data
                ∧ parseJSON X data = None)) as Hbad.
  { left. vm_compute. reflexivity. }
  split; [exact H1|]. split; [exact Hbad|].
  exact (missing_manifest_aborts X Fixture.noToken opts Fixture.bareDisk [] w1 H1 Hbad).
Defined.

(** ** C4: the version check *)

Lemma validateNuxtVersion_honest (detected : string) :
  raisesOnly honestVersionError (validateNuxtVersion detected).
Proof.
  intros w w' e. destruct (SemVer.parse detected) as [v|] eqn:Hv.
  - rewrite (validateNuxtVersion_run detected v w Hv).
    destruct (SemVer.compare v minimumVersion) eqn:Hc.
    + destruct (SemVer.compare v testedCeiling); discriminate.
    + intros [= _ <-] d [= <-]. exists v. split; [done|]. by apply compare_minimum.
    + destruct (SemVer.compare v testedCeiling); discriminate.
  - unfold validateNuxtVersion, SemVer.gte. rewrite Hv. simpl.
    intros [= _ <-] d [=].
Qed.

Section RaisesStages.

Variable X : Collaborators.
Variable proc : Process.

Abbreviation honest := (raisesOnly honestVersionError).

Lemma honest_call {A} (who : string) (f : list string → FS → option (A * FS)) :
  honest (call who f).
Proof. unfold call. raises_auto. Qed.

Lemma honest_locate (file : string) : honest (locate file).
Proof. apply raises_gets. Qed.

Hint Resolve honest_call honest_locate validateNuxtVersion_honest : raises.

Lemma honest_chdir (dir : string) : honest (chdir dir).
Proof. unfold chdir. raises_auto. Qed.

Lemma honest_existsSync (file : string) : honest (existsSync file).
Proof. unfold existsSync. raises_auto. Qed.

Lemma honest_readFile (file : string) : honest (readFile file).
Proof. unfold readFile. raises_auto. Qed.

Lemma honest_writeFile (file data : string) : honest (writeFile file data).
Proof. unfold writeFile. raises_auto. Qed.

Lemma honest_copyFile (from to : string) : honest (copyFile from to).
Proof. unfold copyFile. raises_auto. Qed.

Lemma honest_unlink (file : string) : honest (unlink file).
Proof. unfold unlink. raises_auto. Qed.

Lemma honest_glob (pattern dir : string) : honest (glob X pattern dir).
Proof. unfold glob. raises_auto. Qed.

Hint Resolve honest_chdir honest_existsSync honest_readFile honest_writeFile
  honest_copyFile honest_unlink honest_glob : raises.

Lemma honest_mergeServerFiles (dir : string) (patterns : list string)
    (launcherFiles : FileSet) :
  honest (mergeServerFiles X dir patterns launcherFiles).
Proof.
  revert launcherFiles. induction patterns as [|p ps IH]; intros lf; simpl.
  - apply raises_ret.
  - apply raises_bind; [apply honest_glob|]. intros found. apply IH.
Qed.

Hint Resolve honest_mergeServerFiles : raises.

(** The only [UnsupportedFrameworkVersion] a build throws comes from the
    version check, for a version below the minimum. *)
Lemma honest_build (opts : BuildOptions) : honest (build X proc opts).
Proof.
  unfold build, prepareWorkspace, readManifest, prepareEnvironment,
    installDevDependencies, preBuild, nuxtBuild, installDependencies,
    collectArtifacts, packageLambda, globAndPrefix, createLambda, readJSON,
    writeJSON, install, namespaceModules, nuxt, startStep, endStep, mkdirp.
  raises_auto.
Qed.

End RaisesStages.

(** C4.  In every run of [build] from a fresh world: the run returns,
    throws [UnsupportedFrameworkVersion] or logs a warning only after the
    production install has returned; and once it has returned, into a
    world [v], on the manifest the prune gave, the outcome is decided by
    what the framework's [package.json] resolves to in [v].  When it
    resolves to a semantic version: the run throws
    [UnsupportedFrameworkVersion], naming that version, exactly when the
    version is below 2.4.0, and it then stops in [v], without a warning;
    any other error of the run is not about the version; above 3.0.0 the
    run goes on from [v] with the one warning added, and that is the
    only warning of the run; from 2.4.0 to 3.0.0 the run goes on from
    [v] and ends without a warning.  When it does not resolve, or to
    something that is no semantic version, the run stops in [v] with
    another error. *)
Theorem unsupported_exactly_below_minimum (X : Collaborators) (proc : Process)
    (opts : BuildOptions) (disk : FS) (dir : list string)
    (w' : World) (r : BuildError + BuilderOutput) :
  build X proc opts (initialWorld disk dir) = (w', r) →
  let paths := resolvePaths (workPath opts) (entrypoint opts) in
  ((isReturn r = true ∨ (∃ d, r = inl (UnsupportedFrameworkVersion d))
    ∨ warnings w' ≠ []) →
   reached ProdInstallDone (trace w'))
  ∧ (reached ProdInstallDone (trace w') →
     ∃ prep nb pruned dep disk0 v,
       preparePkgForProd X (pkg prep) = Some (pruned, dep)
       ∧ runNpmInstall X (entrypointPath paths) (prodInstallArgs paths prep)
           (withEnv "NPM_ONLY_PRODUCTION" "true" (spawnOpts prep)) (meta opts)
           (cwd v)
           (<[Path.canon (cwd v) "package.json" := stringifyJSON X pruned]> disk0)
         = Some (fs v)
       ∧ cwd v = cwd w'
       ∧ (∀ p, p ≠ Path.canon (cwd v) ".npmrc" → fs v !! p = fs w' !! p)
       ∧ warnings v = []
       ∧ let request := ("@nuxt/core" ++ suffix dep ++ "/package.json")%string in
         match requireVersion X (entrypointPath paths) request (cwd v) (fs v) with
         | None => r = inl (FrameworkNotResolvable request) ∧ w' = v
         | Some detected =>
             match SemVer.parse detected with
             | None => r = inl (InvalidVersion detected) ∧ w' = v
             | Some ver =>
                 (r = inl (UnsupportedFrameworkVersion detected)
                  ↔ belowMinimum ver)
                 ∧ (∀ e, r = inl e →
                      e = UnsupportedFrameworkVersion detected
                      ∨ notVersionError e)
                 ∧ (belowMinimum ver → w' = v)
                 ∧ (aboveCeiling ver →
                      afterVersionCheck X proc opts paths prep nb dep
                        (addWarning untestedWarning v) = (w', r)
                      ∧ warnings w' = [untestedWarning])
                 ∧ (¬ belowMinimum ver → ¬ aboveCeiling ver →
                      afterVersionCheck X proc opts paths prep nb dep v = (w', r)
                      ∧ warnings w' = [])
             end
         end).
Proof.
  intros E paths.
  destruct (build_cases X proc opts _ _ _ E)
    as [(e & -> & Hne & Q)
       |(prep & nb & pruned & dep & disk0 & v & Hp & Hi & Q & H)].
  - injection Q as W T. simpl in W, T. split.
    + intros [Hr|[[d Hd]|Hw]]; [discriminate| |done].
      injection Hd as ->. destruct Hne.
    + intros Hreach%reached_late; [|by left]. rewrite T in Hreach.
      by apply elem_of_nil in Hreach.
  - injection Q as W T. simpl in W, T. fold paths in Hi, H.
    destruct (afterProdInstall_facts X proc _ _ _ _ _ _ _ _ H) as (C & F & L).
    assert (reached ProdInstallDone (trace w')) as Hreach.
    { apply late_reached. destruct L as [-> | ->]; rewrite T;
        rewrite ?elem_of_app, !list_elem_of_singleton; auto. }
    split; [done|]. intros _.
    exists prep, nb, pruned, dep, disk0, v.
    split; [done|]. split; [done|]. split; [done|].
    split; [intros p Hp'; symmetry; by apply F|]. split; [done|].
    apply afterProdInstall_cases in H. cbv zeta in H |- *.
    destruct (requireVersion _ _ _ _ _) as [detected|]; [|by destruct H].
    destruct (SemVer.parse detected) as [ver|]; [|by destruct H].
    destruct H as [(Hb & -> & ->)|[(Hnb & Ha & H)|(Hnb & Hna & H)]].
    + split; [done|]. split; [intros e [= <-]; by left|]. split; [done|].
      split; [intros Ha; destruct (below_not_above ver Hb Ha)|].
      intros Hnb. by destruct Hnb.
    + pose proof (afterVersionCheck_facts X proc _ _ _ _ _ _ _ _ H)
        as (_ & W' & Hcalm & _).
      simpl in W'. rewrite W in W'.
      split; [split; [intros ->; destruct (Hcalm _ eq_refl)|done]|].
      split; [intros e ->; right; by apply Hcalm|].
      split; [done|]. split; [done|]. intros _ Hna. by destruct Hna.
    + pose proof (afterVersionCheck_facts X proc _ _ _ _ _ _ _ _ H)
        as (_ & W' & Hcalm & _).
      rewrite W in W'.
      split; [split; [intros ->; destruct (Hcalm _ eq_refl)|done]|].
      split; [intros e ->; right; by apply Hcalm|].
      split; [done|]. split; [done|]. done.
Qed.

Lemma unsupported_exactly_below_minimum_witness :
  Fixture.oldRun.2 = inl (UnsupportedFrameworkVersion "2.3.0")
  ∧ reached ProdInstallDone (trace Fixture.oldRun.1)
  ∧ ∃ dep v ver,
      requireVersion (Fixture.collaborators "2.3.0" Fixture.defaultNuxtConfig)
        (entrypointPath (resolvePaths "/work" "apps/web/package.json"))
        ("@nuxt/core" ++ suffix dep ++ "/package.json")%string (cwd v) (fs v)
      = Some "2.3.0"
      ∧ SemVer.parse "2.3.0" = Some ver
      ∧ belowMinimum ver
      ∧ Fixture.oldRun.1 = v.
Proof.
  assert (Fixture.oldRun.2 = inl (UnsupportedFrameworkVersion "2.3.0")) as R
    by (vm_compute; reflexivity).
  split; [exact R|].
  destruct (unsupported_exactly_below_minimum
              (Fixture.collaborators "2.3.0" Fixture.defaultNuxtConfig)
              (Fixture.withToken "s3cret") (Fixture.options Fixture.defaultConfig)
              Fixture.disk [] Fixture.oldRun.1 Fixture.oldRun.2
              (surjective_pairing Fixture.oldRun)) as [A B].
  pose proof (A (or_intror (or_introl (ex_intro _ "2.3.0" R)))) as Hreach.
  split; [exact Hreach|].
  destruct (B Hreach) as (prep & nb & pruned & dep & disk0 & v & _ & _ & _ & _ & _ & Hm).
  cbv zeta in Hm. exists dep, v.
  destruct (requireVersion _ _ _ _ _) as [detected|].
  - destruct (SemVer.parse detected) as [ver|] eqn:Hver.
    + destruct Hm as (Hiff & Honly & Hstop & _).
      destruct (Honly _ R) as [[= <-]|[]].
      exists ver. split; [reflexivity|]. split; [exact Hver|].
      split; [exact (proj1 Hiff R)|]. exact (Hstop (proj1 Hiff R)).
    + destruct Hm as [Hm _]. rewrite R in Hm. discriminate Hm.
  - destruct Hm as [Hm _]. rewrite R in Hm. discriminate Hm.
Defined.

(** Scenario D and the warning, on the concrete project. *)
Example version_scenarios :
  Fixture.oldRun.2 = inl (UnsupportedFrameworkVersion "2.3.0")
  ∧ isReturn Fixture.futureRun.2 = true
  ∧ warnings Fixture.futureRun.1 = [untestedWarning]
  ∧ isReturn Fixture.plainRun.2 = true
  ∧ warnings Fixture.plainRun.1 = [].
Proof. vm_compute. repeat split; reflexivity. Qed.

(** ** C3: the path resolver *)

Lemma chars_app (a b : string) : chars (a ++ b)%string = chars a ++ chars b.
Proof. unfold chars. induction a as [|c a IH]; simpl; [done|]. by rewrite IH. Qed.

Lemma unchars_chars (s : string) : unchars (chars s) = s.
Proof. apply string_of_list_ascii_of_string. Qed.

Lemma isSlash_eq (c : ascii) : isSlash c = true → c = "/"%char.
Proof. unfold isSlash. by intros ?%Ascii.eqb_eq. Qed.

Lemma split_nonempty (s : string) : Path.split s ≠ [].
Proof.
  unfold Path.split. destruct s as [|c s]; simpl; [done|].
  destruct (Ascii.eqb c "/"); [done|]. by destruct (splitOn "/" s).
Qed.

Lemma split_cons (c : ascii) (s : string) :
  Path.split (String c s)
  = if isSlash c then EmptyString :: Path.split s
    else match Path.split s with
         | seg :: rest => String c seg :: rest
         | [] => [String c EmptyString]
         end.
Proof. reflexivity. Qed.

Lemma unsplit_cons (x : string) (rest : list string) :
  rest ≠ [] → Path.unsplit (x :: rest) = (x ++ String "/" (Path.unsplit rest))%string.
Proof. destruct rest; [done|]. reflexivity. Qed.

Lemma unsplit_split (s : string) : Path.unsplit (Path.split s) = s.
Proof.
  induction s as [|c s IH]; [done|]. rewrite split_cons.
  destruct (isSlash c) eqn:Hc.
  - apply isSlash_eq in Hc as ->.
    rewrite unsplit_cons by apply split_nonempty. simpl. by rewrite IH.
  - destruct (Path.split s) as [|seg rest] eqn:E; [by apply split_nonempty in E|].
    destruct rest as [|y rest].
    + change (Path.unsplit [seg]) with seg in IH. by subst s.
    + rewrite unsplit_cons by done. rewrite unsplit_cons in IH by done.
      by subst s.
Qed.

(** A string is free of slashes, or falls into what is before its last
    slash and a slash-free rest. *)
Lemma last_slash (s : string) :
  slashFree s = true
  ∨ ∃ d b, s = (d ++ String "/" b)%string ∧ slashFree b = true
           ∧ Path.split s = Path.split d ++ [b].
Proof.
  induction s as [|c s IH]; [by left|].
  rewrite split_cons. unfold slashFree in *. simpl.
  destruct (isSlash c) eqn:Hc; simpl.
  - right. apply isSlash_eq in Hc as ->. destruct IH as [Hs|(d & b & -> & Hb & Hsp)].
    + exists EmptyString, s. repeat split; [done|].
      by rewrite (split_slashFree s Hs).
    + exists (String "/" d), b. repeat split; [done|].
      by rewrite Hsp, split_cons.
  - destruct IH as [Hs|(d & b & -> & Hb & Hsp)]; [by left|right].
    exists (String c d), b. repeat split; [done|].
    rewrite Hsp, split_cons, Hc.
    destruct (Path.split d) as [|seg rest] eqn:E; [by apply split_nonempty in E|].
    done.
Qed.

Lemma dropTrailingEmpty_snoc (l : list string) (b : string) :
  dropTrailingEmpty (l ++ [b])
  = if truthy b then l ++ [b] else dropTrailingEmpty l.
Proof.
  induction l as [|x l IH]; simpl.
  - by destruct (truthy b).
  - rewrite IH. destruct (truthy b); [|done].
    by destruct (l ++ [b]) eqn:E; [apply app_eq_nil in E as [_ ?]|].
Qed.

Lemma skipWhile_app {T} (p : T → bool) (l1 l2 : list T) :
  forallb p l1 = true → skipWhile p (l1 ++ l2) = skipWhile p l2.
Proof.
  induction l1 as [|x l1 IH]; simpl; [done|].
  intros [Hx Hl]%andb_true_iff. rewrite Hx. by apply IH.
Qed.

Lemma forallb_rev_true {T} (p : T → bool) (l : list T) :
  forallb p l = true → forallb p (rev l) = true.
Proof.
  rewrite !forallb_forall. intros H x Hx. apply H. by apply in_rev.
Qed.

(** [dirname] ignores one trailing slash. *)
Lemma dirname_trailing_slash (d : string) :
  truthy d = true →
  Path.dirname (d ++ String "/" EmptyString)%string = Path.dirname d.
Proof.
  destruct d as [|c0 d]; [done|]. intros _. unfold Path.dirname.
  rewrite chars_app. change (chars (String c0 d)) with (c0 :: chars d).
  simpl. by rewrite rev_app_distr.
Qed.

Lemma dirname_slashFree (s : string) :
  truthy s = true → Path.isAbsolute s = false → slashFree s = true →
  Path.dirname s = ".".
Proof.
  destruct s as [|c0 s]; [done|]. intros _ Habs Hs. simpl in Habs.
  unfold Path.dirname, slashFree in *.
  change (chars (String c0 s)) with (c0 :: chars s) in *. simpl in Hs |- *.
  apply andb_true_iff in Hs as [_ Hs]. apply forallb_rev_true in Hs.
  destruct (rev (chars s)) as [|x l] eqn:E; simpl; [by rewrite Habs|].
  simpl in Hs. apply andb_true_iff in Hs as [Hx Hl].
  apply negb_true_iff in Hx. rewrite Hx. simpl. rewrite Hx. simpl.
  rewrite <- (app_nil_r l), (skipWhile_app _ l [] Hl). simpl. by rewrite Habs.
Qed.

Lemma dirname_last_component (d b : string) :
  truthy d = true → Path.isAbsolute d = false →
  truthy b = true → slashFree b = true →
  Path.dirname (d ++ String "/" b)%string = d.
Proof.
  destruct d as [|c0 d]; [done|]. intros _ Habs Hb Hs. simpl in Habs.
  unfold Path.dirname, slashFree in *. rewrite chars_app.
  change (chars (String c0 d)) with (c0 :: chars d).
  change (chars (String "/" b)) with ("/"%char :: chars b).
  simpl. rewrite rev_app_distr. simpl. rewrite <- app_assoc. simpl.
  apply forallb_rev_true in Hs.
  destruct (rev (chars b)) as [|x l] eqn:E.
  { apply (f_equal (@rev ascii)) in E. rewrite rev_involutive in E. simpl in E.
    destruct b; [done|discriminate]. }
  simpl in Hs |- *. apply andb_true_iff in Hs as [Hx Hl].
  pose proof Hx as Hx'. apply negb_true_iff in Hx'. rewrite Hx'. simpl.
  rewrite Hx'. simpl. rewrite (skipWhile_app _ l _ Hl). simpl.
  destruct (rev (chars d)) as [|y k] eqn:Ed.
  - apply (f_equal (@rev ascii)) in Ed. rewrite rev_involutive in Ed. simpl in Ed.
    rewrite Habs. destruct d; [done|discriminate].
  - rewrite <- Ed, rev_involutive.
    change (unchars (c0 :: chars d)) with (String c0 (unchars (chars d))).
    by rewrite unchars_chars.
Qed.

Lemma parentDirectory_trailing_slash (d : string) :
  parentDirectory (d ++ String "/" EmptyString)%string = parentDirectory d.
Proof.
  unfold parentDirectory.
  assert (Path.split (d ++ String "/" EmptyString)%string
          = Path.split d ++ [EmptyString]) as ->.
  { induction d as [|c d IH]; [done|].
    change (String c d ++ String "/" EmptyString)%string
      with (String c (d ++ String "/" EmptyString))%string.
    rewrite !split_cons, IH. destruct (isSlash c); [done|].
    by destruct (Path.split d) as [|seg rest] eqn:E; [apply split_nonempty in E|]. }
  by rewrite dropTrailingEmpty_snoc.
Qed.

(** On a well-formed entrypoint, [path.dirname] is the parent directory. *)
Lemma dirname_parentDirectory (e : string) :
  wellFormedEntrypoint e = true → Path.dirname e = parentDirectory e.
Proof.
  remember (length (chars e)) as n eqn:Hn. revert e Hn.
  induction n as [n IH] using lt_wf_ind. intros e -> [He Habs]%andb_true_iff.
  apply negb_true_iff in Habs.
  destruct (last_slash e) as [Hs|(d & b & -> & Hb & Hsp)].
  - rewrite (dirname_slashFree e He Habs Hs). unfold parentDirectory.
    rewrite (split_slashFree e Hs). simpl. by rewrite He.
  - assert (truthy d = true ∧ Path.isAbsolute d = false) as [Hd Hdabs].
    { destruct d as [|c d]; [done|]. by simpl in *. }
    destruct b as [|cb b].
    + rewrite dirname_trailing_slash, parentDirectory_trailing_slash by done.
      apply (IH (length (chars d))); [|done|].
      * rewrite chars_app, length_app. simpl. lia.
      * unfold wellFormedEntrypoint. by rewrite Hd, Hdabs.
    + rewrite dirname_last_component by done. unfold parentDirectory.
      rewrite Hsp, dropTrailingEmpty_snoc. simpl truthy. cbv iota.
      rewrite removelast_last.
      destruct (Path.split d) as [|seg rest] eqn:E; [by apply split_nonempty in E|].
      rewrite <- E. symmetry. apply unsplit_split.
Qed.

(** C3.  For every well-formed entrypoint [e]: the entry directory is the
    parent directory of [e], the entry path is the workspace root joined
    with the entry directory, and the module-install directory is the
    entry path joined with [node_modules]. *)
Theorem resolved_paths (root e : string) :
  wellFormedEntrypoint e = true →
  let p := resolvePaths root e in
  entrypointDir p = parentDirectory e
  ∧ entrypointPath p = Path.join [root; entrypointDir p]
  ∧ modulesPath p = Path.join [entrypointPath p; "node_modules"]
  ∧ rootPath p = root.
Proof.
  intros He. simpl. split; [by apply dirname_parentDirectory|]. by repeat split.
Qed.

Lemma resolved_paths_witness :
  wellFormedEntrypoint "apps/neu.app/package.json" = true
  ∧ let p := resolvePaths "/vercel/workpath0" "apps/neu.app/package.json" in
    entrypointDir p = parentDirectory "apps/neu.app/package.json"
    ∧ entrypointPath p = Path.join ["/vercel/workpath0"; entrypointDir p]
    ∧ modulesPath p = Path.join [entrypointPath p; "node_modules"]
    ∧ rootPath p = "/vercel/workpath0".
Proof.
  split; [reflexivity|].
  apply (resolved_paths "/vercel/workpath0" "apps/neu.app/package.json").
  reflexivity.
Defined.

Example resolved_paths_fixture :
  resolvePaths "/vercel/workpath0" "apps/neu.app/package.json"
  = mkPaths "apps/neu.app" "/vercel/workpath0/apps/neu.app" "/vercel/workpath0"
      "/vercel/workpath0/apps/neu.app/node_modules"
  ∧ parentDirectory "apps/neu.app/package.json" = "apps/neu.app"
  ∧ parentDirectory "package.json" = "."
  ∧ parentDirectory "apps//web/" = "apps/".
Proof. vm_compute. repeat split; reflexivity. Qed.

(** * More of the pipeline and of its harness *)

(** ** The working directory (build.ts, lines 67 and 74) *)





(** ** The files a run writes itself *)

Lemma keepsFile_query {A} (p : list string) (g : list string → FS → option A) :
  keepsFile p (query g).
Proof. intros dir disk a disk' [_ ->]%query_Some. done. Qed.

Lemma seenFrom_readonly {A} (entry p : list string) (m : M A) :
  preserves cwd m → preserves fs m → preserves (seenFrom entry p) m.
Proof.
  intros Hc Hf w w' r E. unfold seenFrom.
  by rewrite (Hc _ _ _ E), (Hf _ _ _ E).
Qed.

Lemma seenFrom_emit (entry p : list string) (e : Event) :
  preserves (seenFrom entry p) (emit e).
Proof. by apply preserves_modify. Qed.

Lemma seenFrom_warn (entry p : list string) (msg : string) :
  preserves (seenFrom entry p) (warn msg).
Proof. by apply preserves_modify. Qed.

Lemma seenFrom_locate (entry p : list string) (file : string) :
  preserves (seenFrom entry p) (locate file).
Proof. apply preserves_gets. Qed.

Lemma seenFrom_call {A} (entry p : list string) (who : string)
    (g : list string → FS → option (A * FS)) :
  keepsFile p g → preserves (seenFrom entry p) (call who g).
Proof.
  intros Hg w w' r. unfold seenFrom. run_monad.
  destruct (g (cwd w) (fs w)) as [[a disk']|] eqn:E; simpl.
  - intros [= <- <-]. simpl. by rewrite (Hg _ _ _ _ E).
  - by intros [= <- <-].
Qed.

Lemma seenFrom_writeFile (entry p : list string) (file data : string) :
  Path.canon entry file ≠ p → preserves (seenFrom entry p) (writeFile file data).
Proof.
  intros Hp w w' r. unfold seenFrom. run_monad. simpl.
  intros [= <- <-]. simpl.
  destruct (decide (cwd w = entry)) as [C|]; [|done].
  rewrite lookup_insert_ne; [done|]. by rewrite C.
Qed.

Lemma seenFrom_copyFile (entry p : list string) (from to : string) :
  Path.canon entry to ≠ p → preserves (seenFrom entry p) (copyFile from to).
Proof.
  intros Hp w w' r. unfold seenFrom. run_monad. simpl.
  destruct (fs w !! Path.canon (cwd w) from) as [data|]; simpl.
  - intros [= <- <-]. simpl.
    destruct (decide (cwd w = entry)) as [C|]; [|done].
    rewrite lookup_insert_ne; [done|]. by rewrite C.
  - by intros [= <- <-].
Qed.

Lemma seenFrom_unlink (entry p : list string) (file : string) :
  Path.canon entry file ≠ p → preserves (seenFrom entry p) (unlink file).
Proof.
  intros Hp w w' r. unfold seenFrom. run_monad. simpl.
  destruct (fs w !! Path.canon (cwd w) file) as [data|]; simpl.
  - intros [= <- <-]. simpl.
    destruct (decide (cwd w = entry)) as [C|]; [|done].
    rewrite lookup_delete_ne; [done|]. by rewrite C.
  - by intros [= <- <-].
Qed.

Lemma fs_chdir (dir : string) : preserves fs (chdir dir).
Proof. unfold chdir. preserves_auto. Qed.

Lemma lookup_call {A} (p : list string) (who : string)
    (g : list string → FS → option (A * FS)) :
  keepsFile p g → preserves (λ w, fs w !! p) (call who g).
Proof.
  intros Hg w w' r. run_monad.
  destruct (g (cwd w) (fs w)) as [[a disk']|] eqn:E; simpl.
  - intros [= <- <-]. simpl. by rewrite (Hg _ _ _ _ E).
  - by intros [= <- <-].
Qed.

Lemma lookup_still {A} (p : list string) (m : M A) :
  preserves fs m → preserves (λ w, fs w !! p) m.
Proof. intros Hf w w' r E. by rewrite (Hf _ _ _ E). Qed.

Section Frame.

Variable X : Collaborators.
Variable proc : Process.
Variables entry p : list string.

Hypothesis keeps : collaboratorsKeep X p.
Hypothesis foreign : p ∉ ownFiles entry.

Let not_npmrc : Path.canon entry ".npmrc" ≠ p.
Proof. intros E. apply foreign. rewrite <- E. unfold ownFiles. set_solver. Qed.

Let not_yarnclean : Path.canon entry ".yarnclean" ≠ p.
Proof. intros E. apply foreign. rewrite <- E. unfold ownFiles. set_solver. Qed.

Let not_manifest : Path.canon entry "package.json" ≠ p.
Proof. intros E. apply foreign. rewrite <- E. unfold ownFiles. set_solver. Qed.

#[local] Hint Resolve seenFrom_emit seenFrom_warn seenFrom_locate : preserves.

#[local] Hint Extern 1 (preserves (seenFrom _ _) (call _ _)) =>
  apply seenFrom_call;
  first [ apply keepsFile_query
        | destruct keeps as (? & ? & ? & ? & ? & ? & ? & ?); solve [ auto ] ]
  : preserves.

#[local] Hint Extern 1 (preserves (seenFrom _ _) (writeFile _ _)) =>
  apply seenFrom_writeFile; assumption : preserves.

#[local] Hint Extern 1 (preserves (seenFrom _ _) (copyFile _ _)) =>
  apply seenFrom_copyFile; assumption : preserves.

#[local] Hint Extern 1 (preserves (seenFrom _ _) (unlink _)) =>
  apply seenFrom_unlink; assumption : preserves.

Lemma seenFrom_existsSync (file : string) :
  preserves (seenFrom entry p) (existsSync file).
Proof. unfold existsSync. preserves_auto. Qed.

Lemma seenFrom_mkdirp (dir : string) : preserves (seenFrom entry p) (mkdirp dir).
Proof. unfold mkdirp. preserves_auto. Qed.

Lemma seenFrom_startStep (step : string) :
  preserves (seenFrom entry p) (startStep step).
Proof. unfold startStep. preserves_auto. Qed.

#[local] Hint Resolve seenFrom_existsSync seenFrom_mkdirp seenFrom_startStep
  : preserves.

Lemma seenFrom_readManifest (paths : Paths) :
  preserves (seenFrom entry p) (readManifest X paths).
Proof.
  apply seenFrom_readonly; [apply cwd_readManifest|].
  unfold readManifest. apply preserves_catch; [apply fs_readJSON|].
  intros e. apply preserves_throw.
Qed.

Lemma seenFrom_prepareEnvironment (opts : BuildOptions) (paths : Paths)
    (pkg0 : MutablePackageJson) :
  preserves (seenFrom entry p) (prepareEnvironment X proc opts paths pkg0).
Proof. unfold prepareEnvironment. preserves_auto. Qed.

Lemma seenFrom_install (pass : InstallPass) (dir : string) (args : list string)
    (o : SpawnOptions) (m : Meta) :
  preserves (seenFrom entry p) (install X pass dir args o m).
Proof. unfold install. preserves_auto. Qed.

Lemma seenFrom_namespaceModules (dir ns : string) :
  preserves (seenFrom entry p) (namespaceModules X dir ns).
Proof. unfold namespaceModules. preserves_auto. Qed.

Lemma seenFrom_nuxt (args : list string) (o : SpawnOptions) :
  preserves (seenFrom entry p) (nuxt X args o).
Proof. unfold nuxt. preserves_auto. Qed.

Lemma seenFrom_validateNuxtVersion (detected : string) :
  preserves (seenFrom entry p) (validateNuxtVersion detected).
Proof.
  apply seenFrom_readonly;
    [apply cwd_validateNuxtVersion|apply fs_validateNuxtVersion].
Qed.

#[local] Hint Resolve seenFrom_install seenFrom_namespaceModules seenFrom_nuxt
  seenFrom_validateNuxtVersion : preserves.

Lemma seenFrom_installDevDependencies (opts : BuildOptions) (paths : Paths)
    (prep : Prepared) :
  preserves (seenFrom entry p) (installDevDependencies X opts paths prep).
Proof. unfold installDevDependencies. preserves_auto. Qed.

Lemma seenFrom_preBuild (paths : Paths) (prep : Prepared) :
  preserves (seenFrom entry p) (preBuild X paths prep).
Proof. unfold preBuild. preserves_auto. Qed.

Lemma seenFrom_nuxtBuild (opts : BuildOptions) (paths : Paths) (prep : Prepared) :
  preserves (seenFrom entry p) (nuxtBuild X opts paths prep).
Proof. unfold nuxtBuild. preserves_auto. Qed.

Lemma seenFrom_installDependencies (opts : BuildOptions) (paths : Paths)
    (prep : Prepared) :
  preserves (seenFrom entry p) (installDependencies X proc opts paths prep).
Proof. unfold installDependencies, writeJSON. preserves_auto. Qed.

Lemma seenFrom_afterWorkspace (opts : BuildOptions) (paths : Paths) :
  preserves (seenFrom entry p)
    (pkg0 ← readManifest X paths;
     prep ← prepareEnvironment X proc opts paths pkg0;
     _ ← installDevDependencies X opts paths prep;
     _ ← preBuild X paths prep;
     nb ← nuxtBuild X opts paths prep;
     nuxtDep ← installDependencies X proc opts paths prep;
     collectArtifacts X proc opts paths prep nb nuxtDep).
Proof.
  apply preserves_bind; [apply seenFrom_readManifest|intros pkg0].
  apply preserves_bind; [apply seenFrom_prepareEnvironment|intros prep].
  apply preserves_bind; [apply seenFrom_installDevDependencies|intros _].
  apply preserves_bind; [apply seenFrom_preBuild|intros _].
  apply preserves_bind; [apply seenFrom_nuxtBuild|intros nb].
  apply preserves_bind; [apply seenFrom_installDependencies|intros dep].
  apply seenFrom_readonly; [apply cwd_collectArtifacts|apply fs_collectArtifacts].
Qed.

Lemma lookup_prepareWorkspace (opts : BuildOptions) (paths : Paths) :
  preserves (λ w, fs w !! p) (prepareWorkspace X opts paths).
Proof.
  destruct keeps as (Hdownload & Hcopy & _).
  unfold prepareWorkspace.
  apply preserves_bind; [apply lookup_still, fs_startStep|intros _].
  apply preserves_bind; [|intros _].
  { destruct (validateEntrypoint X (entrypoint opts));
      [apply preserves_ret|apply preserves_throw]. }
  apply preserves_bind; [apply lookup_still, fs_emit|intros _].
  apply preserves_bind; [apply lookup_call, Hdownload|intros _].
  apply preserves_bind; [apply lookup_still, fs_chdir|intros _].
  apply preserves_bind; [|intros _; apply lookup_still, fs_chdir].
  destruct (NuxtBuilderConfig.buildFiles (config opts)); [|apply preserves_ret].
  apply preserves_bind; [apply lookup_still, fs_emit|intros _].
  apply lookup_call, Hcopy.
Qed.

End Frame.

(** Whatever the outcome of a run, [build] itself writes or removes no
    file but [.npmrc], [.yarnclean] and [package.json] of the entry
    directory: a file that is none of the three, and that the
    collaborators leave as they find it, has the content after the run
    that it had before. *)
Theorem build_writes_only_its_files (X : Collaborators) (proc : Process)
    (opts : BuildOptions) (p : list string) (w w' : World)
    (r : BuildError + BuilderOutput) :
  let paths := resolvePaths (workPath opts) (entrypoint opts) in
  let entry :=
    Path.canon (Path.canon (cwd w) (rootPath paths)) (entrypointPath paths) in
  collaboratorsKeep X p →
  p ∉ ownFiles entry →
  build X proc opts w = (w', r) →
  fs w' !! p = fs w !! p.
Proof.
  intros paths entry HX Hp H. unfold build in H. cbv zeta in H.
  apply bind_cases in H as [(e & H & ->)|(w1 & u1 & H1 & H)].
  - apply (lookup_prepareWorkspace X p HX) in H. exact H.
  - pose proof (lookup_prepareWorkspace X p HX _ _ _ _ _ H1) as F1.
    simpl in F1. apply prepareWorkspace_inr in H1 as [_ C1].
    apply (seenFrom_afterWorkspace X proc entry p HX Hp) in H.
    unfold seenFrom in H.
    destruct (decide (cwd w1 = entry)) as [_|C]; [|by destruct C].
    destruct (decide (cwd w' = entry)); [|done].
    injection H as H. by rewrite H.
Qed.

Lemma differs_by_last (l p : list string) (x y : string) :
  last p = Some y → x ≠ y → l ++ [x] ≠ p.
Proof. intros Hp Hxy <-. rewrite last_snoc in Hp. congruence. Qed.

(** The collaborators of the fixture write manifests of installed
    packages and compiled files only. *)
Lemma fixture_keeps (detected : string) (cfg : NuxtConfig.t) (p : list string) :
  last p = Some "secrets.json" →
  collaboratorsKeep (Fixture.collaborators detected cfg) p.
Proof.
  intros Hp.
  assert (∀ (l : list string) (x : string) (data : string) (disk : FS),
            x ≠ "secrets.json" → <[l ++ [x] := data]> disk !! p = disk !! p) as Hins.
  { intros l x data disk Hx. apply lookup_insert_ne.
    by apply (differs_by_last _ _ x "secrets.json"). }
  repeat split; simpl.
  - intros files dir meta cwd0 disk [] disk' [= <-]. done.
  - intros l a b cwd0 disk [] disk' [= <-]. done.
  - intros pkg o dir cwd0 disk a disk' [= _ <-]. done.
  - intros dir ns cwd0 disk [] disk' [= <-]. done.
  - intros dir args o meta cwd0 disk [] disk' H%effect_Some.
    unfold Fixture.installer in H. case_bool_decide; injection H as <-.
    + rewrite (assoc_L (++) _ ["node_modules_prod"; "@nuxt"; "core"] ["package.json"]).
      by apply Hins.
    + rewrite (assoc_L (++) _ ["node_modules_dev"; "nuxt"] ["package.json"]).
      by apply Hins.
  - intros dir script o cwd0 disk [] disk' [= <-]. done.
  - intros root entry dir o tsc cwd0 disk a disk' [= _ <-]. done.
  - intros cmd args o cwd0 disk [] disk' H%effect_Some.
    unfold Fixture.compiler in H. case_bool_decide; injection H as <-.
    + rewrite (assoc_L (++) _ ["dist"] ["index.html"]). by apply Hins.
    + rewrite (assoc_L (++) _ [".nuxt"; "dist"; "client"] ["app.js"]).
      rewrite Hins by done.
      rewrite (assoc_L (++) _ [".nuxt"; "dist"; "server"] ["server.js"]).
      by apply Hins.
Qed.

Lemma build_writes_only_its_files_witness :
  fs Fixture.tokenRun.1 !! ["work"; "apps"; "web"; "secrets.json"]
  = Fixture.disk !! ["work"; "apps"; "web"; "secrets.json"].
Proof.
  apply (build_writes_only_its_files
           (Fixture.collaborators "2.14.12" Fixture.defaultNuxtConfig)
           (Fixture.withToken "s3cret") (Fixture.options Fixture.defaultConfig)
           ["work"; "apps"; "web"; "secrets.json"]
           (initialWorld Fixture.disk []) Fixture.tokenRun.1 Fixture.tokenRun.2).
  - by apply fixture_keeps.
  - by_compute.
  - apply surjective_pairing.
Defined.

(** ** Preparing the environment (build.ts, lines 85-116) *)

Lemma existsSync_inr (file : string) (w w' : World) (b : bool) :
  existsSync file w = (w', inr b) →
  w' = w ∧ b = bool_decide (is_Some (fs w !! Path.canon (cwd w) file)).
Proof. run_monad. by intros [= <- <-]. Qed.

Lemma copyFile_inr (from to : string) (w w' : World) (u : unit) :
  copyFile from to w = (w', inr u) →
  ∃ data, fs w !! Path.canon (cwd w) from = Some data
          ∧ fs w' = <[Path.canon (cwd w) to := data]> (fs w)
          ∧ cwd w' = cwd w.
Proof.
  run_monad. simpl. destruct (fs w !! Path.canon (cwd w) from) as [data|]; simpl.
  - intros [= <-]. by exists data.
  - discriminate.
Qed.

Lemma mkdirp_inr (dir : string) (w w' : World) (u : unit) :
  mkdirp dir w = (w', inr u) → w' = addEvent (EvMkdirp dir) w.
Proof. apply emit_inr. Qed.

(** What the stage leaves behind when it returns. *)
Lemma prepareEnvironment_inr (X : Collaborators) (proc : Process)
    (opts : BuildOptions) (paths : Paths) (pkg0 : MutablePackageJson)
    (prep : Prepared) (w w' : World) :
  prepareEnvironment X proc opts paths pkg0 w = (w', inr prep) →
  let here := cwd w in
  ∃ disk0,
    getNodeVersion X (entrypointPath paths) (meta opts) here (fs w)
      = Some (nodeVersion prep)
    ∧ spawnOpts prep = getSpawnOptions X (meta opts) (nodeVersion prep)
    ∧ needsTypescriptBuild prep
      = bool_decide (getNuxtConfigName X (entrypointPath paths) here (fs w)
                     = Some "nuxt.config.ts")
    ∧ (if usesTypescript pkg0
       then prepareTypescriptEnvironment X pkg0 (spawnOpts prep)
              (entrypointPath paths) here (fs w) = Some (pkg prep, disk0)
       else pkg prep = pkg0 ∧ disk0 = fs w)
    ∧ cwd w' = here
    ∧ let disk1 :=
        if hasToken proc
        then <[Path.canon here ".npmrc" := npmrcLine proc]> disk0
        else disk0 in
      match disk1 !! Path.canon here "../.yarnclean" with
      | Some _ => fs w' = disk1
      | None =>
          ∃ data,
            disk1 !! Path.canon here (Path.join [dirname__ proc; "../.yarnclean"])
              = Some data
            ∧ fs w' = <[Path.canon here ".yarnclean" := data]> disk1
      end.
Proof.
  intros H here. pose proof (cwd_prepareEnvironment X proc _ _ _ _ _ _ H) as C.
  revert H. unfold prepareEnvironment. cbv zeta. intros H.
  bind_inv H w1 nv H1.
  apply call_inr in H1 as (d1 & [Hnv ->]%query_Some & ->).
  bind_inv H w2 configName H2.
  apply call_inr in H2 as (d2 & [Hcn ->]%query_Some & ->).
  injection Hcn as <-.
  bind_inv H w3 pkg1 H3.
  bind_inv H w4 u4 H4.
  bind_inv H w5 yarnclean H5. apply existsSync_inr in H5 as [-> ->].
  bind_inv H w6 u6 H6.
  bind_inv H w7 cwd0 H7. apply gets_inr in H7 as [-> ->].
  bind_inv H w8 u8 H8. apply mkdirp_inr in H8 as ->.
  bind_inv H w9 u9 H9. apply mkdirp_inr in H9 as ->.
  apply ret_inr in H as [-> ->]. simpl in *.
  assert (cwd w3 = here ∧
          if usesTypescript pkg0
          then prepareTypescriptEnvironment X pkg0
                 (getSpawnOptions X (meta opts) nv) (entrypointPath paths) here (fs w)
               = Some (pkg1, fs w3)
          else pkg1 = pkg0 ∧ fs w3 = fs w) as [C3 H3'].
  { destruct (usesTypescript pkg0).
    - bind_inv H3 w3' u3 H3a. apply emit_inr in H3a as ->.
      apply call_inr in H3 as (d3 & Hts & ->). simpl in *. by split.
    - apply ret_inr in H3 as [-> ->]. by split. }
  assert (cwd w4 = here ∧
          fs w4 = if hasToken proc
                  then <[Path.canon here ".npmrc" := npmrcLine proc]> (fs w3)
                  else fs w3) as [C4 F4].
  { unfold when in H4. destruct (hasToken proc).
    - apply writeFile_inr in H4 as [F4 C4]. rewrite C3 in F4, C4. by split.
    - apply ret_inr in H4 as [-> _]. by split. }
  exists (fs w3). repeat split; try done.
  cbv zeta. rewrite <- F4. rewrite C4 in H6. fold here in H6.
  unfold when in H6.
  destruct (fs w4 !! Path.canon here "../.yarnclean") as [data|] eqn:E.
  - rewrite bool_decide_eq_true_2 in H6 by done. simpl in H6.
    by apply ret_inr in H6 as [-> _].
  - rewrite bool_decide_eq_false_2 in H6 by (by intros [? ?]). simpl in H6.
    apply copyFile_inr in H6 as (data & Hd & F6 & _). rewrite C4 in Hd, F6.
    by exists data.
Qed.



(** The project's own [.yarnclean] is gone after the stage. *)
Example yarnclean_overwritten :
  fs FixtureMore.yarncleanWorld !! ["work"; "apps"; "web"; ".yarnclean"] = Some "docs"
  ∧ fs FixtureMore.yarncleanRun.1 !! ["work"; "apps"; "web"; ".yarnclean"] = Some "*.md".
Proof. split; vm_compute; reflexivity. Qed.

(** ** The function package (build.ts, lines 275-318) *)

Lemma createLambda_settings (members : FileSet) (h r : string)
    (e : list (string * string)) (d mem : option N) (lam : Lambda.t) (w w' : World) :
  createLambda members h r e d mem w = (w', inr lam) →
  Lambda.handler lam = h ∧ Lambda.runtime lam = r ∧ Lambda.environment lam = e
  ∧ Lambda.maxDuration lam = d ∧ Lambda.memory lam = mem.
Proof.
  unfold createLambda. intros H.
  bind_inv H w1 u1 H1. bind_inv H w2 disk H2. bind_inv H w3 z H3.
  by apply ret_inr in H as [_ ->].
Qed.

Lemma mergedOver_domain (X : Collaborators) (dir : list string) (disk : FS)
    (patterns : list string) (launcherFiles : FileSet) (k : string) :
  is_Some (launcherFiles !! k) →
  is_Some (mergedOver X dir disk patterns launcherFiles !! k).
Proof.
  unfold mergedOver. revert launcherFiles.
  induction patterns as [|q qs IH]; intros lf Hk; simpl; [done|].
  apply IH. apply lookup_union_is_Some. by right.
Qed.

Lemma packageLambda_settings (X : Collaborators) (proc : Process)
    (opts : BuildOptions) (paths : Paths) (prep : Prepared)
    (nb : NuxtBuild) (dep : NuxtDep) (sd nm : FileSet) (lam : Lambda.t)
    (w w' : World) :
  nuxtConfigName nb = "nuxt.config.js" →
  packageLambda X proc opts paths prep nb dep sd nm w = (w', inr lam) →
  Lambda.handler lam = "vercel__launcher.launcher"
  ∧ Lambda.runtime lam = nodeRuntime (nodeVersion prep)
  ∧ Lambda.environment lam = [("NODE_ENV", "production")]
  ∧ Lambda.maxDuration lam = NuxtBuilderConfig.maxDuration (config opts)
  ∧ Lambda.memory lam = NuxtBuilderConfig.memory (config opts)
  ∧ ∀ k, k ∈ launcherEntries → is_Some (Lambda.zipBuffer lam !! k).
Proof.
  unfold packageLambda. cbv zeta. intros Hn H.
  bind_inv H w1 template H1.
  bind_inv H w2 cwd0 H2. apply gets_inr in H2 as [-> ->].
  bind_inv H w3 merged H3.
  apply mergeServerFiles_inr in H3 as (F3 & -> & _).
  pose proof (createLambda_settings _ _ _ _ _ _ _ _ _ H) as (? & ? & ? & ? & ?).
  apply createLambda_inr in H as (_ & Hz).
  repeat split; try done.
  intros k Hk.
  match type of Hz with createZip ?m _ = _ => assert (is_Some (m !! k)) as [f Hf] end.
  { apply mergedOver_domain. rewrite Hn.
    rewrite !lookup_union_is_Some. right. right. right.
    unfold launcherEntries in Hk.
    apply elem_of_cons in Hk as [->|Hk]; [by eexists|].
    apply elem_of_cons in Hk as [->|Hk]; [by eexists|].
    apply list_elem_of_singleton in Hk as ->. by eexists. }
  by apply (createZip_Some _ _ _ _ _ Hz) in Hf as [_ ?].
Qed.

(** In a build that returns, the function package has the launcher as
    its handler, the runtime of the Node version [getNodeVersion] found
    for the entry path, [NODE_ENV=production] as its whole environment,
    and the duration and memory limits of the configuration as they are
    given; its archive has an entry for each of [vercel__launcher.js],
    [vercel__bridge.js] and [nuxt.config.js], whatever else is laid over
    the launcher files. *)
Theorem function_package_settings (X : Collaborators) (proc : Process)
    (opts : BuildOptions) (w w' : World) (out : BuilderOutput) :
  build X proc opts w = (w', inr out) →
  let paths := resolvePaths (workPath opts) (entrypoint opts) in
  ∃ lam version dir disk,
    (∀ k l, output out !! k = Some (OutLambda l) → l = lam)
    ∧ getNodeVersion X (entrypointPath paths) (meta opts) dir disk = Some version
    ∧ Lambda.runtime lam = nodeRuntime version
    ∧ Lambda.handler lam = "vercel__launcher.launcher"
    ∧ Lambda.environment lam = [("NODE_ENV", "production")]
    ∧ Lambda.maxDuration lam = NuxtBuilderConfig.maxDuration (config opts)
    ∧ Lambda.memory lam = NuxtBuilderConfig.memory (config opts)
    ∧ ∀ k, k ∈ launcherEntries → is_Some (Lambda.zipBuffer lam !! k).
Proof.
  intros H paths.
  apply build_inr in H as (pkg0 & prep & nb & dep & w1 & w2 & w3 & w4 & w5 & w6
    & w7 & _ & _ & H3 & _ & _ & H6 & _ & H8).
  fold paths in H3, H6, H8.
  apply prepareEnvironment_inr in H3 as (disk0 & Hnv & _).
  apply nuxtBuild_inr in H6 as (_ & _ & _ & _ & _ & _ & _ & Hn).
  revert H8. unfold collectArtifacts. cbv zeta. intros H.
  bind_inv H v1 u1 H1. bind_inv H v2 staticFiles H2.
  bind_inv H v3 clientDistFiles H3. bind_inv H v4 serverDistFiles H4.
  bind_inv H v5 generatedPagesFiles H5. bind_inv H v6 nodeModules H6.
  bind_inv H v7 lam H7. bind_inv H v8 u8 H8.
  apply ret_inr in H as [-> ->].
  apply (packageLambda_settings _ _ _ _ _ _ _ _ _ _ _ _ Hn) in H7
    as (? & ? & ? & ? & ? & ?).
  exists lam, (nodeVersion prep), (cwd w2), (fs w2). simpl.
  split; [|by repeat split].
  intros k l Hl. rewrite outputOf_collected, overlay_lookup in Hl.
  destruct (_ !! k); [done|]. destruct (decide _); [|done]. by injection Hl.
Qed.

Lemma function_package_settings_witness :
  ∃ out, Fixture.plainRun = (Fixture.plainRun.1, inr out)
    ∧ let X := Fixture.collaborators "2.14.12" Fixture.defaultNuxtConfig in
      let opts := Fixture.options Fixture.defaultConfig in
      let paths := resolvePaths (workPath opts) (entrypoint opts) in
      ∃ lam version dir disk,
        (∀ k l, output out !! k = Some (OutLambda l) → l = lam)
        ∧ getNodeVersion X (entrypointPath paths) (meta opts) dir disk = Some version
        ∧ Lambda.runtime lam = nodeRuntime version
        ∧ Lambda.handler lam = "vercel__launcher.launcher"
        ∧ Lambda.environment lam = [("NODE_ENV", "production")]
        ∧ Lambda.maxDuration lam = NuxtBuilderConfig.maxDuration (config opts)
        ∧ Lambda.memory lam = NuxtBuilderConfig.memory (config opts)
        ∧ ∀ k, k ∈ launcherEntries → is_Some (Lambda.zipBuffer lam !! k).
Proof.
  destruct (returned Fixture.plainRun) as [out E]; [vm_compute; reflexivity|].
  exists out. split; [exact E|].
  exact (function_package_settings
           (Fixture.collaborators "2.14.12" Fixture.defaultNuxtConfig)
           Fixture.noToken (Fixture.options Fixture.defaultConfig)
           (initialWorld Fixture.disk []) _ _ E).
Defined.

(** ** Rules for [observes] *)

Section ObservesRules.

Context {A B T : Type} (proj : Event → option T).

Lemma observes_quiet (m : M A) :
  (∀ w, trace (m w).1 = trace w) → observes proj [] m.
Proof.
  intros H w w' r E. exists []. specialize (H w). rewrite E in H. simpl in H.
  rewrite H, app_nil_r. split; [done|]. by destruct r.
Qed.

Lemma observes_ret (a : A) : observes proj [] (mret a : M A).
Proof. by apply observes_quiet. Qed.

Lemma observes_throw (e : BuildError) : observes proj [] (throw e : M A).
Proof. by apply observes_quiet. Qed.

Lemma observes_gets (f : World → A) : observes proj [] (gets f).
Proof. by apply observes_quiet. Qed.

Lemma observes_orThrow (x : option A) (e : BuildError) :
  observes proj [] (orThrow x e).
Proof. apply observes_quiet. by destruct x. Qed.

Lemma observes_bind (e1 e2 : list T) (m : M A) (k : A → M B) :
  observes proj e1 m → (∀ a, observes proj e2 (k a)) →
  observes proj (e1 ++ e2) (m ≫= k).
Proof.
  intros Hm Hk w w' r. rewrite run_bind.
  destruct (m w) as [w1 [e|a]] eqn:E; destruct (Hm _ _ _ E) as (ms1 & T1 & P1).
  - intros [= <- <-]. exists ms1. split; [done|]. by apply prefix_app_r.
  - intros E2. destruct (Hk a _ _ _ E2) as (ms2 & T2 & P2). subst ms1.
    exists (e1 ++ ms2). rewrite T2, T1, app_assoc. split; [done|].
    destruct r; [by apply prefix_app|by subst].
Qed.

Lemma observes_bind_quiet (m : M A) (k : A → M B) :
  observes proj [] m → (∀ a, observes proj [] (k a)) → observes proj [] (m ≫= k).
Proof. intros Hm Hk. by apply (observes_bind [] []). Qed.

Lemma observes_eq (e1 e2 : list T) (m : M A) :
  observes proj e2 m → e1 = e2 → observes proj e1 m.
Proof. by intros H ->. Qed.

Lemma observes_ite (e1 e2 : list T) (b : bool) (m1 m2 : M A) :
  observes proj e1 m1 → observes proj e2 m2 →
  observes proj (if b then e1 else e2) (if b then m1 else m2).
Proof. by destruct b. Qed.

Lemma observes_option {C} (e1 e2 : list T) (x : option C) (m1 : C → M A)
    (m2 : M A) :
  (∀ c, observes proj e1 (m1 c)) → observes proj e2 m2 →
  observes proj (if x is Some _ then e1 else e2)
    (match x with Some c => m1 c | None => m2 end).
Proof. destruct x; auto. Qed.

Lemma observes_catch_quiet (m : M A) (h : BuildError → M A) :
  observes proj [] m → (∀ e, observes proj [] (h e)) → observes proj [] (catch m h).
Proof.
  intros Hm Hh w w' r. unfold catch.
  destruct (m w) as [w1 [e|a]] eqn:E; destruct (Hm _ _ _ E) as (ms1 & T1 & P1).
  - intros E2. destruct (Hh e _ _ _ E2) as (ms2 & T2 & P2).
    apply prefix_nil_inv in P1. subst ms1. rewrite app_nil_r in T1.
    exists ms2. by rewrite T2, T1.
  - intros [= <- <-]. by exists ms1.
Qed.


Lemma observes_thrown (e : list T) (m : M A) (w w' : World) (x : BuildError) :
  observes proj e m → m w = (w', inl x) →
  ∃ seen, omap proj (trace w') = omap proj (trace w) ++ seen ∧ seen `prefix_of` e.
Proof. intros Hm E. apply (Hm _ _ _ E). Qed.

End ObservesRules.

Lemma observes_modify {T} (proj : Event → option T) (f : World → World) :
  (∀ w, trace (f w) = trace w) → observes proj [] (modify f).
Proof. intros H. by apply observes_quiet. Qed.

Lemma observes_silent {T} (proj : Event → option T) (e : Event) :
  proj e = None → observes proj [] (emit e).
Proof.
  intros H w w' r [= <- <-]. exists []. split; [|done].
  simpl. by rewrite omap_app, app_nil_r; simpl; rewrite H, app_nil_r.
Qed.

Lemma observes_shown {T} (proj : Event → option T) (e : Event) (t : T) :
  proj e = Some t → observes proj [t] (emit e).
Proof.
  intros H w w' r [= <- <-]. exists [t]. split; [|done].
  simpl. by rewrite omap_app; simpl; rewrite H.
Qed.

Lemma observes_when {T} (proj : Event → option T) (e : list T) (b : bool)
    (m : M unit) :
  observes proj e m → observes proj (if b then e else []) (when b m).
Proof. destruct b; [done|]. intros _. apply observes_ret. Qed.

Lemma observes_when_quiet {T} (proj : Event → option T) (b : bool) (m : M unit) :
  observes proj [] m → observes proj [] (when b m).
Proof. destruct b; [done|]. intros _. apply observes_ret. Qed.

(** Walks over the text of a computation down to its [emit]s. *)
Ltac observes_auto :=
  lazymatch goal with
  | |- observes _ _ (mbind _ _) =>
      first [ eapply observes_bind | apply observes_bind_quiet ];
      [ observes_auto | intros ?; observes_auto ]
  | |- observes _ _ (mret _) => apply observes_ret
  | |- observes _ _ (ret _) => apply observes_ret
  | |- observes _ _ (throw _) => apply observes_throw
  | |- observes _ _ (gets _) => apply observes_gets
  | |- observes _ _ (locate _) => apply observes_gets
  | |- observes _ _ (orThrow _ _) => apply observes_orThrow
  | |- observes _ _ (emit _) =>
      first [ apply observes_silent; reflexivity
            | eapply observes_shown; reflexivity ]
  | |- observes _ _ (modify _) => apply observes_modify; intros; reflexivity
  | |- observes _ _ (warn _) => apply observes_modify; intros; reflexivity
  | |- observes _ _ (when _ _) =>
      first [ solve [ apply observes_when_quiet; observes_auto ]
            | eapply observes_when; observes_auto ]
  | |- observes _ _ (catch _ _) =>
      apply observes_catch_quiet; [ observes_auto | intros ?; observes_auto ]
  | |- observes _ _ (if _ then _ else _) =>
      first [ solve [ eapply observes_ite; observes_auto ]
            | solve [ eapply observes_option; [ intros ?; observes_auto | observes_auto ] ]
            | match goal with
              | |- observes _ _ (match ?x with _ => _ end) =>
                  destruct x; cbv beta iota; observes_auto
              end ]
  | |- observes _ _ (match ?x with _ => _ end) =>
      first [ solve [ eapply observes_option; [ intros ?; observes_auto | observes_auto ] ]
            | destruct x; cbv beta iota; observes_auto ]
  | |- observes _ _ (let _ := _ in _) => cbv zeta; observes_auto
  | |- _ => solve [ eauto with observes ]
  end.

Create HintDb observes discriminated.

Ltac unfold_primitives :=
  unfold globAndPrefix, writeJSON, install, namespaceModules, nuxt;
  unfold startStep, endStep, chdir, existsSync, readFile, writeFile, copyFile,
    unlink, mkdirp, call, readJSON, glob, createLambda, validateNuxtVersion.

Ltac observes_solve :=
  unfold_primitives; cbv zeta;
  eapply observes_eq;
  [ observes_auto | try solve [ simpl; repeat case_match; reflexivity ] ].

Section ObservesStages.

Context {T : Type} (proj : Event → option T).
Variable X : Collaborators.
Variable proc : Process.

(** The globs of the extra patterns show nothing to a projection that
    does not look at globs. *)
Lemma observes_mergeServerFiles (dir : string) (patterns : list string)
    (launcherFiles : FileSet) :
  (∀ pattern, proj (EvGlob pattern dir) = None) →
  observes proj [] (mergeServerFiles X dir patterns launcherFiles).
Proof.
  intros Hg. revert launcherFiles.
  induction patterns as [|q qs IH]; intros lf; simpl.
  - apply observes_ret.
  - apply observes_bind_quiet; [|intros found; apply IH].
    unfold glob. apply observes_bind_quiet; [by apply observes_silent|intros _].
    destruct (Path.isAbsolute dir); [|apply observes_throw].
    apply observes_bind_quiet; [apply observes_gets|intros disk; apply observes_ret].
Qed.

End ObservesStages.

(** ** The steps a run announces *)

Section Announcements.

Variable X : Collaborators.
Variable proc : Process.

#[local] Hint Extern 1 (observes announcement _ (mergeServerFiles _ _ _ _)) =>
  apply observes_mergeServerFiles; intros; reflexivity : observes.




Lemma announces_installDevDependencies (opts : BuildOptions) (paths : Paths)
    (prep : Prepared) :
  observes announcement [Announced "Install devDependencies"]
    (installDevDependencies X opts paths prep).
Proof. unfold installDevDependencies. observes_solve. Qed.

Lemma announces_preBuild (paths : Paths) (prep : Prepared) :
  observes announcement
    (if hasKey (scripts (pkg prep)) "now-build" then [Announced "Pre build"] else [])
    (preBuild X paths prep).
Proof. unfold preBuild. observes_solve. Qed.

Lemma announces_nuxtBuild (opts : BuildOptions) (paths : Paths) (prep : Prepared) :
  observes announcement [Announced "Nuxt build"] (nuxtBuild X opts paths prep).
Proof. unfold nuxtBuild. observes_solve. Qed.

Lemma announces_installDependencies (opts : BuildOptions) (paths : Paths)
    (prep : Prepared) :
  observes announcement [Announced "Install dependencies"]
    (installDependencies X proc opts paths prep).
Proof. unfold installDependencies. observes_solve. Qed.


End Announcements.



Section AnnouncementsOfRuns.

Variable X : Collaborators.
Variable proc : Process.

#[local] Hint Extern 1 (observes announcement _ (mergeServerFiles _ _ _ _)) =>
  apply observes_mergeServerFiles; intros; reflexivity : observes.


Lemma announces_afterEnvironment (opts : BuildOptions) (paths : Paths)
    (prep : Prepared) :
  observes announcement
    ([Announced "Install devDependencies"]
     ++ (if hasKey (scripts (pkg prep)) "now-build" then [Announced "Pre build"] else [])
     ++ [Announced "Nuxt build"; Announced "Install dependencies"])
    (_ ← installDevDependencies X opts paths prep;
     _ ← preBuild X paths prep;
     nb ← nuxtBuild X opts paths prep;
     installDependencies X proc opts paths prep).
Proof.
  eapply observes_eq.
  - eapply observes_bind; [apply announces_installDevDependencies|intros _].
    eapply observes_bind; [apply announces_preBuild|intros _].
    eapply observes_bind; [apply announces_nuxtBuild|intros nb].
    apply announces_installDependencies.
  - by destruct (hasKey _ _).
Qed.

End AnnouncementsOfRuns.



Example steps_of_runs :
  omap announcement (trace Fixture.plainRun.1) = expectedAnnouncements false
  ∧ omap announcement (trace Fixture.oldRun.1)
    = [Announced "Prepare build"; Announced "Install devDependencies";
       Announced "Nuxt build"; Announced "Install dependencies"]
  ∧ omap announcement (trace Fixture.bareRun.1) = [Announced "Prepare build"].
Proof. repeat split; vm_compute; reflexivity. Qed.

(** ** The commands a run issues *)

Section Commands.

Variable X : Collaborators.
Variable proc : Process.

#[local] Hint Extern 1 (observes command _ (mergeServerFiles _ _ _ _)) =>
  apply observes_mergeServerFiles; intros; reflexivity : observes.









End Commands.




(** The commands of the concrete project: [nuxt build] alone. *)
Example commands_of_plainRun :
  omap command (trace Fixture.plainRun.1) = expectedCommands false false false false false.
Proof. vm_compute. reflexivity. Qed.

(** ** Joined and resolved paths *)

Lemma append_slash (s : string) : ("/" ++ s)%string = String "/" s.
Proof. reflexivity. Qed.

Lemma append_empty (s : string) : (s ++ EmptyString)%string = s.
Proof.
  induction s as [|c s IH]; [done|].
  change (String c s ++ EmptyString)%string with (String c (s ++ EmptyString)).
  by rewrite IH.
Qed.

Lemma split_app (a b : string) :
  Path.split (a ++ String "/" b)%string = Path.split a ++ Path.split b.
Proof.
  induction a as [|c a IH].
  - reflexivity.
  - change (String c a ++ String "/" b)%string with (String c (a ++ String "/" b)).
    rewrite !split_cons, IH. destruct (isSlash c); [done|].
    destruct (Path.split a) as [|seg rest] eqn:E; [by apply split_nonempty in E|].
    reflexivity.
Qed.

Lemma split_parts (x : string) (rest : list string) :
  Path.split (Path.unsplit (x :: rest))
  = Path.split x ++ List.concat (map Path.split rest).
Proof.
  revert x. induction rest as [|y rest IH]; intros x.
  - simpl. by rewrite app_nil_r.
  - rewrite unsplit_cons by done. rewrite split_app, IH. reflexivity.
Qed.

Lemma split_slashFree_all (s : string) :
  Forall (λ x, slashFree x = true) (Path.split s).
Proof.
  induction s as [|c s IH]; [by repeat constructor|].
  rewrite split_cons. destruct (isSlash c) eqn:Hc.
  - by constructor.
  - destruct (Path.split s) as [|seg rest]; [constructor; [|done]|].
    + unfold slashFree. simpl. by rewrite Hc.
    + apply Forall_cons in IH as [Hseg Hrest]. constructor; [|done].
      unfold slashFree in *. simpl. by rewrite Hc.
Qed.

Lemma pushSeg_Forall (P : string → Prop) (b : bool) (stack : list string)
    (seg : string) :
  P ".." → P seg → Forall P stack → Forall P (Path.pushSeg b stack seg).
Proof.
  intros Hup Hseg Hs. unfold Path.pushSeg.
  case_bool_decide; [done|]. case_bool_decide; [|by constructor].
  destruct stack as [|top rest].
  - destruct b; [by repeat constructor|done].
  - case_bool_decide.
    + destruct b; [by constructor|done].
    + by apply Forall_cons in Hs as [_ ?].
Qed.

Lemma normSegs_Forall (P : string → Prop) (b : bool) (segs : list string) :
  P ".." → Forall P segs → Forall P (Path.normSegs b segs).
Proof.
  intros Hup Hsegs. unfold Path.normSegs. apply Forall_rev.
  assert (∀ stack, Forall P stack → Forall P (fold_left (Path.pushSeg b) segs stack))
    as H; [|by apply H].
  induction Hsegs as [|s segs Hs Hsegs IH]; intros stack Hstack; simpl; [done|].
  apply IH. by apply pushSeg_Forall.
Qed.

Lemma normSegs_snoc (l : list string) (s : string) :
  Path.normSegs false (l ++ [s])
  = rev (Path.pushSeg false (rev (Path.normSegs false l)) s).
Proof.
  unfold Path.normSegs. by rewrite fold_left_app, rev_involutive.
Qed.

Lemma normSegs_snoc_plain (l : list string) (s : string) :
  plainSegment s → Path.normSegs false (l ++ [s]) = Path.normSegs false l ++ [s].
Proof.
  intros Hs. rewrite normSegs_snoc, pushSeg_plain by done.
  simpl. by rewrite rev_involutive.
Qed.

Lemma normSegs_snoc_skip (l : list string) (s : string) :
  s = EmptyString ∨ s = "." →
  Path.normSegs false (l ++ [s]) = Path.normSegs false l.
Proof.
  intros Hs. rewrite normSegs_snoc. unfold Path.pushSeg.
  rewrite bool_decide_eq_true_2 by done. by rewrite rev_involutive.
Qed.

Lemma normSegs_app (l1 l2 : list string) :
  Path.normSegs false (Path.normSegs false l1 ++ l2) = Path.normSegs false (l1 ++ l2).
Proof.
  unfold Path.normSegs. rewrite !fold_left_app. do 2 f_equal.
  rewrite fold_pushSeg_plain, app_nil_r, rev_involutive; [done|].
  apply (normSegs_plain_out l1).
Qed.

Lemma normSegs_cons_empty (l : list string) :
  Path.normSegs false (EmptyString :: l) = Path.normSegs false l.
Proof. reflexivity. Qed.

Lemma normSegs_valid (segs : list string) :
  Forall (λ x, slashFree x = true) segs →
  forallb validSegment (Path.normSegs false segs) = true.
Proof.
  intros Hs. apply forallb_forall. intros s Hin.
  unfold validSegment. apply andb_true_iff. split.
  - pose proof (normSegs_plain_out segs) as Hp.
    rewrite List.Forall_forall in Hp. destruct (Hp s Hin) as (Hne & _).
    by destruct s.
  - pose proof (normSegs_Forall (λ x, slashFree x = true) false segs eq_refl Hs) as Hf.
    rewrite List.Forall_forall in Hf. apply (Hf s Hin).
Qed.

Lemma truthy_unsplit (s : string) (rest : list string) :
  s ≠ EmptyString → truthy (Path.unsplit (s :: rest)) = true.
Proof.
  intros Hs. destruct s as [|c s]; [done|].
  destruct rest; [done|]. rewrite unsplit_cons by done. reflexivity.
Qed.

Lemma isAbsolute_truthy (p : string) : Path.isAbsolute p = true → truthy p = true.
Proof. by destruct p. Qed.

(** The canonical path of [/] followed by canonical segments. *)
Lemma split_ofCanon (segs : list string) :
  forallb validSegment segs = true →
  Path.normSegs false (Path.split (Path.ofCanon segs)) = Path.normSegs false segs.
Proof.
  intros Hv. unfold Path.ofCanon. rewrite append_slash, split_cons. simpl.
  rewrite normSegs_cons_empty. destruct segs as [|s segs]; [reflexivity|].
  by rewrite split_unsplit.
Qed.

Lemma canon_ofCanon (dir segs : list string) :
  Forall plainSegment segs → forallb validSegment segs = true →
  Path.canon dir (Path.ofCanon segs) = segs.
Proof.
  intros Hp Hv. unfold Path.canon.
  assert (Path.isAbsolute (Path.ofCanon segs) = true) as -> by reflexivity.
  rewrite split_ofCanon by done. by apply normSegs_plain.
Qed.

(** Normalising an absolute path does not change the file it denotes. *)
Lemma canon_normalize (p : string) :
  Path.isAbsolute p = true → Path.canon [] (Path.normalize p) = Path.canon [] p.
Proof.
  intros Habs. unfold Path.normalize.
  rewrite (isAbsolute_truthy _ Habs), Habs. simpl.
  set (S := Path.normSegs false (Path.split p)).
  assert (forallb validSegment S = true) as Hv
    by apply normSegs_valid, split_slashFree_all.
  assert (Forall plainSegment S) as Hp by apply normSegs_plain_out.
  assert (Path.canon [] p = S) as -> by (unfold Path.canon; by rewrite Habs).
  destruct S as [|s S'] eqn:ES; [reflexivity|].
  rewrite truthy_unsplit by (apply Forall_cons in Hp as [(? & _) _]; done).
  rewrite append_slash. unfold Path.canon. simpl Path.isAbsolute. cbv iota.
  rewrite split_cons. simpl isSlash. cbv iota. rewrite normSegs_cons_empty.
  destruct (Path.endsWithSlash p).
  - change (Path.unsplit (s :: S') ++ "/")%string
      with (Path.unsplit (s :: S') ++ String "/" EmptyString)%string.
    rewrite split_app, split_unsplit by done.
    change (Path.split EmptyString) with [EmptyString].
    rewrite normSegs_snoc_skip by (by left). by apply normSegs_plain.
  - rewrite append_empty, split_unsplit by done. by apply normSegs_plain.
Qed.

(** The file a joined path denotes, when its first part is absolute: the
    segments of all the parts, normalised together. *)
Lemma canon_join (a : string) (rest : list string) :
  Path.isAbsolute a = true →
  Path.canon [] (Path.join (a :: rest))
  = Path.normSegs false
      (Path.split a
       ++ List.concat (map Path.split (filter (λ x, truthy x = true) rest))).
Proof.
  intros Habs. unfold Path.join.
  rewrite filter_cons_True by (by apply isAbsolute_truthy).
  set (parts := filter (λ x, truthy x = true) rest).
  assert (Path.isAbsolute (Path.unsplit (a :: parts)) = true) as Habs'.
  { destruct a as [|c a]; [done|]. destruct parts; [done|].
    rewrite unsplit_cons by done. exact Habs. }
  rewrite canon_normalize by done. unfold Path.canon. rewrite Habs'.
  by rewrite split_parts.
Qed.

Lemma canon_join_below (a : string) (segs : list string) :
  Path.isAbsolute a = true →
  Forall plainSegment segs → forallb validSegment segs = true →
  Path.canon [] (Path.join [a; Path.unsplit segs]) = Path.canon [] a ++ segs.
Proof.
  intros Habs Hp Hv. rewrite canon_join by done.
  destruct segs as [|s segs].
  - simpl. rewrite app_nil_r. unfold Path.canon. by rewrite Habs, app_nil_r.
  - rewrite filter_cons_True;
      [|apply truthy_unsplit; by apply Forall_cons in Hp as [(? & _) _]].
    rewrite filter_nil. simpl List.concat. rewrite app_nil_r.
    rewrite split_unsplit by done. rewrite <- normSegs_app.
    unfold Path.canon at 1. rewrite Habs.
    set (E := Path.normSegs false (Path.split a)).
    apply normSegs_plain. apply Forall_app. split; [apply normSegs_plain_out|done].
Qed.

Lemma stripCommon_app (a b : list string) : Path.stripCommon a (a ++ b) = ([], b).
Proof.
  induction a as [|x a IH]; [by destruct b|]. simpl.
  by rewrite bool_decide_eq_true_2.
Qed.

(** ** What is collected (build.ts, lines 156-166 and 243-273) *)





(** ** The TypeScript fixture (nuxt.config.ts) *)

(** [path.relative(entrypointPath, resolve(__dirname, x))] is [x], and
    [path.relative(entrypointPath, __dirname)] is the empty string, when
    [__dirname] is the entry path, absolute and in canonical form. *)
Lemma relative_resolve (cwd0 segs : list string) (x : string) :
  Forall plainSegment segs → forallb validSegment segs = true →
  plainSegment x → slashFree x = true →
  Path.relative cwd0 (Path.ofCanon segs)
    (Path.resolve cwd0 [Path.ofCanon segs; x]) = x
  ∧ Path.relative cwd0 (Path.ofCanon segs) (Path.ofCanon segs) = EmptyString.
Proof.
  intros Hp Hv Hx Hs. unfold Path.relative, Path.resolve, Path.resolveCanon.
  simpl fold_left. rewrite !canon_ofCanon by done.
  rewrite (canon_file segs x Hp Hx Hs).
  assert (forallb validSegment (segs ++ [x]) = true) as Hv'.
  { rewrite forallb_app, Hv. simpl. unfold validSegment.
    destruct Hx as [Hne _]. destruct x; [done|]. simpl in *.
    unfold slashFree in Hs. simpl in Hs. by rewrite Hs. }
  rewrite canon_ofCanon; [|apply Forall_app; split; [done|by constructor]|done].
  rewrite stripCommon_app. split; [by rewrite app_nil_l|].
  replace segs with (segs ++ []) at 2 by apply app_nil_r.
  by rewrite stripCommon_app.
Qed.

(** A build that returns on a project configured as the TypeScript
    fixture is, with [buildDir] and [srcDir] resolved from the entry
    path: the static files are those below [static] of the entry
    directory itself, and the public prefix is the default one. *)
Theorem typescript_fixture_routes (X : Collaborators) (proc : Process)
    (opts : BuildOptions) (w w' : World) (out : BuilderOutput)
    (segs : list string) :
  let paths := resolvePaths (workPath opts) (entrypoint opts) in
  Forall plainSegment segs → forallb validSegment segs = true →
  entrypointPath paths = Path.ofCanon segs →
  (∀ dir disk cfg,
     getNuxtConfig X (entrypointPath paths) "nuxt.config.js" dir disk = Some cfg →
     cfg = typescriptNuxtConfig dir (entrypointPath paths)) →
  build X proc opts w = (w', inr out) →
  routes out
  = synthRoutes X "_nuxt/" (globFiles X "**" (segs ++ ["static"]) (fs w')).
Proof.
  intros paths Hp Hv Hep Hcfg H.
  apply build_inr in H as (pkg0 & prep & nb & dep & w1 & w2 & w3 & w4 & w5 & w6
    & w7 & _ & _ & _ & _ & _ & H6 & _ & H8).
  fold paths in H6, H8.
  apply nuxtBuild_config in H6 as (disk & cfg & Hc & Hpub & Hst & Hsrc & _).
  apply Hcfg in Hc as ->. unfold typescriptNuxtConfig in Hpub, Hst, Hsrc.
  cbn [NuxtConfig.srcDir NuxtConfig.dir_static NuxtConfig.build_publicPath]
    in Hpub, Hst, Hsrc.
  change (publicPath nb = "_nuxt/") in Hpub.
  change (staticDir nb = "static") in Hst.
  rewrite Hep in Hsrc.
  assert (truthy (Path.ofCanon segs) = true) as Ht by reflexivity.
  rewrite Ht in Hsrc.
  destruct (relative_resolve (cwd w5) segs "static" Hp Hv) as [_ Hrel];
    [by repeat split|reflexivity|].
  rewrite Hrel in Hsrc.
  apply collectArtifacts_inr in H8
    as (F & _ & staticFiles & client & generated & lam & merged & -> & Hs & _).
  cbn [routes]. rewrite Hpub, Hs, Hsrc, Hst, F. do 2 f_equal.
  rewrite Hep, canon_join by reflexivity.
  change (List.concat _) with ["static"].
  rewrite <- normSegs_app, split_ofCanon by done.
  rewrite (normSegs_plain segs Hp). apply normSegs_plain.
  apply Forall_app. split; [done|]. by repeat constructor.
Qed.

Lemma typescript_fixture_routes_witness :
  ∃ out, TypescriptFixture.run = (TypescriptFixture.run.1, inr out)
    ∧ routes out
      = synthRoutes TypescriptFixture.collaborators "_nuxt/"
          (globFiles TypescriptFixture.collaborators "**"
             (["work"; "apps"; "web"] ++ ["static"]) (fs TypescriptFixture.run.1)).
Proof.
  destruct (returned TypescriptFixture.run) as [out E]; [vm_compute; reflexivity|].
  exists out. split; [exact E|].
  apply (typescript_fixture_routes TypescriptFixture.collaborators Fixture.noToken
           (Fixture.options Fixture.defaultConfig)
           (initialWorld Fixture.disk []) _ _ ["work"; "apps"; "web"]).
  - repeat constructor; discriminate.
  - reflexivity.
  - vm_compute. reflexivity.
  - intros dir disk cfg [= <-]. reflexivity.
  - exact E.
Defined.

(** The TypeScript project, end to end: the configuration file is
    compiled before [nuxt build] runs, and the route table is the one of
    the project with a JavaScript configuration. *)
Example typescript_run :
  omap command (trace TypescriptFixture.run.1)
  = expectedCommands false false false true false
  ∧ match TypescriptFixture.run.2, Fixture.plainRun.2 with
    | inr out, inr out' => routes out = routes out'
    | _, _ => False
    end.
Proof. vm_compute. split; reflexivity. Qed.

(** ** The test harness (test/utils/run-build-lambda.js) *)

Lemma hbind_cases {A B} (m : HarnessM A) (k : A → HarnessM B) (w w' : World)
    (r : HarnessError + B) :
  hbind m k w = (w', r) →
  (∃ e, m w = (w', inl e) ∧ r = inl e)
  ∨ (∃ w1 a, m w = (w1, inr a) ∧ k a w1 = (w', r)).
Proof.
  unfold hbind. destruct (m w) as [w1 [e|a]].
  - intros [= <- <-]. left. by exists e.
  - intros E. right. by exists w1, a.
Qed.

Lemma defined_cases {A} (x : option A) (e : HarnessError) (w w' : World)
    (r : HarnessError + A) :
  defined x e w = (w', r) →
  w' = w ∧ match x with Some a => r = inr a | None => r = inl e end.
Proof. destruct x; by intros [= <- <-]. Qed.

Lemma await_cases {A} (m : M A) (w w' : World) (r : HarnessError + A) :
  await m w = (w', r) →
  (∃ a, m w = (w', inr a) ∧ r = inr a)
  ∨ (∃ e, m w = (w', inl e) ∧ r = inl (Thrown e)).
Proof.
  unfold await. destruct (m w) as [w1 [e|a]]; intros [= <- <-].
  - right. by exists e.
  - left. by exists a.
Qed.

Lemma remove_run (path : string) (w : World) :
  remove path w = (setFs (removeTree (Path.canon (cwd w) path) (fs w)) w, inr tt).
Proof. reflexivity. Qed.

(** What is below a removed directory is gone. *)
Lemma removeTree_below (dir rel : list string) (disk : FS) :
  removeTree dir disk !! (dir ++ rel) = None.
Proof.
  unfold removeTree. apply map_lookup_filter_None. right.
  intros data _ Hn. apply Hn. simpl. by apply prefix_app_r.
Qed.

Lemma removeTree_other (dir p : list string) (disk : FS) :
  ¬ dir `prefix_of` p → removeTree dir disk !! p = disk !! p.
Proof.
  intros Hp. unfold removeTree.
  destruct (disk !! p) as [data|] eqn:E.
  - by apply map_lookup_filter_Some.
  - apply map_lookup_filter_None. by left.
Qed.

(** The files the builder is handed are the files the glob found: the
    digest set on the entrypoint is a property of the file object only. *)
Lemma inputFiles_files (found : FileSet) (entrypoint : string)
    (target : InputFile.t) :
  ((λ f, InputFile.mk f None) <$> found) !! entrypoint = Some target →
  InputFile.file
    <$> (<[entrypoint := InputFile.mk (InputFile.file target) (Some fakeDigest)]>
           ((λ f, InputFile.mk f None) <$> found))
  = found.
Proof.
  intros H. rewrite fmap_insert. simpl. rewrite <- map_fmap_compose.
  rewrite lookup_fmap in H.
  destruct (found !! entrypoint) as [f|] eqn:E; [|done].
  injection H as <-. simpl.
  rewrite insert_id.
  - apply map_eq. intros k. rewrite lookup_fmap. by destruct (found !! k).
  - rewrite lookup_fmap, E. done.
Qed.

Section HarnessFacts.

Variable X : Collaborators.
Variable L : Loader.
Variable here : string.

(** A run of the harness that returns: the work directory was emptied
    first; the glob of the fixture, taken after that, held the test
    manifest and the entrypoint, which is [src] of the manifest's first
    build less one leading slash; the builder that build names was
    loaded, and its [build] ran in the emptied workspace on the globbed
    files, the entrypoint, the work path and the configuration of that
    build; [prepareCache] ran after it; and the three results are what
    [analyze], [build] and [prepareCache] returned. *)
Theorem harness_calls_builder (inputPath : string) (w w' : World)
    (res : BuildLambdaResult.t) :
  runBuildLambda X L here inputPath w = (w', inr res) →
  let workPath := workPathOf here inputPath in
  let disk1 := removeTree (Path.canon (cwd w) workPath) (fs w) in
  let found := globFiles X "**" (Path.canon [] inputPath) disk1 in
  ∃ path nowJson spec rest wrapper w2,
    Path.isAbsolute inputPath = true
    ∧ found !! testManifest = Some (FileFsRef path)
    ∧ requireJSON L path disk1 = Some nowJson
    ∧ NowJson.builds nowJson = spec :: rest
    ∧ requireBuilder L (BuildSpec.use spec) = Some wrapper
    ∧ let entrypoint := stripLeadingSlash (BuildSpec.src spec) in
      let w1 :=
        addEvent (EvMkdirp workPath)
          (addEvent (EvGlob "**" inputPath) (setFs disk1 w)) in
      is_Some (found !! entrypoint)
      ∧ Wrapper.build wrapper
          (mkBuildOptions found entrypoint workPath (BuildSpec.config spec)
             (mkMeta false)) w1
        = (w2, inr (BuildLambdaResult.buildResult res))
      ∧ Wrapper.prepareCache wrapper
          (CacheOptions.mk (Path.join [workPath; ".cache"]) workPath entrypoint) w2
        = (w', inr (BuildLambdaResult.cacheResult res))
      ∧ ∃ files,
          BuildLambdaResult.analyzeResult res
          = runAnalyze wrapper
              (AnalyzeContext.mk files entrypoint (BuildSpec.config spec))
          ∧ InputFile.file <$> files = found
          ∧ ∀ k, (files !! k ≫= InputFile.digest) = 
                 if bool_decide (k = entrypoint) then Some fakeDigest else None.
Proof.
  unfold runBuildLambda. cbv zeta. intros H.
  apply hbind_cases in H as [(e & _ & [=])|(v1 & [] & H1 & H)].
  apply await_cases in H1 as [(? & H1 & _)|(e & _ & [=])].
  rewrite remove_run in H1. injection H1 as <-.
  apply hbind_cases in H as [(e & _ & [=])|(v2 & found & H2 & H)].
  apply await_cases in H2 as [(? & H2 & [= <-])|(e & _ & [=])].
  apply glob_inr in H2 as (Habs & -> & ->). simpl fs in H.
  apply hbind_cases in H as [(e & _ & [=])|(v3 & ref & H3 & H)].
  apply defined_cases in H3 as [-> H3].
  destruct (_ !! testManifest) as [ref'|] eqn:Href; [|done].
  assert (ref = ref') as -> by congruence. clear H3.
  apply hbind_cases in H as [(e & _ & [=])|(v4 & disk & H4 & H)].
  injection H4 as <- <-.
  apply hbind_cases in H as [(e & _ & [=])|(v5 & nowJson & H5 & H)].
  rewrite lookup_fmap in Href.
  destruct (globFiles _ _ _ _ !! testManifest) as [f|] eqn:Hf; [|done].
  injection Href as <-. simpl in H5.
  pose proof Hf as Hf'.
  apply globFiles_Some in Hf' as (rel & _ & _ & _ & _ & _ & ->).
  apply defined_cases in H5 as [-> H5]. simpl in H5.
  destruct (requireJSON _ _ _) as [nj|] eqn:Hj; [|done].
  assert (nowJson = nj) as -> by congruence. clear H5.
  apply hbind_cases in H as [(e & _ & [=])|(v6 & spec & H6 & H)].
  apply defined_cases in H6 as [-> H6].
  destruct (NowJson.builds nj) as [|spec' rest] eqn:Hb; [done|].
  simpl in H6. assert (spec = spec') as -> by congruence. clear H6.
  apply hbind_cases in H as [(e & _ & [=])|(v7 & target & H7 & H)].
  apply defined_cases in H7 as [-> H7].
  destruct (_ !! stripLeadingSlash _) as [target'|] eqn:Ht; [|done].
  assert (target = target') as -> by congruence. clear H7.
  apply hbind_cases in H as [(e & _ & [=])|(v8 & wrapper & H8 & H)].
  apply defined_cases in H8 as [-> H8].
  destruct (requireBuilder _ _) as [wr|] eqn:Hw; [|done].
  assert (wrapper = wr) as -> by congruence. clear H8.
  apply hbind_cases in H as [(e & _ & [=])|(v9 & [] & H9 & H)].
  apply await_cases in H9 as [(? & H9 & _)|(e & _ & [=])].
  injection H9 as <-.
  apply hbind_cases in H as [(e & _ & [=])|(v10 & out & H10 & H)].
  apply await_cases in H10 as [(? & H10 & [= <-])|(e & _ & [=])].
  apply hbind_cases in H as [(e & _ & [=])|(v11 & cache & H11 & H)].
  apply await_cases in H11 as [(? & H11 & [= <-])|(e & _ & [=])].
  injection H as <- <-. simpl.
  rewrite (inputFiles_files _ _ _ Ht) in H10.
  eexists _, nj, spec', rest, wr, v10.
  split; [done|]. split; [reflexivity|]. split; [done|]. split; [done|].
  split; [done|]. split.
  { rewrite lookup_fmap in Ht. by destruct (_ !! stripLeadingSlash _). }
  split; [exact H10|]. split; [exact H11|].
  eexists. split; [reflexivity|]. split; [by apply inputFiles_files|].
  intros k. case_bool_decide as Hk.
  - subst k. by rewrite lookup_insert_eq.
  - rewrite lookup_insert_ne by done. rewrite lookup_fmap.
    by destruct (_ !! k).
Qed.


(** The harness run on its own work directory, or on a fixture below
    it, deletes the fixture before it globs it: the run cannot return,
    and when the path is absolute it fails on the missing manifest. *)
Theorem harness_on_its_work_directory (inputPath : string) (w : World) :
  Path.canon (cwd w) (workPathOf here inputPath)
    `prefix_of` Path.canon [] inputPath →
  (runBuildLambda X L here inputPath w).2
  = inl (if Path.isAbsolute inputPath then TypeError "fsPath"
         else Thrown (GlobBasePath inputPath)).
Proof.
  intros [rel Hrel]. unfold runBuildLambda. cbv zeta.
  cbv [mbind HarnessM_bind hbind]. unfold await at 1. rewrite remove_run.
  unfold await at 1.
  destruct (Path.isAbsolute inputPath) eqn:Habs.
  - rewrite (glob_run X _ _ _ Habs). simpl fs.
    assert (globFiles X "**" (Path.canon [] inputPath)
              (removeTree (Path.canon (cwd w) (workPathOf here inputPath)) (fs w))
            = ∅) as ->.
    { apply map_eq. intros k. rewrite lookup_empty.
      destruct (globFiles _ _ _ _ !! k) as [f|] eqn:E; [|done].
      apply globFiles_Some in E as (rel' & _ & _ & _ & _ & [data Hd] & _).
      rewrite Hrel, <- app_assoc, removeTree_below in Hd. discriminate. }
    by rewrite fmap_empty, lookup_empty.
  - unfold glob. rewrite Habs. reflexivity.
Qed.

End HarnessFacts.

Lemma harness_returned {A} (run : World * (HarnessError + A)) :
  match run.2 with inr _ => True | inl _ => False end →
  ∃ a, run = (run.1, inr a).
Proof. destruct run as [w [e|a]]; [done|]. intros _. by exists a. Qed.

Lemma harness_calls_builder_witness :
  ∃ res, HarnessFixture.run = (HarnessFixture.run.1, inr res)
    ∧ let X := HarnessFixture.collaborators in
      let L := HarnessFixture.loader in
      let w := initialWorld HarnessFixture.disk [] in
      let workPath := workPathOf HarnessFixture.here "/fixtures/web" in
      let disk1 := removeTree (Path.canon (cwd w) workPath) (fs w) in
      let found := globFiles X "**" (Path.canon [] "/fixtures/web") disk1 in
      ∃ path nowJson spec rest wrapper w2,
        Path.isAbsolute "/fixtures/web" = true
        ∧ found !! testManifest = Some (FileFsRef path)
        ∧ requireJSON L path disk1 = Some nowJson
        ∧ NowJson.builds nowJson = spec :: rest
        ∧ requireBuilder L (BuildSpec.use spec) = Some wrapper
        ∧ let entrypoint := stripLeadingSlash (BuildSpec.src spec) in
          let w1 :=
            addEvent (EvMkdirp workPath)
              (addEvent (EvGlob "**" "/fixtures/web") (setFs disk1 w)) in
          is_Some (found !! entrypoint)
          ∧ Wrapper.build wrapper
              (mkBuildOptions found entrypoint workPath (BuildSpec.config spec)
                 (mkMeta false)) w1
            = (w2, inr (BuildLambdaResult.buildResult res))
          ∧ Wrapper.prepareCache wrapper
              (CacheOptions.mk (Path.join [workPath; ".cache"]) workPath entrypoint)
              w2
            = (HarnessFixture.run.1, inr (BuildLambdaResult.cacheResult res))
          ∧ ∃ files,
              BuildLambdaResult.analyzeResult res
              = runAnalyze wrapper
                  (AnalyzeContext.mk files entrypoint (BuildSpec.config spec))
              ∧ InputFile.file <$> files = found
              ∧ ∀ k, (files !! k ≫= InputFile.digest) =
                     if bool_decide (k = entrypoint) then Some fakeDigest else None.
Proof.
  destruct (harness_returned HarnessFixture.run) as [res E];
    [vm_compute; exact I|].
  exists res. split; [exact E|].
  exact (harness_calls_builder HarnessFixture.collaborators HarnessFixture.loader
           HarnessFixture.here "/fixtures/web"
           (initialWorld HarnessFixture.disk []) _ _ E).
Defined.


Lemma harness_on_its_work_directory_witness :
  Path.canon [] (workPathOf HarnessFixture.here "/builder/.tmp/web")
    `prefix_of` Path.canon [] "/builder/.tmp/web"
  ∧ HarnessFixture.ownDirectoryRun.2 = inl (TypeError "fsPath").
Proof.
  assert (Path.canon [] (workPathOf HarnessFixture.here "/builder/.tmp/web")
            `prefix_of` Path.canon [] "/builder/.tmp/web") as Hp.
  { exists []. vm_compute. reflexivity. }
  split; [exact Hp|].
  exact (harness_on_its_work_directory HarnessFixture.collaborators
           HarnessFixture.loader HarnessFixture.here "/builder/.tmp/web"
           (initialWorld HarnessFixture.disk []) Hp).
Defined.

(** The harness on the fixture, end to end: the stale file of the work
    directory is gone, the project has been downloaded into it and built
    there, and the result carries the default analysis and the route
    table of the build. *)
Example harness_end_to_end :
  match HarnessFixture.run.2 with
  | inr res =>
      BuildLambdaResult.analyzeResult res
      = "this-is-a-fake-analyze-result-from-default-analyze"
      ∧ routes (BuildLambdaResult.buildResult res)
        = [cacheRule "/_nuxt/.+"; cacheRule "/favicon.ico";
           filesystemDirective; catchAllRule]
      ∧ BuildLambdaResult.cacheResult res = ∅
  | inl _ => False
  end
  ∧ cwd HarnessFixture.run.1 = ["builder"; ".tmp"; "web"; "apps"; "neu.app"]
  ∧ fs HarnessFixture.run.1
      !! ["builder"; ".tmp"; "web"; "apps"; "neu.app"; "stale.js"] = None
  ∧ fs HarnessFixture.run.1
      !! ["builder"; ".tmp"; "web"; "apps"; "neu.app"; "package.json"]
    = Some Fixture.prunedText.
Proof. vm_compute. repeat split; reflexivity. Qed.
